(** * The gjson_template execution engine (exec.go), embedded in Rocq

    The development follows src/exec.go: a tree walker over parsed template
    nodes that renders a JSON document through the gjson value store.

    - Go's panic/recover is modelled by an explicit result type
      ([Ret] / [Panic]) threaded together with the execution [state];
      [defer] is modelled by the combinators [defer_pop] and [recover_only].
    - The gjson library, the fmt/strconv helpers and the output sink are
      external to exec.go; the small accessors of [gjson.Result] are written
      out, the rest is collected in the classes [SinkTypes] (the types of
      the sink) and [Externals] (the operations).
    - The parse package and the Template type belong to the repository but
      are not part of src/; their declarations are modelled from the spec
      and from the way exec.go uses them. *)

From Stdlib Require Import ZArith String Ascii List Bool Floats Lia.
From Stdlib Require Import DecimalString Uint63.
From stdpp Require Import base option list strings gmap.

Local Open Scope string_scope.
Local Open Scope list_scope.

(* ===================================================================== *)
(** ** The JSON value store (package gjson) *)
(* ===================================================================== *)

Module gjson.

(** gjson.Type: the tag of a [Result] (Null, False, Number, String, True,
    JSON in the library; the constructors carry a T so that they do not
    hide Rocq's own True, False and String).  [TNull] is the zero value. *)
Inductive Type_ : Set := TNull | TFalse | TNumber | TString | TTrue | TJSON.

Definition Type_eqb (a b : Type_) : bool :=
  match a, b with
  | TNull, TNull | TFalse, TFalse | TNumber, TNumber
  | TString, TString | TTrue, TTrue | TJSON, TJSON => true
  | _, _ => false
  end.

(** gjson.Result: Type, Raw, Str and Num (Index and Indexes are never read
    by exec.go and are left out). *)
Record Result : Type := mkResult {
  Typ : Type_;
  Raw : string;
  Str : string;
  Num : float;
}.

(** The zero value [gjson.Result{}]. *)
Definition zero : Result :=
  {| Typ := TNull; Raw := ""; Str := ""; Num := 0%float |}.

(** [t.Exists()]: [t.Type != Null || len(t.Raw) != 0]. *)
Definition Exists (t : Result) : bool :=
  negb (Type_eqb (Typ t) TNull) || negb (String.eqb (Raw t) "").

Definition first_byte_is (c : ascii) (s : string) : bool :=
  match s with
  | EmptyString => false
  | String.String c' _ => Ascii.eqb c' c
  end.

(** [t.IsObject()]: [t.Type == JSON && len(t.Raw) > 0 && t.Raw[0] == '{'] *)
Definition IsObject (t : Result) : bool :=
  Type_eqb (Typ t) TJSON && first_byte_is "{"%char (Raw t).

(** [t.IsArray()]: [t.Type == JSON && len(t.Raw) > 0 && t.Raw[0] == '['] *)
Definition IsArray (t : Result) : bool :=
  Type_eqb (Typ t) TJSON && first_byte_is "["%char (Raw t).

Definition is_digit (c : ascii) : bool :=
  (Nat.leb 48 (nat_of_ascii c)) && (Nat.leb (nat_of_ascii c) 57).

Fixpoint all_digits (s : string) : bool :=
  match s with
  | EmptyString => true
  | String.String c s' => is_digit c && all_digits s'
  end.

(** The test [t.String()] makes on the raw text of a number: an optional
    leading '-' followed by digits only. *)
Definition plain_integer_text (raw : string) : bool :=
  match raw with
  | EmptyString => false
  | String.String c rest =>
      if Ascii.eqb c "-"%char then all_digits rest else all_digits raw
  end.

(** [t.String()], given strconv.FormatFloat(_, 'f', -1, 64). *)
Definition String_ (FormatFloat : float -> string) (t : Result) : string :=
  match Typ t with
  | TNull => ""
  | TFalse => "false"
  | TNumber =>
      if plain_integer_text (Raw t) then Raw t else FormatFloat (Num t)
  | TString => Str t
  | TJSON => Raw t
  | TTrue => "true"
  end.

End gjson.

(* ===================================================================== *)
(** ** The syntax tree (package parse) *)
(* ===================================================================== *)

Module parse.

(** Modelled from the spec: the node declarations of the parse package,
    which is not under src/.  Spec, section 3: a tagged variant over
    Action(pipe), Break, Comment, Continue, If(pipe,list,elseList),
    List(nodes), Range(pipe,list,elseList), TemplateCall(name,pipe),
    Text(bytes), With(pipe,list,elseList); a Pipe is a sequence of
    Commands plus declared identifiers and an assign/declare flag; a
    Command is a sequence of tokens.  Field names are the ones exec.go
    reads. *)

Record VariableNode : Type := mkVariableNode { Ident : list string }.

Record NumberNode : Type := mkNumberNode {
  IsInt : bool;
  IsUint : bool;
  IsFloat : bool;
  IsComplex : bool;
  Int64 : Z;
  Uint64 : Z;
  Float64 : float;
  Complex128 : string;   (* only ever formatted with %v *)
  NumText : string;
}.

(** One type for every parse.Node, as in Go, so that walk's and
    evalCommand's default branches are reachable.  Pointers that exec.go
    tests against nil ([*PipeNode], [ElseList]) are options. *)
#[local] Unset Elimination Schemes.
Inductive Node : Type :=
| ActionNode (Pipe : option PipeNode)
| BoolNode (True_ : bool)
| BreakNode
| ChainNode (Node_ : Node) (Field : list string)
| CommandNode_ (c : CommandNode)
| CommentNode
| ContinueNode
| DotNode
| FieldNode (Ident : list string)
| IdentifierNode (Ident : string)
| IfNode (Pipe : option PipeNode) (List : list Node) (ElseList : option (list Node))
| ListNode (Nodes : list Node)
| NilNode
| NumberNode_ (n : NumberNode)
| PipeNode_ (p : PipeNode)
| RangeNode (Pipe : option PipeNode) (List : list Node) (ElseList : option (list Node))
| StringNode (Quoted Text : string)
| TemplateNode (Name : string) (Pipe : option PipeNode)
| TextNode (Text : string)
| VariableNode_ (v : VariableNode)
| WithNode (Pipe : option PipeNode) (List : list Node) (ElseList : option (list Node))
with PipeNode : Type :=
| mkPipeNode (IsAssign : bool) (Decl : list VariableNode) (Cmds : list CommandNode)
with CommandNode : Type :=
| mkCommandNode (Args : list Node).
#[local] Set Elimination Schemes.

Definition IsAssign (p : PipeNode) : bool :=
  match p with mkPipeNode a _ _ => a end.
Definition Decl (p : PipeNode) : list VariableNode :=
  match p with mkPipeNode _ d _ => d end.
Definition Cmds (p : PipeNode) : list CommandNode :=
  match p with mkPipeNode _ _ c => c end.
Definition Args (c : CommandNode) : list Node :=
  match c with mkCommandNode a => a end.

(** [n.Type() == parse.NodeNil] *)
Definition is_nil (n : Node) : bool :=
  match n with NilNode => true | _ => false end.

End parse.

(* ===================================================================== *)
(** ** What exec.go uses from outside the repository *)
(* ===================================================================== *)

(** Go values handed to fmt.Sprintf and to registered functions, and the
    kinds of value a registered function hands back (reflect.Kind). *)
Inductive goValue : Type :=
| GoNil
| GoBool (b : bool)
| GoInt (n : Z)
| GoUint (n : Z)
| GoFloat (f : float)
| GoString (s : string)
| GoBytes (s : string)
| GoOther (printed : string).

(** The missing-key option of a template (option.go): mapInvalid is the
    default, mapZeroValue and mapError are set by Option("missingkey=..."). *)
Inductive missingKeyAction : Set := mapInvalid | mapZeroValue | mapError.

Definition missingKey_is_error (m : missingKeyAction) : bool :=
  match m with mapError => true | _ => false end.

(** The output sink (io.Writer) has a state, and reports errors of some
    type. *)
Class SinkTypes : Type := {
  Writer : Type;
  sink_error : Type;
}.

(** The operations of the gjson library, of Go's fmt, strconv, net/url and
    runtime packages, the repository's escaping and function-lookup helpers
    (funcs.go, not under src/), and the output sink.  Each field is named
    after the Go operation it stands for. *)
Class Externals `{SinkTypes} : Type := {
  (** io.Writer: a write gives the next state of the sink and the error it
      reports, if any. *)
  Write : Writer -> string -> Writer * option sink_error;
  (** gjson *)
  Parse : string -> gjson.Result;
  Get : gjson.Result -> string -> gjson.Result;
  Array : gjson.Result -> list gjson.Result;
  (** the (key, value) pairs [ForEach] visits, in document order *)
  ForEach : gjson.Result -> list (gjson.Result * gjson.Result);
  Int : gjson.Result -> Z;
  Bool_ : gjson.Result -> bool;
  Float_ : gjson.Result -> float;
  Value : gjson.Result -> goValue;
  (** strconv and fmt *)
  FormatFloat : float -> string;
  ParseFloat : string -> option float;
  fmt_q : string -> string;                 (* fmt.Sprintf("%q", s) *)
  fmt_d : Z -> string;                      (* fmt.Sprintf("%d", n) *)
  fmt_f : float -> string;                  (* fmt.Sprintf("%f", x) *)
  Sprintf : string -> list goValue -> string;
  Sprint : goValue -> string;
  int64_of_float : float -> Z;              (* int64(x) *)
  float_of_int64 : Z -> float;              (* float64(n) *)
  (** [for i, r := range str]: byte offset and string(r) of each rune *)
  Runes : string -> list (Z * string);
  (** escaping *)
  HTMLEscape : string -> string;
  JSEscape : string -> string;
  QueryEscape : string -> string;
  (** findFunction followed by safeCall: [None] when the name is not
      registered, otherwise the call's result or the error it reports. *)
  callFunction : string -> option (list goValue -> goValue + string);
  (** runtime.GOARCH *)
  GOARCH : string;
}.

(** fmt.Sprintf("%t", b) *)
Definition fmt_t (b : bool) : string := if b then "true" else "false".

(** Modelled from the spec: the Template type and its registry
    (template.go is not under src/).  Spec, section 6: the template
    registry maps a name to a template (syntax tree and MissingKeyPolicy),
    looked up by exact string match.  As in exec.go, a template whose Tree
    or Root is nil has no [Root]; the templates associated with one another
    share the registry [common]. *)
Record TemplateEntry : Type := mkTemplateEntry {
  entry_Root : option (list parse.Node);
  entry_missingKey : missingKeyAction;
}.

Record Template : Type := mkTemplate {
  Name : string;
  Root : option (list parse.Node);
  missingKey : missingKeyAction;
  common : gmap string TemplateEntry;
}.

Definition Lookup (t : Template) (name : string) : option Template :=
  match common t !! name with
  | Some e =>
      Some {| Name := name; Root := entry_Root e;
              missingKey := entry_missingKey e; common := common t |}
  | None => None
  end.

(** The arguments of an errorf call, kept unformatted. *)
Inductive fmtarg : Type :=
| ArgString (s : string)
| ArgInt (n : Z)
| ArgResult (v : gjson.Result)
| ArgType (t : gjson.Type_)
| ArgNode (n : parse.Node).

(** ExecError.  [Err] keeps the format string and the arguments of the
    errorf call that raised it; the "template: location: executing ..."
    prefix errorf adds comes from Template.ErrorContext, which is not under
    src/, and plays no part in control flow. *)
Record ExecError : Type := mkExecError {
  ErrName : string;
  ErrFormat : string;
  ErrArgs : list fmtarg;
}.

(* ===================================================================== *)
(** ** Execution state, panics and the two execution monads *)
(* ===================================================================== *)

(** [variable] holds the dynamic value of a variable such as $, $x etc. *)
Record variable : Type := mkvariable {
  name : string;
  value : gjson.Result;
}.

Declare Scope exec_scope.
Delimit Scope exec_scope with exec.
Declare Scope walk_scope.
Delimit Scope walk_scope with walk.

Section Engine.

Context {T : SinkTypes} {Ext : Externals}.

(** [state] represents the state of an execution.  The [node] field, kept
    only for error locations, is left out; [wr] is the current state of the
    sink the io.Writer refers to. *)
Record state : Type := mkstate {
  tmpl : Template;
  wr : Writer;
  vars : list variable;
  depth : Z;
  jsonData : gjson.Result;
  strictMode : bool;
}.

Definition set_vars (s : state) (v : list variable) : state :=
  {| tmpl := tmpl s; wr := wr s; vars := v; depth := depth s;
     jsonData := jsonData s; strictMode := strictMode s |}.

Definition set_wr (s : state) (w : Writer) : state :=
  {| tmpl := tmpl s; wr := w; vars := vars s; depth := depth s;
     jsonData := jsonData s; strictMode := strictMode s |}.

(** The values exec.go panics with: the two loop sentinels, an ExecError
    (errorf), a writeError (the wrapper around a sink error), and the
    runtime errors of Go itself (index out of range, nil dereference,
    makeslice). *)
Inductive panic : Type :=
| walkBreak
| walkContinue
| PanicExecError (e : ExecError)
| PanicWriteError (e : sink_error)
| PanicRuntime (what : string).

Definition is_walkBreak (p : panic) : bool :=
  match p with walkBreak => true | _ => false end.
Definition is_walkContinue (p : panic) : bool :=
  match p with walkContinue => true | _ => false end.

(** The outcome of a call on [s *state]: a normal return or a panic, each
    with the state as the call left it. *)
Inductive result (A : Type) : Type :=
| Ret (a : A) (s : state)
| Panic (p : panic) (s : state).
Arguments Ret {A} a s.
Arguments Panic {A} p s.

Definition state_of {A} (r : result A) : state :=
  match r with Ret _ s => s | Panic _ s => s end.

(** Eval functions: they run to a result on every input. *)
Definition Exec (A : Type) : Type := state -> result A.

Definition ret {A} (a : A) : Exec A := fun s => Ret a s.

Definition bind {A B} (m : Exec A) (k : A -> Exec B) : Exec B :=
  fun s =>
    match m s with
    | Ret a s' => k a s'
    | Panic p s' => Panic p s'
    end.

(** Walk functions: template calls recurse on another template's tree, so
    they carry a recursion budget; [None] means the budget ran out. *)
Definition Walk (A : Type) : Type := state -> option (result A).

Definition wret {A} (a : A) : Walk A := fun s => Some (Ret a s).

Definition wbind {A B} (m : Walk A) (k : A -> Walk B) : Walk B :=
  fun s =>
    match m s with
    | Some (Ret a s') => k a s'
    | Some (Panic p s') => Some (Panic p s')
    | None => None
    end.

Definition lift {A} (m : Exec A) : Walk A := fun s => Some (m s).

Notation "x <- m ;; k" := (bind m (fun x => k))
  (at level 100, m at next level, right associativity) : exec_scope.
Notation "m ;;; k" := (bind m (fun _ => k))
  (at level 100, right associativity) : exec_scope.

Notation "x <- m ;; k" := (wbind m (fun x => k))
  (at level 100, m at next level, right associativity) : walk_scope.
Notation "m ;;; k" := (wbind m (fun _ => k))
  (at level 100, right associativity) : walk_scope.

(** [s.errorf(format, args...)]: panics with an ExecError naming the
    template being executed. *)
Definition errorf {A} (format : string) (args : list fmtarg) : Exec A :=
  fun s => Panic (PanicExecError
                    {| ErrName := Name (tmpl s); ErrFormat := format;
                       ErrArgs := args |}) s.

(** A Go runtime error (runtime.Error). *)
Definition runtime_panic {A} (what : string) : Exec A :=
  fun s => Panic (PanicRuntime what) s.

(** [s.writeError(err)] *)
Definition writeError {A} (err : sink_error) : Exec A :=
  fun s => Panic (PanicWriteError err) s.

(* --------------------------------------------------------------------- *)
(** *** The variable stack *)

(** [push] pushes a new variable on the stack. *)
Definition push (name : string) (value : gjson.Result) : Exec unit :=
  fun s => Ret tt (set_vars s (vars s ++ [mkvariable name value])).

(** [mark] returns the length of the variable stack. *)
Definition mark (s : state) : nat := length (vars s).

(** [pop] pops the variable stack up to the mark: [s.vars = s.vars[0:mark]].
    The walker only ever pops to a mark that the stack has not dropped
    below (see [walkNode_wframes]); there the reslice is [take]. *)
Definition pop (mark : nat) (s : state) : state :=
  set_vars s (take mark (vars s)).

(** The loop [for i := s.mark() - 1; i >= 0; i--] of setVar and varValue:
    the index of the last variable below [i] with the given name. *)
Fixpoint findVar (vs : list variable) (x : string) (i : nat) : option nat :=
  match i with
  | O => None
  | S j =>
      match vs !! j with
      | Some v => if String.eqb (name v) x then Some j else findVar vs x j
      | None => findVar vs x j
      end
  end.

(** [setVar] overwrites the last declared variable with the given name. *)
Definition setVar (x : string) (val : gjson.Result) : Exec unit :=
  fun s =>
    match findVar (vars s) x (mark s) with
    | Some i => Ret tt (set_vars s (<[i := mkvariable x val]> (vars s)))
    | None => errorf "undefined variable: %s" [ArgString x] s
    end.

(** [setTopVar] overwrites the top-nth variable on the stack:
    [s.vars[len(s.vars)-n].value = value]; an index outside the slice is a
    runtime error. *)
Definition setTopVar (n : nat) (val : gjson.Result) : Exec unit :=
  fun s =>
    match n with
    | O => runtime_panic "index out of range" s
    | S _ =>
        if Nat.ltb (length (vars s)) n
        then runtime_panic "index out of range" s
        else
          let i := (length (vars s) - n)%nat in
          match vars s !! i with
          | Some v => Ret tt (set_vars s (<[i := mkvariable (name v) val]> (vars s)))
          | None => runtime_panic "index out of range" s
          end
    end.

(** [varValue] returns the value of the named variable. *)
Definition varValue (x : string) : Exec gjson.Result :=
  fun s =>
    match findVar (vars s) x (mark s) with
    | Some i =>
        match vars s !! i with
        | Some v => Ret (value v) s
        | None => runtime_panic "index out of range" s
        end
    | None => errorf "undefined variable: %s" [ArgString x] s
    end.

(* --------------------------------------------------------------------- *)
(** *** Truth values *)

(** [isGjsonTrue] reports whether the value is 'true', in the sense of not
    the zero of its type, and whether the value has a meaningful truth
    value.  The result is the pair (truth, ok). *)
Definition isGjsonTrue (val : gjson.Result) : bool * bool :=
  if negb (gjson.Exists val) then (false, true)
  else
    match gjson.Typ val with
    | gjson.TNull => (false, true)
    | gjson.TFalse => (false, true)
    | gjson.TTrue => (true, true)
    | gjson.TNumber => (negb (PrimFloat.eqb (gjson.Num val) 0%float), true)
    | gjson.TString => (negb (String.eqb (gjson.Str val) ""), true)
    | gjson.TJSON =>
        if gjson.IsArray val || gjson.IsObject val
        then (negb (String.eqb (gjson.Raw val) "")
              && negb (String.eqb (gjson.Raw val) "[]")
              && negb (String.eqb (gjson.Raw val) "{}"), true)
        else (false, false)
    end.

(* --------------------------------------------------------------------- *)
(** *** Eval functions that do not recurse *)

Definition String_ (v : gjson.Result) : string := gjson.String_ FormatFloat v.

Definition len {A} (l : list A) : Z := Z.of_nat (length l).

Definition strict : Exec bool :=
  fun s => Ret (missingKey_is_error (missingKey (tmpl s))) s.

(** [notAFunction]: only the length and the first element of [args] are
    used; [args[0]] on an empty slice is a runtime error. *)
Definition notAFunction (args : list parse.Node) (final : gjson.Result) : Exec unit :=
  if (1 <? len args)%Z || gjson.Exists final
  then
    match args with
    | a0 :: _ => errorf "can't give argument to non-function %s" [ArgNode a0]
    | [] => runtime_panic "index out of range"
    end
  else ret tt.

(** [evalFieldChain] evaluates .X.Y.Z possibly followed by arguments. *)
Definition evalFieldChain (dot receiver : gjson.Result) (ident : list string)
    (args : list parse.Node) (final : gjson.Result) : Exec gjson.Result :=
  (let path := String.concat "." ident in
   let result := Get receiver path in
   isStrict <- strict ;;
   if negb (gjson.Exists result) && isStrict
   then errorf "path %q not found in data" [ArgString path]
   else if (1 <? len args)%Z || gjson.Exists final
   then errorf "%s is not a method but has arguments" [ArgString path]
   else ret result)%exec.

Definition evalFieldNode (dot : gjson.Result) (Ident : list string)
    (args : list parse.Node) (final : gjson.Result) : Exec gjson.Result :=
  evalFieldChain dot dot Ident args final.

(** [evalChainNode]; [evalNode] is [s.evalArg(dot, chain.Node)]. *)
Definition evalChainNode (dot : gjson.Result) (chain : parse.Node)
    (chainNode : parse.Node) (Field : list string) (evalNode : Exec gjson.Result)
    (args : list parse.Node) (final : gjson.Result) : Exec gjson.Result :=
  (if (len Field =? 0)%Z
   then errorf "internal error: no fields in evalChainNode" []
   else if parse.is_nil chainNode
   then errorf "indirection through explicit nil in %s" [ArgNode chain]
   else
     pipe <- evalNode ;;
     evalFieldChain dot pipe Field args final)%exec.

Definition evalVariableNode (dot : gjson.Result) (variable : parse.VariableNode)
    (args : list parse.Node) (final : gjson.Result) : Exec gjson.Result :=
  (match parse.Ident variable with
   | [] => runtime_panic "index out of range"
   | x :: rest =>
       value <- varValue x ;;
       match rest with
       | [] => notAFunction args final ;;; ret value
       | _ :: _ => evalFieldChain dot value rest args final
       end
   end)%exec.

(** [idealConstantGjson] returns the gjson.Result value of a number. *)
Definition idealConstantGjson (constant : parse.NumberNode) : gjson.Result :=
  if parse.IsComplex constant then
    Parse (fmt_q (parse.Complex128 constant))
  else if parse.IsFloat constant then
    if PrimFloat.eqb (parse.Float64 constant)
         (float_of_int64 (int64_of_float (parse.Float64 constant)))
    then Parse (fmt_d (int64_of_float (parse.Float64 constant)))
    else Parse (fmt_f (parse.Float64 constant))
  else if parse.IsInt constant then Parse (fmt_d (parse.Int64 constant))
  else if parse.IsUint constant then Parse (fmt_d (parse.Uint64 constant))
  else gjson.zero.

(** The conversion of a JSON value to a Go value for printf. *)
Definition printfArg (arg : gjson.Result) : goValue :=
  match gjson.Typ arg with
  | gjson.TNull => GoNil
  | gjson.TFalse | gjson.TTrue => GoBool (Bool_ arg)
  | gjson.TNumber =>
      if PrimFloat.eqb (gjson.Num arg) (float_of_int64 (int64_of_float (gjson.Num arg)))
      then GoInt (Int arg) else GoFloat (Float_ arg)
  | gjson.TString => GoString (String_ arg)
  | gjson.TJSON =>
      if gjson.IsArray arg || gjson.IsObject arg
      then GoString (gjson.Raw arg) else Value arg
  end.

(** The conversion of a JSON value to the argument of a registered function. *)
Definition reflectArg (arg : gjson.Result) : goValue :=
  match gjson.Typ arg with
  | gjson.TNull => GoNil
  | gjson.TFalse | gjson.TTrue => GoBool (Bool_ arg)
  | gjson.TNumber =>
      if PrimFloat.eqb (gjson.Num arg) (float_of_int64 (int64_of_float (gjson.Num arg)))
      then GoInt (Int arg) else GoFloat (Float_ arg)
  | gjson.TString => GoString (String_ arg)
  | gjson.TJSON => GoString (gjson.Raw arg)
  end.

(** The conversion of a registered function's result, by kind. *)
Definition reflectResult (r : goValue) : gjson.Result :=
  match r with
  | GoBool b => Parse (fmt_t b)
  | GoInt n => Parse (fmt_d n)
  | GoUint n => Parse (fmt_d n)
  | GoFloat f => Parse (fmt_f f)
  | GoString s => Parse (fmt_q s)
  | GoBytes s => Parse (fmt_q s)
  | GoNil | GoOther _ => Parse (fmt_q (Sprint r))
  end.

(** Runs the argument evaluations in order and collects their values. *)
Fixpoint evalAll (argv : list (Exec gjson.Result)) : Exec (list gjson.Result) :=
  match argv with
  | [] => ret []
  | a :: rest => (v <- a ;; vs <- evalAll rest ;; ret (v :: vs))%exec
  end.

(** The loop of "and" and "or" over args[1:]. *)
Fixpoint andOr (fname : string) (argv : list (Exec gjson.Result))
    (lastArg : gjson.Result) : Exec gjson.Result :=
  match argv with
  | [] => ret lastArg
  | a :: rest =>
      (arg <- a ;;
       let '(truth, ok) := isGjsonTrue arg in
       if negb ok
       then errorf "%s can't use %v" [ArgString fname; ArgString (gjson.Raw arg)]
       else if String.eqb fname "and"
       then (if negb truth then ret arg else andOr fname rest arg)
       else (if truth then ret arg else andOr fname rest arg))%exec
  end.

Definition is_Number (v : gjson.Result) : bool :=
  gjson.Type_eqb (gjson.Typ v) gjson.TNumber.
Definition is_String (v : gjson.Result) : bool :=
  gjson.Type_eqb (gjson.Typ v) gjson.TString.

(** The comparison made by eq, ne, lt, le, gt and ge on two values. *)
Definition compare_op (fname : string) (arg1 arg2 : gjson.Result) : bool :=
  if String.eqb fname "eq" then
    if is_Number arg1 && is_Number arg2 then
      PrimFloat.eqb (gjson.Num arg1) (gjson.Num arg2)
    else if is_Number arg1 && is_String arg2 then
      match ParseFloat (String_ arg2) with
      | Some num => PrimFloat.eqb (gjson.Num arg1) num
      | None => false
      end
    else if is_String arg1 && is_Number arg2 then
      match ParseFloat (String_ arg1) with
      | Some num => PrimFloat.eqb num (gjson.Num arg2)
      | None => false
      end
    else String.eqb (gjson.Raw arg1) (gjson.Raw arg2)
  else if String.eqb fname "ne" then
    negb (String.eqb (gjson.Raw arg1) (gjson.Raw arg2))
  else if String.eqb fname "lt" then
    if is_Number arg1 && is_Number arg2
    then PrimFloat.ltb (gjson.Num arg1) (gjson.Num arg2)
    else String.ltb (String_ arg1) (String_ arg2)
  else if String.eqb fname "le" then
    if is_Number arg1 && is_Number arg2
    then PrimFloat.leb (gjson.Num arg1) (gjson.Num arg2)
    else String.leb (String_ arg1) (String_ arg2)
  else if String.eqb fname "gt" then
    if is_Number arg1 && is_Number arg2
    then PrimFloat.ltb (gjson.Num arg2) (gjson.Num arg1)
    else String.ltb (String_ arg2) (String_ arg1)
  else if String.eqb fname "ge" then
    if is_Number arg1 && is_Number arg2
    then PrimFloat.leb (gjson.Num arg2) (gjson.Num arg1)
    else String.leb (String_ arg2) (String_ arg1)
  else false.

Definition is_comparison (fname : string) : bool :=
  String.eqb fname "eq" || String.eqb fname "ne" || String.eqb fname "lt"
  || String.eqb fname "le" || String.eqb fname "gt" || String.eqb fname "ge".

Definition wrong_args_want_1 {A} (fname : string) (nargs : Z) : Exec A :=
  errorf "wrong number of args for %s: want 1 got %d"
    [ArgString fname; ArgInt (nargs - 1)].

(* --------------------------------------------------------------------- *)
(** *** evalFunction *)

(** [evalFunction].  [argv] holds, for each node of [args] in order, the
    evaluation [s.evalArg(dot, args[i])] of that node; [argv] has the length
    of [args], and its first element (the function's own identifier) is
    never run.  Each builtin checks its arity and then runs the evaluations
    it needs, left to right. *)
Definition evalFunction (dot : gjson.Result) (fname : string)
    (argv : list (Exec gjson.Result)) (final : gjson.Result) : Exec gjson.Result :=
  (if String.eqb fname "gjson" then
     match argv with
     | [_; a1] =>
         pathArg <- a1 ;;
         if negb (is_String pathArg)
         then errorf "gjson requires a string path argument" []
         else
           let path := String_ pathArg in
           let result := Get dot path in
           isStrict <- strict ;;
           if negb (gjson.Exists result) && isStrict
           then errorf "gjson path %q not found in data" [ArgString path]
           else ret result
     | _ => wrong_args_want_1 fname (len argv)
     end
   else if String.eqb fname "len" then
     match argv with
     | [_; a1] =>
         arg <- a1 ;;
         if gjson.IsArray arg then ret (Parse (fmt_d (len (Array arg))))
         else if gjson.IsObject arg then ret (Parse (fmt_d (len (ForEach arg))))
         else if is_String arg
         then ret (Parse (fmt_d (Z.of_nat (String.length (String_ arg)))))
         else ret (Parse "0")
     | _ => wrong_args_want_1 fname (len argv)
     end
   else if String.eqb fname "index" then
     match argv with
     | _ :: a1 :: a2 :: _ =>
         container <- a1 ;;
         key <- a2 ;;
         if gjson.IsArray container then
           if negb (is_Number key)
           then errorf "index of array must be integer" []
           else
             let idx := Int key in
             let arr := Array container in
             if (idx <? 0)%Z || (len arr <=? idx)%Z
             then errorf "array index out of range: %d" [ArgInt idx]
             else
               match arr !! Z.to_nat idx with
               | Some v => ret v
               | None => runtime_panic "index out of range"
               end
         else if gjson.IsObject container then
           ret (Get container (String_ key))
         else errorf "can't index %s" [ArgType (gjson.Typ container)]
     | _ =>
         errorf "wrong number of args for %s: want at least 2 got %d"
           [ArgString fname; ArgInt (len argv - 1)]
     end
   else if String.eqb fname "print" || String.eqb fname "println" then
     vs <- evalAll (tail argv) ;;
     let text := String.concat " " (map String_ vs) in
     let text := if String.eqb fname "println"
                 then String.append text (String (ascii_of_nat 10) "") else text in
     ret (Parse (fmt_q text))
   else if String.eqb fname "and" || String.eqb fname "or" then
     if (len argv <? 2)%Z
     then errorf "wrong number of args for %s: want at least 1 got 0" [ArgString fname]
     else andOr fname (tail argv) gjson.zero
   else if String.eqb fname "not" then
     match argv with
     | [_; a1] =>
         arg <- a1 ;;
         let '(truth, ok) := isGjsonTrue arg in
         if negb ok
         then errorf "not can't use %v" [ArgString (gjson.Raw arg)]
         else ret (Parse (fmt_t (negb truth)))
     | _ => wrong_args_want_1 fname (len argv)
     end
   else if is_comparison fname then
     match argv with
     | _ :: a1 :: a2 :: _ =>
         arg1 <- a1 ;;
         arg2 <- a2 ;;
         ret (Parse (fmt_t (compare_op fname arg1 arg2)))
     | _ =>
         errorf "wrong number of args for %s: want at least 2 got %d"
           [ArgString fname; ArgInt (len argv - 1)]
     end
   else if String.eqb fname "html" then
     match argv with
     | [_; a1] => arg <- a1 ;; ret (Parse (fmt_q (HTMLEscape (String_ arg))))
     | _ => wrong_args_want_1 fname (len argv)
     end
   else if String.eqb fname "js" then
     match argv with
     | [_; a1] => arg <- a1 ;; ret (Parse (fmt_q (JSEscape (String_ arg))))
     | _ => wrong_args_want_1 fname (len argv)
     end
   else if String.eqb fname "urlquery" then
     match argv with
     | [_; a1] => arg <- a1 ;; ret (Parse (fmt_q (QueryEscape (String_ arg))))
     | _ => wrong_args_want_1 fname (len argv)
     end
   else if String.eqb fname "printf" || String.eqb fname "sprintf" then
     match argv with
     | _ :: a1 :: rest =>
         formatArg <- a1 ;;
         if negb (is_String formatArg)
         then errorf "first argument to %s must be a format string" [ArgString fname]
         else
           let format := String_ formatArg in
           vs <- evalAll rest ;;
           let goArgs := map printfArg vs in
           let result :=
             if (0 <? len goArgs)%Z then Sprintf format goArgs
             else if gjson.Exists final then Sprintf format [printfArg final]
             else format in
           ret (Parse (fmt_q result))
     | _ =>
         errorf "wrong number of args for %s: want at least 1 got %d"
           [ArgString fname; ArgInt (len argv - 1)]
     end
   else
     match callFunction fname with
     | Some fn =>
         match argv with
         | [] => runtime_panic "makeslice: cap out of range"
         | _ :: rest =>
             vs <- evalAll rest ;;
             match fn (map reflectArg vs) with
             | inl r => ret (reflectResult r)
             | inr err => errorf "%s: %s" [ArgString fname; ArgString err]
             end
         end
     | None => errorf "function %q not implemented for gjson" [ArgString fname]
     end)%exec.

(* --------------------------------------------------------------------- *)
(** *** evalPipeline, evalCommand and evalArg *)

(** The second loop of evalPipeline: every declared name receives the
    pipeline's value, by assignment or by a push. *)
Fixpoint declare (isAssign : bool) (decl : list parse.VariableNode)
    (val : gjson.Result) : Exec unit :=
  match decl with
  | [] => ret tt
  | variable :: rest =>
      match parse.Ident variable with
      | [] => runtime_panic "index out of range"
      | x :: _ =>
          ((if isAssign then setVar x val else push x val) ;;;
           declare isAssign rest val)%exec
      end
  end.

Definition last_byte_is (c : ascii) (s : string) : bool :=
  match String.get (String.length s - 1) s with
  | Some c' => negb (String.eqb s "") && Ascii.eqb c' c
  | None => false
  end.

(** [strings.HasPrefix(text, "`") && strings.HasSuffix(text, "`")] *)
Definition backticked (text : string) : bool :=
  gjson.first_byte_is "`"%char text && last_byte_is "`"%char text.

(** The head of evalCommand for a back-quoted string: a gjson path applied
    to dot.  [Text[1 : len(Text)-1]] is a runtime error on a one-byte text. *)
Definition evalBacktick (dot : gjson.Result) (text : string)
    (args : list parse.Node) (final : gjson.Result) : Exec gjson.Result :=
  (if Nat.ltb (String.length text) 2
   then runtime_panic "slice bounds out of range"
   else
     let path := String.substring 1 (String.length text - 2) text in
     let result := Get dot path in
     isStrict <- strict ;;
     if negb (gjson.Exists result) && isStrict
     then errorf "gjson path %q not found in data" [ArgString path]
     else if (1 <? len args)%Z || gjson.Exists final
     then errorf "gjson path %q is not a method but has arguments" [ArgString path]
     else ret result)%exec.

Fixpoint evalArg (dot : gjson.Result) (n : parse.Node) {struct n}
    : Exec gjson.Result :=
  match n with
  | parse.DotNode => ret dot
  | parse.NilNode => ret (Parse "null")
  | parse.FieldNode Ident => evalFieldNode dot Ident [n] gjson.zero
  | parse.VariableNode_ v => evalVariableNode dot v [] gjson.zero
  | parse.PipeNode_ p => evalPipe dot p
  | parse.IdentifierNode Ident => evalFunction dot Ident [] gjson.zero
  | parse.ChainNode node Field =>
      evalChainNode dot n node Field (evalArg dot node) [] gjson.zero
  | parse.BoolNode b => ret (Parse (fmt_t b))
  | parse.NumberNode_ c => ret (idealConstantGjson c)
  | parse.StringNode _ Text => ret (Parse (fmt_q Text))
  | _ => errorf "can't handle %s for arg" [ArgNode n]
  end

(** evalPipeline on a pipe that is not nil. *)
with evalPipe (dot : gjson.Result) (pipe : parse.PipeNode) {struct pipe}
    : Exec gjson.Result :=
  match pipe with
  | parse.mkPipeNode IsAssign Decl Cmds =>
      (val <- (fix commands (cmds : list parse.CommandNode) (val : gjson.Result)
                 {struct cmds} : Exec gjson.Result :=
                 match cmds with
                 | [] => ret val
                 | cmd :: rest =>
                     (* previous value is this one's final arg. *)
                     v <- evalCommand dot cmd val ;; commands rest v
                 end) Cmds gjson.zero ;;
       declare IsAssign Decl val ;;;
       ret val)%exec
  end

with evalCommand (dot : gjson.Result) (cmd : parse.CommandNode)
    (final : gjson.Result) {struct cmd} : Exec gjson.Result :=
  match cmd with
  | parse.mkCommandNode Args =>
      match Args with
      | [] => runtime_panic "index out of range"
      | firstWord :: _ =>
          match firstWord with
          | parse.FieldNode Ident => evalFieldNode dot Ident Args final
          | parse.ChainNode node Field =>
              evalChainNode dot firstWord node Field (evalArg dot node) Args final
          | parse.IdentifierNode Ident =>
              (* Must be a function. *)
              evalFunction dot Ident (map (evalArg dot) Args) final
          | parse.PipeNode_ p =>
              (notAFunction Args final ;;; evalPipe dot p)%exec
          | parse.VariableNode_ v => evalVariableNode dot v Args final
          | parse.StringNode _ Text =>
              if backticked Text
              then evalBacktick dot Text Args final
              else (notAFunction Args final ;;; ret (Parse (fmt_q Text)))%exec
          | parse.BoolNode b =>
              (notAFunction Args final ;;; ret (Parse (fmt_t b)))%exec
          | parse.DotNode => (notAFunction Args final ;;; ret dot)%exec
          | parse.NilNode =>
              (notAFunction Args final ;;; errorf "nil is not a command" [])%exec
          | parse.NumberNode_ c =>
              (notAFunction Args final ;;; ret (idealConstantGjson c))%exec
          | _ =>
              (notAFunction Args final ;;;
               errorf "can't evaluate command %q" [ArgNode firstWord])%exec
          end
      end
  end.

(** [evalPipeline] returns the value acquired by evaluating a pipeline.  If
    the pipeline has a variable declaration, the variable will be pushed on
    the stack. *)
Definition evalPipeline (dot : gjson.Result) (pipe : option parse.PipeNode)
    : Exec gjson.Result :=
  match pipe with
  | None => ret gjson.zero
  | Some p => evalPipe dot p
  end.

(* --------------------------------------------------------------------- *)
(** *** defer and recover *)

(** [defer s.pop(mark)] around [m]: the pop runs when [m] returns and when
    it panics; the panic, if any, goes on. *)
Definition defer_pop {A} (mark : nat) (m : Walk A) : Walk A :=
  fun s =>
    match m s with
    | Some (Ret a s') => Some (Ret a (pop mark s'))
    | Some (Panic p s') => Some (Panic p (pop mark s'))
    | None => None
    end.

(** [defer func() { if r := recover(); r != nil && r != sentinel { panic(r) } }()]
    around [m]: a panic with the sentinel becomes a normal return, any other
    panic is raised again. *)
Definition recover_only (sentinel : panic -> bool) (m : Walk unit) : Walk unit :=
  fun s =>
    match m s with
    | Some (Ret a s') => Some (Ret a s')
    | Some (Panic p s') =>
        if sentinel p then Some (Ret tt s') else Some (Panic p s')
    | None => None
    end.

Definition wpanic {A} (p : panic) : Walk A := fun s => Some (Panic p s).

(* --------------------------------------------------------------------- *)
(** *** Output *)

(** One [Write] on the sink; an error of the sink becomes a writeError
    panic. *)
Definition write (text : string) : Exec unit :=
  fun s =>
    match Write (wr s) text with
    | (w, None) => Ret tt (set_wr s w)
    | (w, Some err) => writeError err (set_wr s w)
    end.

(** The text printValue builds for a value. *)
Definition printed (v : gjson.Result) : string :=
  if negb (gjson.Exists v) then ""
  else
    match gjson.Typ v with
    | gjson.TString => String_ v
    | gjson.TJSON =>
        if gjson.IsObject v || gjson.IsArray v then gjson.Raw v else String_ v
    | _ => gjson.Raw v
    end.

(** [printValue] writes the textual representation of the value to the
    output of the template. *)
Definition printValue (v : gjson.Result) : Exec unit := write (printed v).

(* --------------------------------------------------------------------- *)
(** *** Walk functions *)

(** [maxExecDepth] specifies the maximum stack depth of templates within
    templates. *)
Definition initMaxExecDepth : Z :=
  if String.eqb GOARCH "wasm" then 1000 else 100000.

Definition maxExecDepth : Z := initMaxExecDepth.

Inductive NodeType : Set := NodeIf | NodeWith.

Section Walkers.

(** [s.walk(dot, list)] on the nodes of a list, for the walker in progress. *)
Variable walkList : gjson.Result -> list parse.Node -> Walk unit.

(** [walkIfOrWith] walks an 'if' or 'with' node.  The two control
    structures are identical in behavior except that 'with' sets dot. *)
Definition walkIfOrWith (typ : NodeType) (dot : gjson.Result)
    (pipe : option parse.PipeNode) (list_ : list parse.Node)
    (elseList : option (list parse.Node)) : Walk unit :=
  fun s =>
    defer_pop (mark s)
      (val <- lift (evalPipeline dot pipe) ;;
       let '(truth, ok) := isGjsonTrue val in
       if negb ok then lift (errorf "if/with can't use %v" [ArgResult val])
       else if truth then
         match typ with
         | NodeWith => walkList val list_
         | NodeIf => walkList dot list_
         end
       else
         match elseList with
         | Some e => walkList dot e
         | None => wret tt
         end)%walk s.

(** [r.Pipe.Decl[i].Ident[0]] *)
Definition declIdent (decl : list parse.VariableNode) (i : nat) : Exec string :=
  match decl !! i with
  | Some v =>
      match parse.Ident v with
      | x :: _ => ret x
      | [] => runtime_panic "index out of range"
      end
  | None => runtime_panic "index out of range"
  end.

(** [r.Pipe], a nil dereference when the range node has no pipe. *)
Definition rangePipe (pipe : option parse.PipeNode) : Exec parse.PipeNode :=
  match pipe with
  | Some p => ret p
  | None => runtime_panic "nil pointer dereference"
  end.

(** The first part of the closure [oneIteration] of walkRange: the loop
    variables receive the index and the element. *)
Definition bindLoopVars (pipe : option parse.PipeNode)
    (index elem : gjson.Result) : Exec unit :=
  (p <- rangePipe pipe ;;
   let Decl := parse.Decl p in
   (if (0 <? len Decl)%Z then
      if parse.IsAssign p then
        (* With two variables, index comes first.
           With one, we use the element. *)
        if (1 <? len Decl)%Z
        then (x <- declIdent Decl 0 ;; setVar x index)
        else (x <- declIdent Decl 0 ;; setVar x elem)
      else
        (* Set top var (lexically the second if there
           are two) to the element. *)
        setTopVar 1 elem
    else ret tt) ;;;
   (if (1 <? len Decl)%Z then
      if parse.IsAssign p
      then (x <- declIdent Decl 1 ;; setVar x elem)
      else
        (* Set next var (lexically the first if there
           are two) to the index. *)
        setTopVar 2 index
    else ret tt))%exec.

(** The closure [oneIteration] of walkRange; [mark] is the top of the stack
    after the range pipeline was evaluated.  The two defers are registered
    after the loop variables are bound: on the way out the recover that
    consumes panic(walkContinue) runs first, then the pop. *)
Definition oneIteration (pipe : option parse.PipeNode) (list_ : list parse.Node)
    (mark : nat) (index elem : gjson.Result) : Walk unit :=
  (lift (bindLoopVars pipe index elem) ;;;
   defer_pop mark (recover_only is_walkContinue (walkList elem list_)))%walk.

Section Loops.

Variable one : gjson.Result -> gjson.Result -> Walk unit.

(** [for i, elem := range val.Array()] *)
Fixpoint rangeArray (elems : list gjson.Result) (i : Z) : Walk unit :=
  match elems with
  | [] => wret tt
  | elem :: rest =>
      (one (Parse (fmt_d i)) elem ;;; rangeArray rest (i + 1))%walk
  end.

(** [val.ForEach(func(key, value) bool { oneIteration(key, value); return true })] *)
Fixpoint rangeObject (pairs : list (gjson.Result * gjson.Result)) : Walk unit :=
  match pairs with
  | [] => wret tt
  | (key, val) :: rest => (one key val ;;; rangeObject rest)%walk
  end.

(** [for i := 0; i < num; i++], with [todo] iterations left *)
Fixpoint rangeCount (todo : nat) (i : Z) : Walk unit :=
  match todo with
  | O => wret tt
  | S todo' =>
      (one (Parse (fmt_d i)) (Parse (fmt_d i)) ;;; rangeCount todo' (i + 1))%walk
  end.

(** [for i, r := range str] *)
Fixpoint rangeRunes (runes : list (Z * string)) : Walk unit :=
  match runes with
  | [] => wret tt
  | (i, r) :: rest =>
      (one (Parse (fmt_d i)) (Parse (fmt_q r)) ;;; rangeRunes rest)%walk
  end.

End Loops.

Definition walkElse (dot : gjson.Result) (elseList : option (list parse.Node))
    : Walk unit :=
  match elseList with
  | Some e => walkList dot e
  | None => wret tt
  end.

(** The body of walkRange after its two defer statements. *)
Definition walkRangeBody (dot : gjson.Result) (pipe : option parse.PipeNode)
    (list_ : list parse.Node) (elseList : option (list parse.Node)) : Walk unit :=
  (val <- lift (evalPipeline dot pipe) ;;
   fun s =>
     (* mark top of stack before any variables in the body are pushed. *)
     let one := oneIteration pipe list_ (mark s) in
     (if gjson.IsArray val then
        match Array val with
        | [] => walkElse dot elseList
        | elems => rangeArray one elems 0
        end
      else if gjson.IsObject val then
        if negb (gjson.Exists val) || String.eqb (gjson.Raw val) "{}"
        then walkElse dot elseList
        else rangeObject one (ForEach val)
      else if is_Number val then
        p <- lift (rangePipe pipe) ;;
        if (1 <? len (parse.Decl p))%Z
        then lift (errorf "can't use %v to iterate over more than one variable"
                     [ArgString (gjson.Raw val)])
        else
          let num := Int val in
          if (num <=? 0)%Z then walkElse dot elseList
          else rangeCount one (Z.to_nat num) 0
      else if is_String val then
        let str := String_ val in
        if String.eqb str "" then walkElse dot elseList
        else rangeRunes one (Runes str)
      else
        lift (errorf "range can't iterate over %v" [ArgString (gjson.Raw val)])) s)%walk.

Definition walkRange (dot : gjson.Result) (pipe : option parse.PipeNode)
    (list_ : list parse.Node) (elseList : option (list parse.Node)) : Walk unit :=
  recover_only is_walkBreak
    (fun s => defer_pop (mark s) (walkRangeBody dot pipe list_ elseList) s).

End Walkers.

(** The copy [newState] that walkTemplate executes the called template in. *)
Definition newState (s : state) (tmpl' : Template) (dot : gjson.Result) : state :=
  {| tmpl := tmpl'; wr := wr s;
     (* No dynamic scoping: template invocations inherit no variables. *)
     vars := [mkvariable "$" dot];
     depth := depth s + 1;
     jsonData := jsonData s; strictMode := strictMode s |}.

(** [walkTemplate].  [walkRoot] is [walk] for the called template; it runs
    on [newState], and only the sink, which both states refer to, carries
    over to the caller's state. *)
Definition walkTemplate
    (walkRoot : gjson.Result -> option (list parse.Node) -> Walk unit)
    (dot : gjson.Result) (Name_ : string) (pipe : option parse.PipeNode)
    : Walk unit :=
  fun s =>
    match Lookup (tmpl s) Name_ with
    | None => lift (errorf "template %q not defined" [ArgString Name_]) s
    | Some tmpl' =>
        if (depth s =? maxExecDepth)%Z
        then lift (errorf "exceeded maximum template depth (%v)"
                     [ArgInt maxExecDepth]) s
        else
          (* Variables declared by the pipeline persist. *)
          match evalPipeline dot pipe s with
          | Panic p s1 => Some (Panic p s1)
          | Ret dot' s1 =>
              match walkRoot dot' (Root tmpl') (newState s1 tmpl' dot') with
              | Some (Ret _ s2) => Some (Ret tt (set_wr s1 (wr s2)))
              | Some (Panic p s2) => Some (Panic p (set_wr s1 (wr s2)))
              | None => None
              end
          end
    end.

(** [walk] on a node; [walkRoot] walks the root of a called template. *)
Fixpoint walkNode
    (walkRoot : gjson.Result -> option (list parse.Node) -> Walk unit)
    (dot : gjson.Result) (node : parse.Node) {struct node} : Walk unit :=
  let walkList :=
    fix walkList (dot : gjson.Result) (nodes : list parse.Node) {struct nodes}
        : Walk unit :=
      match nodes with
      | [] => wret tt
      | n :: rest => (walkNode walkRoot dot n ;;; walkList dot rest)%walk
      end in
  match node with
  | parse.ActionNode Pipe =>
      (* Do not pop variables so they persist until next end.
         Also, if the action declares variables, don't print the result. *)
      (val <- lift (evalPipeline dot Pipe) ;;
       match Pipe with
       | None => lift (runtime_panic "nil pointer dereference")
       | Some p =>
           if (len (parse.Decl p) =? 0)%Z then lift (printValue val)
           else wret tt
       end)%walk
  | parse.BreakNode => wpanic walkBreak
  | parse.CommentNode => wret tt
  | parse.ContinueNode => wpanic walkContinue
  | parse.IfNode Pipe List ElseList =>
      walkIfOrWith walkList NodeIf dot Pipe List ElseList
  | parse.ListNode Nodes => walkList dot Nodes
  | parse.RangeNode Pipe List ElseList =>
      walkRange walkList dot Pipe List ElseList
  | parse.TemplateNode Name_ Pipe => walkTemplate walkRoot dot Name_ Pipe
  | parse.TextNode Text => lift (write Text)
  | parse.WithNode Pipe List ElseList =>
      walkIfOrWith walkList NodeWith dot Pipe List ElseList
  | _ => lift (errorf "unknown node: %s" [ArgNode node])
  end.

(** [s.walk(dot, list)] on the nodes of a list node. *)
Definition walkNodes
    (walkRoot : gjson.Result -> option (list parse.Node) -> Walk unit)
    (dot : gjson.Result) (nodes : list parse.Node) : Walk unit :=
  walkNode walkRoot dot (parse.ListNode nodes).

(** [s.walk(dot, list)] for a [*ListNode]; a nil list is dereferenced. *)
Definition walkListNode
    (walkRoot : gjson.Result -> option (list parse.Node) -> Walk unit)
    (dot : gjson.Result) (list_ : option (list parse.Node)) : Walk unit :=
  match list_ with
  | Some nodes => walkNode walkRoot dot (parse.ListNode nodes)
  | None => lift (runtime_panic "nil pointer dereference")
  end.

(** The walker with a budget of nested template calls: a call made with
    no budget left gives no result. *)
Fixpoint walkRootWith (budget : nat) (dot : gjson.Result)
    (root : option (list parse.Node)) : Walk unit :=
  match budget with
  | O => fun _ => None
  | S b => walkListNode (walkRootWith b) dot root
  end.

Definition walk (budget : nat) : gjson.Result -> parse.Node -> Walk unit :=
  walkNode (walkRootWith budget).

(* --------------------------------------------------------------------- *)
(** *** Execute *)

(** The [error] values Execute can return: a plain fmt.Errorf value, an
    ExecError, or whatever error the sink reported. *)
Inductive error : Type :=
| ErrorfValue (format : string) (args : list fmtarg)
| ExecErrorValue (e : ExecError)
| SinkErrorValue (e : sink_error).

(** [errRecover] is the handler that turns panics into returns from the top
    level: given the recovered panic value, either the error stored through
    [errp] or the value it panics with again. *)
Definition errRecover (e : panic) : error + panic :=
  match e with
  | PanicRuntime _ => inr e
  | PanicWriteError err => inl (SinkErrorValue err)   (* Strip the wrapper. *)
  | PanicExecError err => inl (ExecErrorValue err)    (* Keep the wrapper. *)
  | _ => inr e
  end.

(** What a call of Execute comes to: it returns (with an error or nil) or a
    panic leaves it; either way the sink is in some state. *)
Inductive outcome : Type :=
| Returns (err : option error) (w : Writer)
| Panics (p : panic) (w : Writer).

(** [gjson.ParseBytes(data)] is [gjson.Parse(string(data))]. *)
Definition ParseBytes (data : string) : gjson.Result := Parse data.

(** The state execute starts from. *)
Definition initialState (t : Template) (w : Writer) (jsonResult : gjson.Result)
    : state :=
  {| tmpl := t; wr := w; jsonData := jsonResult;
     vars := [mkvariable "$" jsonResult];
     depth := 0;
     strictMode := false (* Default to non-strict mode *) |}.

(** What execute does once the data has been accepted. *)
Definition run (budget : nat) (t : Template) (jsonResult : gjson.Result)
    : Walk unit :=
  match Root t with
  | None => lift (errorf "%q is an incomplete or empty template" [ArgString (Name t)])
  | Some nodes => walk budget jsonResult (parse.ListNode nodes)
  end.

Definition execute_with (budget : nat) (t : Template) (w : Writer)
    (data : string) : option outcome :=
  (* Parse JSON data *)
  let jsonResult := ParseBytes data in
  if negb (gjson.IsObject jsonResult) && negb (gjson.IsArray jsonResult)
  then Some (Returns
               (Some (ErrorfValue "template: %s: data must be a valid JSON object or array"
                        [ArgString (Name t)])) w)
  else
    match run budget t jsonResult (initialState t w jsonResult) with
    | None => None
    | Some (Ret _ s) => Some (Returns None (wr s))
    | Some (Panic p s) =>
        match errRecover p with
        | inl err => Some (Returns (Some err) (wr s))
        | inr p' => Some (Panics p' (wr s))
        end
    end.

(** [t.execute(wr, data)]: the budget of nested template calls is
    maxExecDepth, which the depth check of walkTemplate never lets a run
    exceed (see [walk_total]). *)
Definition execute (t : Template) (w : Writer) (data : string) : option outcome :=
  execute_with (Z.to_nat maxExecDepth) t w data.

(** [t.Execute(wr, data)] *)
Definition Execute (t : Template) (w : Writer) (data : string) : option outcome :=
  execute t w data.

(* --------------------------------------------------------------------- *)
(** *** The other functions of exec.go *)

(** [t.ExecuteTemplate(wr, name, data)] applies the template associated
    with [t] that has the given name to the data. *)
Definition ExecuteTemplate (t : Template) (w : Writer) (name data : string)
    : option outcome :=
  match Lookup t name with
  | None =>
      Some (Returns
              (Some (ErrorfValue
                       "template: no template %q associated with template %q"
                       [ArgString name; ArgString (Name t)])) w)
  | Some tmpl => Execute tmpl w data
  end.

(** [doublePercent] returns the string with %'s replaced by %%, if
    necessary, so it can be used safely inside a Printf format string:
    [strings.ReplaceAll(str, "%", "%%")]. *)
Fixpoint doublePercent (str : string) : string :=
  match str with
  | EmptyString => EmptyString
  | String c rest =>
      if Ascii.eqb c "%"%char
      then String "%"%char (String "%"%char (doublePercent rest))
      else String c (doublePercent rest)
  end.

(** [evalField] evaluates an expression like (.Field) or (.Field arg1 arg2).
    The 'final' argument represents the return value from the preceding
    value of the pipeline, if any.  (No function of exec.go calls it.) *)
Definition evalField (dot : gjson.Result) (fieldName : string)
    (args : list parse.Node) (final receiver : gjson.Result) : Exec gjson.Result :=
  fun s =>
    if negb (gjson.Exists receiver) then
      if missingKey_is_error (missingKey (tmpl s))
      then (* Treat invalid value as missing map key. *)
        errorf "nil data; no entry for key %q" [ArgString fieldName] s
      else Ret gjson.zero s
    else
      (* Check if it's a method call with arguments *)
      let hasArgs := (1 <? len args)%Z || gjson.Exists final in
      if hasArgs
      then errorf "%s is not a method but has arguments" [ArgString fieldName] s
      else
        (* Use gjson's native Get method to retrieve the value *)
        let result := Get receiver fieldName in
        if negb (gjson.Exists result) then
          match missingKey (tmpl s) with
          | mapInvalid => Ret result s     (* Just use the invalid value. *)
          | mapZeroValue => Ret gjson.zero s         (* Return empty result *)
          | mapError => errorf "path %q not found in data" [ArgString fieldName] s
          end
        else Ret result s.

End Engine.

Arguments Ret {T A} a s.
Arguments Panic {T A} p s.

Notation "x <- m ;; k" := (bind m (fun x => k))
  (at level 100, m at next level, right associativity) : exec_scope.
Notation "m ;;; k" := (bind m (fun _ => k))
  (at level 100, right associativity) : exec_scope.
Notation "x <- m ;; k" := (wbind m (fun x => k))
  (at level 100, m at next level, right associativity) : walk_scope.
Notation "m ;;; k" := (wbind m (fun _ => k))
  (at level 100, right associativity) : walk_scope.

(* ===================================================================== *)
(** ** A sample instance of the externals *)
(* ===================================================================== *)

(** A small JSON store over a fixed set of documents, a bounded output
    buffer, and the fmt helpers on the inputs the examples use.  The
    general theorems below hold for every instance of [Externals]; this one
    serves to run the engine on concrete templates. *)
Module Sample.

#[local] Unset Elimination Schemes.
Inductive json : Type :=
| JNull
| JBool (b : bool)
| JNum (n : Z)
| JStr (s : string)
| JArr (l : list json)
| JObj (l : list (string * json)).
#[local] Set Elimination Schemes.

Definition digits (n : Z) : string := NilZero.string_of_int (Z.to_int n).

Definition number_of (s : string) : option Z :=
  match s with
  | EmptyString => None
  | _ => option_map Z.of_int (NilZero.int_of_string s)
  end.

(** The double quote. *)
Definition dquote : ascii := ascii_of_nat 34.

Definition quote (s : string) : string :=
  String dquote (String.append s (String dquote "")).

Definition float_of_Z (n : Z) : float :=
  if (n <? 0)%Z then PrimFloat.opp (PrimFloat.of_uint63 (Uint63.of_Z (- n)))
  else PrimFloat.of_uint63 (Uint63.of_Z n).

(** Compact JSON text. *)
Fixpoint render (j : json) : string :=
  match j with
  | JNull => "null"
  | JBool b => fmt_t b
  | JNum n => digits n
  | JStr s => quote s
  | JArr l =>
      String.append "["
        (String.append
           ((fix items (l : list json) : string :=
               match l with
               | [] => ""
               | [x] => render x
               | x :: rest => String.append (render x) (String.append "," (items rest))
               end) l) "]")
  | JObj l =>
      String.append "{"
        (String.append
           ((fix members (l : list (string * json)) : string :=
               match l with
               | [] => ""
               | [(k, v)] => String.append (quote k) (String.append ":" (render v))
               | (k, v) :: rest =>
                   String.append (quote k)
                     (String.append ":"
                        (String.append (render v) (String.append "," (members rest))))
               end) l) "}")
  end.

Definition toResult (j : json) : gjson.Result :=
  match j with
  | JNull => gjson.mkResult gjson.TNull "null" "" 0%float
  | JBool true => gjson.mkResult gjson.TTrue "true" "" 0%float
  | JBool false => gjson.mkResult gjson.TFalse "false" "" 0%float
  | JNum n => gjson.mkResult gjson.TNumber (digits n) "" (float_of_Z n)
  | JStr s => gjson.mkResult gjson.TString (quote s) s 0%float
  | JArr _ | JObj _ => gjson.mkResult gjson.TJSON (render j) "" 0%float
  end.

(** A value and everything inside it. *)
Fixpoint values (j : json) : list json :=
  j :: match j with
       | JArr l =>
           (fix go (l : list json) : list json :=
              match l with [] => [] | x :: rest => values x ++ go rest end) l
       | JObj l =>
           (fix go (l : list (string * json)) : list json :=
              match l with [] => [] | (_, v) :: rest => values v ++ go rest end) l
       | _ => []
       end.

(** The documents the store knows. *)
Definition documents : list json :=
  [ JObj [("Number", JNum 42); ("Bool", JBool true);
          ("Empty", JObj [("String", JStr ""); ("Array", JArr [])]);
          ("Array", JArr [JNum 1; JNum 2; JNum 3])];
    JObj [("Empty", JObj [("Array", JArr [])])];
    JNum 7 ].

Definition find_raw (raw : string) : option json :=
  List.find (fun j => String.eqb (render j) raw) (flat_map values documents).

(** Splits a path at its dots. *)
Fixpoint split_path (p : string) (cur : string) : list string :=
  match p with
  | EmptyString => [cur]
  | String c rest =>
      if Ascii.eqb c "."%char then cur :: split_path rest ""
      else split_path rest (String.append cur (String c ""))
  end.

Definition member (j : json) (key : string) : option json :=
  match j with
  | JObj l => option_map snd (List.find (fun kv => String.eqb (fst kv) key) l)
  | JArr l =>
      match number_of key with
      | Some i => if (i <? 0)%Z then None else nth_error l (Z.to_nat i)
      | None => None
      end
  | _ => None
  end.

Fixpoint navigate (j : json) (keys : list string) : option json :=
  match keys with
  | [] => Some j
  | k :: rest =>
      match member j k with
      | Some j' => navigate j' rest
      | None => None
      end
  end.

Definition get (r : gjson.Result) (path : string) : gjson.Result :=
  match find_raw (gjson.Raw r) with
  | Some j =>
      match navigate j (split_path path "") with
      | Some j' => toResult j'
      | None => gjson.zero
      end
  | None => gjson.zero
  end.

Definition array (r : gjson.Result) : list gjson.Result :=
  match find_raw (gjson.Raw r) with
  | Some (JArr l) => map toResult l
  | _ => []
  end.

Definition forEach (r : gjson.Result) : list (gjson.Result * gjson.Result) :=
  match find_raw (gjson.Raw r) with
  | Some (JObj l) => map (fun kv => (toResult (JStr (fst kv)), toResult (snd kv))) l
  | _ => []
  end.

Definition unquote (s : string) : string :=
  String.substring 1 (String.length s - 2) s.

Definition parse_text (text : string) : gjson.Result :=
  match text with
  | EmptyString => gjson.zero
  | String c _ =>
      if Ascii.eqb c "{"%char || Ascii.eqb c "["%char
      then gjson.mkResult gjson.TJSON text "" 0%float
      else if Ascii.eqb c dquote
      then gjson.mkResult gjson.TString text (unquote text) 0%float
      else if String.eqb text "true" then toResult (JBool true)
      else if String.eqb text "false" then toResult (JBool false)
      else if String.eqb text "null" then toResult JNull
      else
        match number_of text with
        | Some n => gjson.mkResult gjson.TNumber text "" (float_of_Z n)
        | None => gjson.zero
        end
  end.

Definition int_of (r : gjson.Result) : Z :=
  match gjson.Typ r with
  | gjson.TNumber => match number_of (gjson.Raw r) with Some n => n | None => 0%Z end
  | gjson.TTrue => 1%Z
  | _ => 0%Z
  end.

Fixpoint runes_from (s : string) (i : Z) : list (Z * string) :=
  match s with
  | EmptyString => []
  | String c rest => (i, String c "") :: runes_from rest (i + 1)
  end.

(** The output buffer: what was written and how many bytes still fit. *)
Record buffer : Type := mkbuffer { written : string; room : nat }.

Definition write_buffer (w : buffer) (text : string) : buffer * option string :=
  if Nat.leb (String.length text) (room w)
  then (mkbuffer (String.append (written w) text) (room w - String.length text), None)
  else (w, Some "short write").

#[global] Instance types : SinkTypes := {|
  Writer := buffer;
  sink_error := string;
|}.

#[global] Instance externals : Externals := {|
  Write := write_buffer;
  Parse := parse_text;
  Get := get;
  Array := array;
  ForEach := forEach;
  Int := int_of;
  Bool_ := fun r => gjson.Type_eqb (gjson.Typ r) gjson.TTrue;
  Float_ := gjson.Num;
  Value := fun r => GoString (gjson.Raw r);
  FormatFloat := fun _ => "";
  ParseFloat := fun s => option_map float_of_Z (number_of s);
  fmt_q := quote;
  fmt_d := digits;
  fmt_f := fun _ => "";
  Sprintf := fun format _ => format;
  Sprint := fun _ => "";
  int64_of_float := fun _ => 0%Z;
  float_of_int64 := float_of_Z;
  Runes := fun s => runes_from s 0;
  HTMLEscape := fun s => s;
  JSEscape := fun s => s;
  QueryEscape := fun s => s;
  callFunction := fun _ => None;
  GOARCH := "wasm";
|}.

(** The same externals with registered functions: [fns] is what
    findFunction finds. *)
Definition with_functions
    (fns : string -> option (list goValue -> goValue + string)) : Externals := {|
  Write := write_buffer;
  Parse := parse_text;
  Get := get;
  Array := array;
  ForEach := forEach;
  Int := int_of;
  Bool_ := fun r => gjson.Type_eqb (gjson.Typ r) gjson.TTrue;
  Float_ := gjson.Num;
  Value := fun r => GoString (gjson.Raw r);
  FormatFloat := fun _ => "";
  ParseFloat := fun s => option_map float_of_Z (number_of s);
  fmt_q := quote;
  fmt_d := digits;
  fmt_f := fun _ => "";
  Sprintf := fun format _ => format;
  Sprint := fun _ => "";
  int64_of_float := fun _ => 0%Z;
  float_of_int64 := float_of_Z;
  Runes := fun s => runes_from s 0;
  HTMLEscape := fun s => s;
  JSEscape := fun s => s;
  QueryEscape := fun s => s;
  callFunction := fns;
  GOARCH := "wasm";
|}.

(** A function map with one function, "shout", which takes anything and
    returns a string. *)
Definition functions (name : string)
    : option (list goValue -> goValue + string) :=
  if String.eqb name "shout" then Some (fun _ => inl (GoString "HEY")) else None.

End Sample.

(** Concrete values, templates and states the engine is run on below, all
    over the sample externals. *)
Module Examples.
Import parse.

(** JSON values as the sample store hands them out. *)
Definition v_null : gjson.Result := Sample.toResult Sample.JNull.
Definition v_false : gjson.Result := Sample.toResult (Sample.JBool false).
Definition v_true : gjson.Result := Sample.toResult (Sample.JBool true).
Definition v_42 : gjson.Result := Sample.toResult (Sample.JNum 42).
Definition v_0 : gjson.Result := Sample.toResult (Sample.JNum 0).
Definition v_hello : gjson.Result := Sample.toResult (Sample.JStr "hello").
Definition v_empty_string : gjson.Result := Sample.toResult (Sample.JStr "").
Definition v_empty_array : gjson.Result := Sample.toResult (Sample.JArr []).
Definition v_array : gjson.Result :=
  Sample.toResult (Sample.JArr [Sample.JNum 1; Sample.JNum 2; Sample.JNum 3]).

(** The first sample document, and the value the store parses it to. *)
Definition doc : string := Sample.render (hd Sample.JNull Sample.documents).
Definition dot0 : gjson.Result := ParseBytes doc.

Definition plain (root : list Node) : Template :=
  {| Name := "t"; Root := Some root; missingKey := mapInvalid;
     common := ∅ |}.

(** An empty output buffer with room for [n] bytes. *)
Definition buffer (n : nat) : Writer := Sample.mkbuffer "" n.

(** The state execute starts the template [plain []] from, with room for
    100 bytes of output. *)
Definition state0 : state := initialState (plain []) (buffer 100) dot0.

Definition cmd (words : list Node) : CommandNode := mkCommandNode words.
Definition pipe (words : list Node) : PipeNode := mkPipeNode false [] [cmd words].
Definition declare_x (words : list Node) : PipeNode :=
  mkPipeNode false [mkVariableNode ["$x"]] [cmd words].
Definition var_x : Node := VariableNode_ (mkVariableNode ["$x"]).
Definition str42 : Node := StringNode (Sample.quote "42") "42".

(** The second sample document: Empty has an Array but no String. *)
Definition doc1 : string := Sample.render (nth 1 Sample.documents Sample.JNull).
Definition dot1 : gjson.Result := ParseBytes doc1.

Definition and_command : CommandNode :=
  cmd [IdentifierNode "and"; FieldNode ["Bool"]; FieldNode ["Empty"; "String"]].
Definition or_command : CommandNode :=
  cmd [IdentifierNode "or"; FieldNode ["Empty"; "String"];
       FieldNode ["Empty"; "Array"]].

(** [{{$x := .Number}}] and [{{.Number}}] *)
Definition declaring_action : Node := ActionNode (Some (declare_x [FieldNode ["Number"]])).
Definition printing_action : Node := ActionNode (Some (pipe [FieldNode ["Number"]])).

(** A template set with a sub-template "sub" that writes a text, and the
    state execute starts its main template from. *)
Definition registry : gmap string TemplateEntry :=
  {[ "sub" := mkTemplateEntry (Some [TextNode "in sub"]) mapInvalid ]}.
Definition main : Template :=
  {| Name := "main"; Root := Some []; missingKey := mapInvalid;
     common := registry |}.
Definition main_state : state := initialState main (buffer 100) dot0.

(** [{{template "sub" $x := .Number}}] *)
Definition call_declaring : Node :=
  TemplateNode "sub" (Some (declare_x [FieldNode ["Number"]])).

(** [{{if $x := .Number}}{{$x}}{{end}}], the same with [with] and
    [{{range $x := .Array}}{{$x}}{{break}}{{end}}] *)
Definition if_declaring : Node :=
  IfNode (Some (declare_x [FieldNode ["Number"]]))
    [ActionNode (Some (pipe [var_x]))] None.
Definition with_declaring : Node :=
  WithNode (Some (declare_x [FieldNode ["Number"]]))
    [ActionNode (Some (pipe [var_x]))] None.
Definition range_declaring : Node :=
  RangeNode (Some (declare_x [FieldNode ["Array"]]))
    [ActionNode (Some (pipe [var_x])); BreakNode] None.

(** The walker for lists of nodes, with a budget of one nested call. *)
Definition walkList1 : gjson.Result -> list Node -> Walk unit :=
  walkNodes (walkRootWith 1).

(** The pipeline and the bodies of [{{range .Array}}{{.}}...,{{end}}], where
    ... is [{{continue}}], [{{break}}] or a call of a template that does
    not exist. *)
Definition array_pipe : option PipeNode := Some (pipe [FieldNode ["Array"]]).
Definition print_dot : Node := ActionNode (Some (pipe [DotNode])).
Definition body_continue : list Node := [print_dot; ContinueNode; TextNode ","].
Definition body_break : list Node := [print_dot; BreakNode; TextNode ","].
Definition body_fault : list Node :=
  [print_dot; TemplateNode "nope" None; TextNode ","].

(** A template set whose template "T" calls itself:
    [{{define "T"}}{{template "T"}}{{end}}{{template "T"}}]. *)
Definition call_T : Node := TemplateNode "T" None.
Definition recursive : Template :=
  {| Name := "main"; Root := Some [call_T]; missingKey := mapInvalid;
     common := {[ "T" := mkTemplateEntry (Some [call_T]) mapInvalid ]} |}.

(** A template that writes a text, and one that calls a template that is
    not defined. *)
Definition hello : Template := plain [TextNode "hello"].

(** More values of the first sample document. *)
Definition v_1 : gjson.Result := Sample.toResult (Sample.JNum 1).
Definition v_2 : gjson.Result := Sample.toResult (Sample.JNum 2).

(** [$i, $e := .Array], the pipeline of a range over two variables. *)
Definition index_and_element : PipeNode :=
  mkPipeNode false [mkVariableNode ["$i"]; mkVariableNode ["$e"]]
    [cmd [FieldNode ["Array"]]].

(** [{{.Nope}}], a field the sample documents do not have. *)
Definition missing_action : Node := ActionNode (Some (pipe [FieldNode ["Nope"]])).

(** A template with the option mapZeroValue: [{{.Nope}}.] *)
Definition lenient : Template :=
  {| Name := "t"; Root := Some [missing_action; TextNode "."];
     missingKey := mapZeroValue; common := ∅ |}.

(* examples-end *)
End Examples.

(* ===================================================================== *)
(** ** Predicates used to state the properties of the engine *)
(* ===================================================================== *)

Module parse_ind.
Import parse.

(** The nodes without sub-nodes. *)
Definition is_leaf (n : Node) : bool :=
  match n with
  | BoolNode _ | BreakNode | CommentNode | ContinueNode | DotNode
  | FieldNode _ | IdentifierNode _ | NilNode | NumberNode_ _
  | StringNode _ _ | TextNode _ | VariableNode_ _ => true
  | _ => false
  end.

Section Principle.

Variable P : Node -> Prop.
Variable Q : PipeNode -> Prop.
Variable R : CommandNode -> Prop.

Definition OptQ (p : option PipeNode) : Prop :=
  match p with Some q => Q q | None => True end.

Definition OptForall (e : option (list Node)) : Prop :=
  match e with Some l => Forall P l | None => True end.

Hypothesis H_leaf : forall n, is_leaf n = true -> P n.
Hypothesis H_Action : forall p, OptQ p -> P (ActionNode p).
Hypothesis H_Chain : forall n f, P n -> P (ChainNode n f).
Hypothesis H_Command : forall c, R c -> P (CommandNode_ c).
Hypothesis H_If : forall p l e,
  OptQ p -> Forall P l -> OptForall e -> P (IfNode p l e).
Hypothesis H_List : forall l, Forall P l -> P (ListNode l).
Hypothesis H_Pipe : forall p, Q p -> P (PipeNode_ p).
Hypothesis H_Range : forall p l e,
  OptQ p -> Forall P l -> OptForall e -> P (RangeNode p l e).
Hypothesis H_Template : forall n p, OptQ p -> P (TemplateNode n p).
Hypothesis H_With : forall p l e,
  OptQ p -> Forall P l -> OptForall e -> P (WithNode p l e).
Hypothesis H_mkPipe : forall a d c, Forall R c -> Q (mkPipeNode a d c).
Hypothesis H_mkCommand : forall args, Forall P args -> R (mkCommandNode args).

(** Induction over nodes, pipes and commands at once. *)
Fixpoint Node_mut (n : Node) {struct n} : P n :=
  let nodes :=
    fix nodes (l : list Node) : Forall P l :=
      match l with
      | [] => @Stdlib.Lists.List.Forall_nil _ P
      | x :: rest => @Stdlib.Lists.List.Forall_cons _ P x rest (Node_mut x) (nodes rest)
      end in
  let opt_nodes := fun e : option (list Node) =>
    match e return OptForall e with
    | Some l => nodes l
    | None => I
    end in
  let opt_pipe := fun p : option PipeNode =>
    match p return OptQ p with
    | Some q => PipeNode_mut q
    | None => I
    end in
  match n return P n with
  | ActionNode p => H_Action p (opt_pipe p)
  | ChainNode n' f => H_Chain n' f (Node_mut n')
  | CommandNode_ c => H_Command c (CommandNode_mut c)
  | IfNode p l e => H_If p l e (opt_pipe p) (nodes l) (opt_nodes e)
  | ListNode l => H_List l (nodes l)
  | PipeNode_ p => H_Pipe p (PipeNode_mut p)
  | RangeNode p l e => H_Range p l e (opt_pipe p) (nodes l) (opt_nodes e)
  | TemplateNode nm p => H_Template nm p (opt_pipe p)
  | WithNode p l e => H_With p l e (opt_pipe p) (nodes l) (opt_nodes e)
  | BoolNode b => H_leaf (BoolNode b) eq_refl
  | BreakNode => H_leaf BreakNode eq_refl
  | CommentNode => H_leaf CommentNode eq_refl
  | ContinueNode => H_leaf ContinueNode eq_refl
  | DotNode => H_leaf DotNode eq_refl
  | FieldNode i => H_leaf (FieldNode i) eq_refl
  | IdentifierNode i => H_leaf (IdentifierNode i) eq_refl
  | NilNode => H_leaf NilNode eq_refl
  | NumberNode_ c => H_leaf (NumberNode_ c) eq_refl
  | StringNode q t => H_leaf (StringNode q t) eq_refl
  | TextNode t => H_leaf (TextNode t) eq_refl
  | VariableNode_ v => H_leaf (VariableNode_ v) eq_refl
  end
with PipeNode_mut (p : PipeNode) {struct p} : Q p :=
  match p return Q p with
  | mkPipeNode a d c =>
      H_mkPipe a d c
        ((fix cmds (l : list CommandNode) : Forall R l :=
            match l with
            | [] => @Stdlib.Lists.List.Forall_nil _ R
            | x :: rest => @Stdlib.Lists.List.Forall_cons _ R x rest (CommandNode_mut x) (cmds rest)
            end) c)
  end
with CommandNode_mut (c : CommandNode) {struct c} : R c :=
  match c return R c with
  | mkCommandNode args =>
      H_mkCommand args
        ((fix nodes (l : list Node) : Forall P l :=
            match l with
            | [] => @Stdlib.Lists.List.Forall_nil _ P
            | x :: rest => @Stdlib.Lists.List.Forall_cons _ P x rest (Node_mut x) (nodes rest)
            end) args)
  end.

End Principle.

End parse_ind.

Section Frame.

Context {T : SinkTypes} {Ext : Externals}.

(** The names on the variable stack, bottom first. *)
Definition names (s : state) : list string := name <$> vars s.

(** [s'] extends [s]: same template, depth and data, and the variable stack
    of [s] is still there, name by name, below whatever [s'] has on top. *)
Record ext (s s' : state) : Prop := mk_ext {
  ext_tmpl : tmpl s' = tmpl s;
  ext_depth : depth s' = depth s;
  ext_jsonData : jsonData s' = jsonData s;
  ext_strictMode : strictMode s' = strictMode s;
  ext_names : names s `prefix_of` names s';
}.

(** [s'] extends [s] and nothing was written in between. *)
Definition quiet (s s' : state) : Prop := ext s s' /\ wr s' = wr s.

(** [s'] has exactly the variables of [s], name by name. *)
Definition same_scope (s s' : state) : Prop := ext s s' /\ names s' = names s.

(** Faults, as opposed to loop signals and write errors. *)
Definition is_fault (p : panic) : bool :=
  match p with
  | PanicExecError _ | PanicRuntime _ => true
  | _ => false
  end.

(** A result that, when it is a panic, is a fault, an ExecError carrying
    the name of the template being executed. *)
Definition fault_only {A} (r : result A) : Prop :=
  match r with
  | Panic p s =>
      is_fault p = true
      /\ forall e, p = PanicExecError e -> ErrName e = Name (tmpl s)
  | Ret _ _ => True
  end.

(** An evaluation that only extends the state, writes nothing and panics
    with faults only. *)
Definition frames {A} (m : Exec A) : Prop :=
  forall s, quiet s (state_of (m s)) /\ fault_only (m s).

(** An evaluation that leaves the scope as it is. *)
Definition keeps {A} (m : Exec A) : Prop :=
  forall s, same_scope s (state_of (m s)).

(** A walk that only extends the state. *)
Definition wframes {A} (m : Walk A) : Prop :=
  forall s r, m s = Some r -> ext s (state_of r).

(** The statement proved of a node: its evaluation as an argument frames,
    and so does the evaluation of the node a chain starts from. *)
Definition evalArg_frames_at (n : parse.Node) : Prop :=
  (forall dot, frames (evalArg dot n))
  /\ match n with
     | parse.ChainNode n' _ => forall dot, frames (evalArg dot n')
     | _ => True
     end.
Definition evalPipe_frames_at (p : parse.PipeNode) : Prop :=
  forall dot, frames (evalPipe dot p).
Definition evalCommand_frames_at (c : parse.CommandNode) : Prop :=
  forall dot final, frames (evalCommand dot c final).

(** The statement proved of a node by induction: its walk only extends
    the state. *)
Definition walkNode_frames_at
    (walkRoot : gjson.Result -> option (list parse.Node) -> Walk unit)
    (n : parse.Node) : Prop :=
  forall dot, wframes (walkNode walkRoot dot n).

(** The variable a declaration pushes. *)
Definition pushed (val : gjson.Result) (d : parse.VariableNode) : variable :=
  mkvariable (hd "" (parse.Ident d)) val.

(** The error errorf raises at the depth ceiling. *)
Definition depthExceeded (tname : string) : ExecError :=
  {| ErrName := tname;
     ErrFormat := "exceeded maximum template depth (%v)";
     ErrArgs := [ArgInt maxExecDepth] |}.

(** [x] is resolvable in [s]: varValue finds a variable of that name. *)
Definition resolvable (x : string) (s : state) : Prop :=
  exists v, varValue x s = Ret v s.

(** A value that counts as true, and one that counts as false. *)
Definition truthy (v : gjson.Result) : Prop := isGjsonTrue v = (true, true).
Definition falsy (v : gjson.Result) : Prop := isGjsonTrue v = (false, true).

(** [runs_to argv s vs s']: run one after the other from [s], the
    evaluations [argv] return the values [vs] and leave the state [s']. *)
Inductive runs_to : list (Exec gjson.Result) -> state -> list gjson.Result
                    -> state -> Prop :=
| runs_nil s : runs_to [] s [] s
| runs_cons a rest s v s1 vs s2 :
    a s = Ret v s1 -> runs_to rest s1 vs s2 ->
    runs_to (a :: rest) s (v :: vs) s2.

(** [s'] executes the template of [s] at the depth of [s]. *)
Definition stays (s s' : state) : Prop :=
  tmpl s' = tmpl s /\ depth s' = depth s.

Definition wstays {A} (m : Walk A) : Prop :=
  forall s r, m s = Some r -> stays s (state_of r).

Section Good.

(** The template Execute was called on. *)
Variable top : Template.

(** The state executes [top] or a template of its registry. *)
Definition known (s : state) : Prop :=
  common (tmpl s) = common top
  /\ (Name (tmpl s) = Name top \/ is_Some (common top !! Name (tmpl s))).

(** The state executes a known template at a depth between [D] and the
    ceiling. *)
Definition within (D : Z) (s : state) : Prop :=
  known s /\ (D <= depth s <= maxExecDepth)%Z.

(** A panic that is what it says: a write error carries an error some
    write on the sink reported, an ExecError carries the name of [top] or
    of a template of its registry. *)
Definition genuine (p : panic) : Prop :=
  match p with
  | PanicWriteError e => exists w text w', Write w text = (w', Some e)
  | PanicExecError x =>
      ErrName x = Name top \/ is_Some (common top !! ErrName x)
  | _ => True
  end.

Definition genuine_result {A} (r : result A) : Prop :=
  match r with
  | Panic p _ => genuine p
  | Ret _ _ => True
  end.

(** A walk that, from a state within the depth bounds, comes to a result,
    with genuine panics only. *)
Definition wgood (D : Z) {A} (m : Walk A) : Prop :=
  forall s, within D s -> exists r, m s = Some r /\ genuine_result r.

(** The statement proved of a node by induction: its walk is good. *)
Definition walkNode_good_at (D : Z)
    (walkRoot : gjson.Result -> option (list parse.Node) -> Walk unit)
    (n : parse.Node) : Prop :=
  forall dot, wgood D (walkNode walkRoot dot n).

End Good.

(** *** What the further properties are stated with *)

(** What a call comes to, leaving the state aside: the value returned or the
    value it panics with. *)
Definition outcome_of {A} (r : result A) : A + panic :=
  match r with Ret a _ => inl a | Panic p _ => inr p end.

(** The names evalFunction handles itself, before it looks a function up. *)
Definition builtin_names : list string :=
  ["gjson"; "len"; "index"; "print"; "println"; "and"; "or"; "not";
   "eq"; "ne"; "lt"; "le"; "gt"; "ge"; "html"; "js"; "urlquery";
   "printf"; "sprintf"].

(** A command has arguments when words follow the first one or a value is
    piped in: [len(args) > 1 || final.Exists()]. *)
Definition has_arguments (args : list parse.Node) (final : gjson.Result) : bool :=
  (1 <? len args)%Z || gjson.Exists final.

(** The first words that stand for a value of their own. *)
Definition is_constant (n : parse.Node) : bool :=
  match n with
  | parse.BoolNode _ | parse.DotNode | parse.NumberNode_ _ => true
  | parse.StringNode _ Text => negb (backticked Text)
  | _ => false
  end.

(** A path between back quotes. *)
Definition backquote (path : string) : string :=
  String "`"%char (String.append path (String "`"%char EmptyString)).

(** [{{print f}}] *)
Definition print_of (f : string) : parse.Node :=
  parse.ActionNode (Some (parse.mkPipeNode false []
    [parse.mkCommandNode [parse.IdentifierNode "print"; parse.IdentifierNode f]])).

(** The data Execute accepts. *)
Definition accepted (data : string) : Prop :=
  gjson.IsObject (ParseBytes data) = true \/ gjson.IsArray (ParseBytes data) = true.

(** The values walkRange finds nothing to iterate over in: an array without
    elements, the object [{}], a number that is not positive, the empty
    string. *)
Definition empty_range (val : gjson.Result) : bool :=
  if gjson.IsArray val then
    match Array val with [] => true | _ => false end
  else if gjson.IsObject val then
    negb (gjson.Exists val) || String.eqb (gjson.Raw val) "{}"
  else if is_Number val then (Int val <=? 0)%Z
  else if is_String val then String.eqb (String_ val) ""
  else false.

(** The values walkRange iterates over. *)
Definition iterable (val : gjson.Result) : bool :=
  gjson.IsArray val || gjson.IsObject val || is_Number val || is_String val.

(** The number of iterations walkRange makes over a value. *)
Definition iterations (val : gjson.Result) : nat :=
  if gjson.IsArray val then length (Array val)
  else if gjson.IsObject val then length (ForEach val)
  else if is_Number val then Z.to_nat (Int val)
  else if is_String val then length (Runes (String_ val))
  else 0%nat.

(** Writes one after the other, up to the first one the sink refuses. *)
Fixpoint writeAll (w : Writer) (texts : list string) : Writer * option sink_error :=
  match texts with
  | [] => (w, None)
  | text :: rest =>
      match Write w text with
      | (w', None) => writeAll w' rest
      | (w', Some err) => (w', Some err)
      end
  end.

(** The outcome of a walk that made the writes [texts] from [s] and nothing
    else. *)
Definition wrote (s : state) (texts : list string) : option (result unit) :=
  match writeAll (wr s) texts with
  | (w, None) => Some (Ret tt (set_wr s w))
  | (w, Some err) => Some (Panic (PanicWriteError err) (set_wr s w))
  end.

(** The error of the sink a result carries, if it is a write error. *)
Definition sink_error_of {A} (r : result A) : option sink_error :=
  match r with
  | Panic (PanicWriteError err) _ => Some err
  | _ => None
  end.

(** From [s] to the result [r] the sink was written to and nothing else
    happened to it: some texts, written one after the other, take the sink
    of [s] to the sink of [r]; every write was accepted, except that a
    write error is the refusal of the last one. *)
Definition traced (s : state) {A} (r : result A) : Prop :=
  exists texts, writeAll (wr s) texts = (wr (state_of r), sink_error_of r).

Definition wtraces {A} (m : Walk A) : Prop :=
  forall s r, m s = Some r -> traced s r.

Definition walkNode_traces_at
    (walkRoot : gjson.Result -> option (list parse.Node) -> Walk unit)
    (n : parse.Node) : Prop :=
  forall dot, wtraces (walkNode walkRoot dot n).

(** The text a Printf format without verbs stands for: [%%] is one [%];
    a [%] followed by anything else starts a verb, and then there is no
    such text. *)
Fixpoint literal_format (format : string) : option string :=
  match format with
  | EmptyString => Some EmptyString
  | String c rest =>
      if Ascii.eqb c "%"%char then
        match rest with
        | String c' rest' =>
            if Ascii.eqb c' "%"%char
            then option_map (String "%"%char) (literal_format rest')
            else None
        | EmptyString => None
        end
      else option_map (String c) (literal_format rest)
  end.

(** [{{.}}] *)
Definition dot_action : parse.Node :=
  parse.ActionNode (Some (parse.mkPipeNode false []
    [parse.mkCommandNode [parse.DotNode]])).

(** A block's way out: the variables above the mark are popped, whether the
    body returned or panicked. *)
Definition leave (mark : nat) (r : result unit) : result unit :=
  match r with
  | Ret a s => Ret a (pop mark s)
  | Panic p s => Panic p (pop mark s)
  end.

(** A template set with another missing-key option: every template gets
    the option [f] makes of its own. *)
Definition retarget_entry (f : missingKeyAction -> missingKeyAction)
    (e : TemplateEntry) : TemplateEntry :=
  mkTemplateEntry (entry_Root e) (f (entry_missingKey e)).

Definition retarget (f : missingKeyAction -> missingKeyAction) (t : Template)
    : Template :=
  {| Name := Name t; Root := Root t; missingKey := f (missingKey t);
     common := retarget_entry f <$> common t |}.

Definition retarget_state (f : missingKeyAction -> missingKeyAction)
    (s : state) : state :=
  {| tmpl := retarget f (tmpl s); wr := wr s; vars := vars s;
     depth := depth s; jsonData := jsonData s; strictMode := strictMode s |}.

Definition retarget_result (f : missingKeyAction -> missingKeyAction)
    {A} (r : result A) : result A :=
  match r with
  | Ret a s => Ret a (retarget_state f s)
  | Panic p s => Panic p (retarget_state f s)
  end.

(** An evaluation that does the same under either option. *)
Definition blind (f : missingKeyAction -> missingKeyAction)
    {A} (m : Exec A) : Prop :=
  forall s, m (retarget_state f s) = retarget_result f (m s).

Definition wblind (f : missingKeyAction -> missingKeyAction)
    {A} (m : Walk A) : Prop :=
  forall s, m (retarget_state f s) = option_map (retarget_result f) (m s).

Definition evalArg_blind_at (f : missingKeyAction -> missingKeyAction)
    (n : parse.Node) : Prop :=
  (forall dot, blind f (evalArg dot n))
  /\ match n with
     | parse.ChainNode n' _ => forall dot, blind f (evalArg dot n')
     | _ => True
     end.
Definition evalPipe_blind_at (f : missingKeyAction -> missingKeyAction)
    (p : parse.PipeNode) : Prop :=
  forall dot, blind f (evalPipe dot p).
Definition evalCommand_blind_at (f : missingKeyAction -> missingKeyAction)
    (c : parse.CommandNode) : Prop :=
  forall dot final, blind f (evalCommand dot c final).
Definition walkNode_blind_at (f : missingKeyAction -> missingKeyAction)
    (walkRoot : gjson.Result -> option (list parse.Node) -> Walk unit)
    (n : parse.Node) : Prop :=
  forall dot, wblind f (walkNode walkRoot dot n).

(** The option that turns mapZeroValue into the default. *)
Definition zero_as_default (m : missingKeyAction) : missingKeyAction :=
  match m with mapZeroValue => mapInvalid | _ => m end.

(** The index and the element walkRange passes to oneIteration in each
    iteration over a value, in the order of the iterations: the positions
    and elements of an array, the keys and values of an object, [i] and
    [i] for a number, the byte offsets and runes of a string. *)
Fixpoint arrayRounds (elems : list gjson.Result) (i : Z)
    : list (gjson.Result * gjson.Result) :=
  match elems with
  | [] => []
  | elem :: rest => (Parse (fmt_d i), elem) :: arrayRounds rest (i + 1)
  end.

Fixpoint countRounds (todo : nat) (i : Z) : list (gjson.Result * gjson.Result) :=
  match todo with
  | O => []
  | S todo' => (Parse (fmt_d i), Parse (fmt_d i)) :: countRounds todo' (i + 1)
  end.

Definition runeRounds (runes : list (Z * string))
    : list (gjson.Result * gjson.Result) :=
  map (fun ir => (Parse (fmt_d (fst ir)), Parse (fmt_q (snd ir)))) runes.

Definition rounds (val : gjson.Result) : list (gjson.Result * gjson.Result) :=
  if gjson.IsArray val then arrayRounds (Array val) 0
  else if gjson.IsObject val then ForEach val
  else if is_Number val then countRounds (Z.to_nat (Int val)) 0
  else if is_String val then runeRounds (Runes (String_ val))
  else [].

(** Iterations made one after the other: each starts in the state the one
    before returned in, and a panic of one ends them all. *)
Fixpoint iterate (one : gjson.Result -> gjson.Result -> Walk unit)
    (todo : list (gjson.Result * gjson.Result)) : Walk unit :=
  match todo with
  | [] => wret tt
  | (index, elem) :: rest => (one index elem ;;; iterate one rest)%walk
  end.

(** [($x)]: the variable between parentheses, a pipeline of the one
    command [$x]. *)
Definition parenthesised (x : string) : parse.Node :=
  parse.PipeNode_
    (parse.mkPipeNode false []
       [parse.mkCommandNode [parse.VariableNode_ (parse.mkVariableNode [x])]]).

End Frame.

Section FrameLemmas.

Context {T : SinkTypes} {Ext : Externals}.

Lemma ext_refl s : ext s s.
Proof. split; reflexivity. Qed.

Lemma ext_trans s1 s2 s3 : ext s1 s2 -> ext s2 s3 -> ext s1 s3.
Proof.
  intros [] []; split; try congruence.
  etransitivity; eassumption.
Qed.

Lemma quiet_refl s : quiet s s.
Proof. split; [apply ext_refl | reflexivity]. Qed.

Lemma quiet_trans s1 s2 s3 : quiet s1 s2 -> quiet s2 s3 -> quiet s1 s3.
Proof.
  intros [H1 W1] [H2 W2]; split; [eapply ext_trans; eassumption | congruence].
Qed.

Lemma ext_length s s' : ext s s' -> (length (vars s) <= length (vars s'))%nat.
Proof.
  intros [_ _ _ _ H]. apply prefix_length in H.
  unfold names in H. by rewrite !length_fmap in H.
Qed.

Lemma frames_ret {A} (a : A) : frames (ret a).
Proof. intros s; split; [apply quiet_refl | exact I]. Qed.

Lemma frames_errorf {A} f args : frames (@errorf _ A f args).
Proof.
  intros s; split; [apply quiet_refl|].
  split; [reflexivity | by intros e [= <-]].
Qed.

Lemma frames_runtime_panic {A} what : frames (@runtime_panic _ A what).
Proof. intros s; split; [apply quiet_refl|]. split; [reflexivity | discriminate]. Qed.

Lemma frames_bind {A B} (m : Exec A) (k : A -> Exec B) :
  frames m -> (forall a, frames (k a)) -> frames (bind m k).
Proof.
  intros Hm Hk s. unfold bind. specialize (Hm s).
  destruct (m s) as [a s'|p s']; simpl in *; [|exact Hm].
  destruct Hm as [Hq _]. destruct (Hk a s') as [Hq' Hf].
  split; [eapply quiet_trans; eassumption | exact Hf].
Qed.

Lemma frames_strict : frames strict.
Proof. intros s; split; [apply quiet_refl | exact I]. Qed.

Lemma frames_push x v : frames (push x v).
Proof.
  intros s; split; [|exact I]. split; [|reflexivity].
  split; try reflexivity. unfold names; simpl.
  rewrite fmap_app. by apply prefix_app_r.
Qed.

Lemma findVar_Some vs x i j :
  findVar vs x i = Some j ->
  (j < i)%nat /\ exists v, vs !! j = Some v /\ name v = x.
Proof.
  induction i as [|i IH]; simpl; [discriminate|].
  destruct (vs !! i) as [v|] eqn:E.
  - destruct (String.eqb (name v) x) eqn:Eq.
    + intros [= <-]. split; [lia|]. exists v. split; [done|].
      by apply String.eqb_eq.
    + intros H. destruct (IH H) as [? ?]. split; [lia | done].
  - intros H. destruct (IH H) as [? ?]. split; [lia | done].
Qed.

Lemma names_insert_same (vs : list variable) (j : nat) v w :
  vs !! j = Some v -> name w = name v ->
  name <$> <[j := w]> vs = name <$> vs.
Proof.
  intros Hj Hn. rewrite list_fmap_insert. apply list_insert_id.
  by rewrite list_lookup_fmap, Hj, Hn.
Qed.

Lemma frames_setVar x v : frames (setVar x v).
Proof.
  intros s. unfold setVar.
  destruct (findVar (vars s) x (mark s)) as [j|] eqn:E.
  - split; [|exact I]. split; [|reflexivity].
    apply findVar_Some in E as [_ (w & Hw & Hn)].
    split; try reflexivity. unfold names; simpl.
    by erewrite names_insert_same.
  - apply frames_errorf.
Qed.

Lemma frames_setTopVar n v : frames (setTopVar n v).
Proof.
  intros s. unfold setTopVar.
  destruct n as [|n]; [apply frames_runtime_panic|].
  destruct (Nat.ltb _ _); [apply frames_runtime_panic|].
  destruct (vars s !! _) as [w|] eqn:E; [|apply frames_runtime_panic].
  split; [|exact I]. split; [|reflexivity].
  split; try reflexivity. unfold names; simpl.
  by erewrite names_insert_same.
Qed.

Lemma frames_varValue x : frames (varValue x).
Proof.
  intros s. unfold varValue.
  destruct (findVar _ _ _); [|apply frames_errorf].
  destruct (vars s !! _); [apply frames_ret | apply frames_runtime_panic].
Qed.

End FrameLemmas.

Section EvalFrames.

Context {T : SinkTypes} {Ext : Externals}.

Ltac frames_step :=
  first
    [ apply frames_ret | apply frames_errorf | apply frames_runtime_panic
    | apply frames_strict | apply frames_push | apply frames_setVar
    | apply frames_setTopVar | apply frames_varValue
    | assumption
    | apply frames_bind; [|intros ?]
    | match goal with
      | |- frames (if ?b then _ else _) => destruct b
      | |- frames (match ?x with _ => _ end) => destruct x
      end ].

Ltac frames_auto := repeat frames_step.

Lemma frames_notAFunction args final : frames (notAFunction args final).
Proof. unfold notAFunction. frames_auto. Qed.

Lemma frames_evalFieldChain dot receiver ident args final :
  frames (evalFieldChain dot receiver ident args final).
Proof. unfold evalFieldChain. frames_auto. Qed.

Lemma frames_evalFieldNode dot ident args final :
  frames (evalFieldNode dot ident args final).
Proof. apply frames_evalFieldChain. Qed.

Lemma frames_evalChainNode dot chain node field evalNode args final :
  frames evalNode ->
  frames (evalChainNode dot chain node field evalNode args final).
Proof.
  intros H. unfold evalChainNode. frames_auto.
Qed.

Lemma frames_evalVariableNode dot v args final :
  frames (evalVariableNode dot v args final).
Proof.
  unfold evalVariableNode.
  destruct (parse.Ident v) as [|x rest]; [frames_auto|].
  apply frames_bind; [frames_auto | intros value].
  destruct rest; [|apply frames_evalFieldChain].
  apply frames_bind; [apply frames_notAFunction | intros; frames_auto].
Qed.

Lemma frames_evalAll argv :
  Forall frames argv -> frames (evalAll argv).
Proof.
  induction 1; simpl; frames_auto.
Qed.

Lemma frames_andOr fname argv lastArg :
  Forall frames argv -> frames (andOr fname argv lastArg).
Proof.
  intros H. revert lastArg. induction H as [|a rest Ha _ IH]; intros lastArg; simpl.
  - frames_auto.
  - apply frames_bind; [assumption | intros arg].
    destruct (isGjsonTrue arg) as [truth ok].
    destruct ok, truth; simpl; destruct (String.eqb fname "and");
      first [apply IH | frames_auto].
Qed.

Lemma frames_declare isAssign decl val : frames (declare isAssign decl val).
Proof.
  induction decl as [|v rest IH]; simpl; [frames_auto|].
  destruct (parse.Ident v); [frames_auto|].
  apply frames_bind; [destruct isAssign; frames_auto | intros; exact IH].
Qed.

Lemma frames_evalBacktick dot text args final :
  frames (evalBacktick dot text args final).
Proof. unfold evalBacktick. frames_auto. Qed.

Lemma Forall_tail {A} (P : A -> Prop) l : Forall P l -> Forall P (tail l).
Proof. destruct 1; simpl; [constructor | assumption]. Qed.

Lemma frames_evalFunction dot fname argv final :
  Forall frames argv -> frames (evalFunction dot fname argv final).
Proof.
  intros H. unfold evalFunction, wrong_args_want_1.
  destruct H as [|a0 rest0 H0 H]; [|destruct H as [|a1 rest1 H1 H];
    [|destruct H as [|a2 rest2 H2 H]]]; simpl;
  repeat first
    [ frames_step
    | apply frames_andOr; assumption
    | apply frames_evalAll; assumption
    | match goal with
      | |- frames (let '(_, _) := ?x in _) => destruct x
      end ].
Qed.

End EvalFrames.

Section EvalFramesMain.

Context {T : SinkTypes} {Ext : Externals}.

Ltac eval_frames_step :=
  first
    [ apply frames_ret | apply frames_errorf | apply frames_runtime_panic
    | apply frames_strict | apply frames_push | apply frames_setVar
    | apply frames_setTopVar | apply frames_varValue
    | apply frames_notAFunction | apply frames_evalFieldNode
    | apply frames_evalVariableNode | apply frames_evalBacktick
    | apply frames_declare
    | assumption
    | apply frames_bind; [|intros ?]
    | match goal with
      | |- frames (if ?b then _ else _) => destruct b
      end ].


Lemma eval_frames_leaf n :
  parse_ind.is_leaf n = true -> evalArg_frames_at n.
Proof.
  intros Hl. split; [|destruct n; try exact I; discriminate Hl].
  intros dot. destruct n; try discriminate Hl; simpl;
    try solve [repeat eval_frames_step].
  apply frames_evalFunction. constructor.
Qed.

Lemma eval_frames_other n :
  match n with
  | parse.ActionNode _ | parse.CommandNode_ _ | parse.IfNode _ _ _
  | parse.ListNode _ | parse.RangeNode _ _ _ | parse.TemplateNode _ _
  | parse.WithNode _ _ _ => evalArg_frames_at n
  | _ => True
  end.
Proof. destruct n; try exact I; (split; [intros dot; apply frames_errorf | exact I]). Qed.

Lemma eval_frames_chain n f :
  evalArg_frames_at n -> evalArg_frames_at (parse.ChainNode n f).
Proof.
  intros [H _]. split; [|exact H].
  intros dot. simpl. apply frames_evalChainNode, H.
Qed.

Lemma eval_frames_pipe p :
  evalPipe_frames_at p -> evalArg_frames_at (parse.PipeNode_ p).
Proof. intros H. split; [exact H | exact I]. Qed.

Lemma eval_frames_mkPipe a d c :
  Forall evalCommand_frames_at c -> evalPipe_frames_at (parse.mkPipeNode a d c).
Proof.
  intros H dot. simpl.
  apply frames_bind; [|intros; repeat eval_frames_step].
  generalize gjson.zero.
  induction H as [|cmd rest Hc _ IH]; intros val; [apply frames_ret|].
  apply frames_bind; [apply Hc | intros v; apply IH].
Qed.

Lemma eval_frames_mkCommand args :
  Forall evalArg_frames_at args ->
  evalCommand_frames_at (parse.mkCommandNode args).
Proof.
  intros H dot final. simpl.
  destruct H as [|firstWord rest [H0 H0'] H]; [apply frames_runtime_panic|].
  assert (Hargs : Forall frames (map (evalArg dot) (firstWord :: rest))).
  { apply Forall_fmap. constructor; [apply H0|].
    eapply Forall_impl; [exact H|]. intros x [Hx _]. apply Hx. }
  destruct firstWord; simpl in H0';
    try solve [repeat eval_frames_step].
  - apply frames_evalChainNode, H0'.
  - apply frames_evalFunction, Hargs.
  - apply frames_bind; [apply frames_notAFunction | intros _; apply H0].
Qed.

(** Every eval function only extends the state: it writes nothing, leaves
    template, depth and data alone, keeps the variables that were on the
    stack, and panics with faults only. *)
Lemma evalArg_frames dot n : frames (evalArg dot n).
Proof.
  revert dot.
  apply (parse_ind.Node_mut evalArg_frames_at evalPipe_frames_at evalCommand_frames_at);
    intros;
    first [ apply eval_frames_leaf; assumption
          | apply eval_frames_chain; assumption
          | apply eval_frames_pipe; assumption
          | apply eval_frames_mkPipe; assumption
          | apply eval_frames_mkCommand; assumption
          | match goal with |- evalArg_frames_at ?n => exact (eval_frames_other n) end ].
Qed.

Lemma evalPipe_frames dot p : frames (evalPipe dot p).
Proof.
  revert dot.
  apply (parse_ind.PipeNode_mut evalArg_frames_at evalPipe_frames_at evalCommand_frames_at);
    intros;
    first [ apply eval_frames_leaf; assumption
          | apply eval_frames_chain; assumption
          | apply eval_frames_pipe; assumption
          | apply eval_frames_mkPipe; assumption
          | apply eval_frames_mkCommand; assumption
          | match goal with |- evalArg_frames_at ?n => exact (eval_frames_other n) end ].
Qed.

Lemma evalPipeline_frames dot pipe : frames (evalPipeline dot pipe).
Proof. destruct pipe; simpl; [apply evalPipe_frames | apply frames_ret]. Qed.

End EvalFramesMain.

Section WalkEquations.

Context {T : SinkTypes} {Ext : Externals}.

Variable walkRoot : gjson.Result -> option (list parse.Node) -> Walk unit.

Lemma walkNodes_nil dot : walkNodes walkRoot dot [] = wret tt.
Proof. reflexivity. Qed.

Lemma walkNodes_cons dot n rest :
  walkNodes walkRoot dot (n :: rest)
  = wbind (walkNode walkRoot dot n) (fun _ => walkNodes walkRoot dot rest).
Proof. reflexivity. Qed.

Lemma walkNode_If dot p l e :
  walkNode walkRoot dot (parse.IfNode p l e)
  = walkIfOrWith (walkNodes walkRoot) NodeIf dot p l e.
Proof. reflexivity. Qed.

Lemma walkNode_With dot p l e :
  walkNode walkRoot dot (parse.WithNode p l e)
  = walkIfOrWith (walkNodes walkRoot) NodeWith dot p l e.
Proof. reflexivity. Qed.

Lemma walkNode_Range dot p l e :
  walkNode walkRoot dot (parse.RangeNode p l e)
  = walkRange (walkNodes walkRoot) dot p l e.
Proof. reflexivity. Qed.

Lemma walkNode_Template dot nm p :
  walkNode walkRoot dot (parse.TemplateNode nm p)
  = walkTemplate walkRoot dot nm p.
Proof. reflexivity. Qed.

End WalkEquations.

Section WalkFrames.

Context {T : SinkTypes} {Ext : Externals}.

Lemma same_scope_refl s : same_scope s s.
Proof. split; [apply ext_refl | reflexivity]. Qed.

Lemma same_scope_trans s1 s2 s3 :
  same_scope s1 s2 -> same_scope s2 s3 -> same_scope s1 s3.
Proof.
  intros [H1 N1] [H2 N2]. split; [eapply ext_trans; eassumption | congruence].
Qed.

Lemma same_scope_length s s' :
  same_scope s s' -> length (vars s') = length (vars s).
Proof.
  intros [_ H]. unfold names in H.
  apply (f_equal length) in H. by rewrite !length_fmap in H.
Qed.

Lemma quiet_ext s s' : quiet s s' -> ext s s'.
Proof. by intros []. Qed.

Lemma wframes_wret {A} (a : A) : wframes (wret a).
Proof. intros s r [= <-]. apply ext_refl. Qed.

Lemma wframes_wpanic {A} p : wframes (@wpanic _ A p).
Proof. intros s r [= <-]. apply ext_refl. Qed.

Lemma wframes_lift {A} (m : Exec A) : frames m -> wframes (lift m).
Proof. intros H s r [= <-]. apply quiet_ext, H. Qed.

Lemma wframes_wbind {A B} (m : Walk A) (k : A -> Walk B) :
  wframes m -> (forall a, wframes (k a)) -> wframes (wbind m k).
Proof.
  intros Hm Hk s r. unfold wbind.
  destruct (m s) as [[a s'|p s']|] eqn:E; [| |discriminate].
  - intros Hr. eapply ext_trans; [apply (Hm _ _ E) | apply (Hk _ _ _ Hr)].
  - intros [= <-]. apply (Hm _ _ E).
Qed.

Lemma wframes_write text : wframes (lift (write text)).
Proof.
  intros s r [= <-]. unfold write, writeError.
  destruct (Write (wr s) text) as [w [err|]]; simpl; by split.
Qed.

Lemma wframes_printValue v : wframes (lift (printValue v)).
Proof. apply wframes_write. Qed.

Lemma wframes_recover_only sentinel m :
  wframes m -> wframes (recover_only sentinel m).
Proof.
  intros H s r. unfold recover_only.
  destruct (m s) as [[a s'|p s']|] eqn:E; [| |discriminate].
  - intros [= <-]. apply (H _ _ E).
  - destruct (sentinel p); intros [= <-]; apply (H _ _ E).
Qed.

(** Popping an extension of [s] to the mark of [s] gives the scope of [s]
    back. *)
Lemma pop_ext s s' : ext s s' -> same_scope s (pop (mark s) s').
Proof.
  intros [Ht Hd Hj Hs [k Hk]].
  assert (Hn : names (pop (mark s) s') = names s).
  { unfold names, pop, mark in *. cbn [vars set_vars].
    rewrite fmap_take, Hk.
    rewrite <- (length_fmap name (vars s)).
    by rewrite take_app_length. }
  split; [|exact Hn].
  split; try assumption. by rewrite Hn.
Qed.

Lemma defer_pop_same_scope {A} (m : Walk A) s r :
  wframes m -> defer_pop (mark s) m s = Some r -> same_scope s (state_of r).
Proof.
  intros H. unfold defer_pop.
  destruct (m s) as [[a s'|p s']|] eqn:E; [| |discriminate];
    intros [= <-]; simpl; apply pop_ext, (H _ _ E).
Qed.

End WalkFrames.

Section BlockFrames.

Context {T : SinkTypes} {Ext : Externals}.

Variable walkList : gjson.Result -> list parse.Node -> Walk unit.

Lemma same_scope_ext s s' : same_scope s s' -> ext s s'.
Proof. by intros []. Qed.

Lemma wframes_walkElse dot e :
  (forall l, e = Some l -> wframes (walkList dot l)) ->
  wframes (walkElse walkList dot e).
Proof.
  intros H. destruct e as [l|]; simpl; [by apply H | apply wframes_wret].
Qed.

(** if and with: whatever way the block is left, the scope is the one it
    was entered with. *)
Lemma walkIfOrWith_same_scope typ dot pipe l e s r :
  (forall d, wframes (walkList d l)) ->
  (forall l', e = Some l' -> wframes (walkList dot l')) ->
  walkIfOrWith walkList typ dot pipe l e s = Some r ->
  same_scope s (state_of r).
Proof.
  intros Hl He. unfold walkIfOrWith. apply defer_pop_same_scope.
  apply wframes_wbind; [apply wframes_lift, evalPipeline_frames|].
  intros val. destruct (isGjsonTrue val) as [truth ok].
  destruct ok; simpl; [|apply wframes_lift, frames_errorf].
  destruct truth.
  - destruct typ; apply Hl.
  - destruct e as [l'|]; [by apply He | apply wframes_wret].
Qed.

Lemma same_scope_intro s s' :
  tmpl s' = tmpl s -> depth s' = depth s -> jsonData s' = jsonData s ->
  strictMode s' = strictMode s -> names s' = names s -> same_scope s s'.
Proof. intros ? ? ? ? Hn. split; [|exact Hn]. split; try done. by rewrite Hn. Qed.

Lemma keeps_ret {A} (a : A) : keeps (ret a).
Proof. intros s. apply same_scope_refl. Qed.

Lemma keeps_runtime_panic {A} what : keeps (@runtime_panic _ A what).
Proof. intros s. apply same_scope_refl. Qed.

Lemma keeps_bind {A B} (m : Exec A) (k : A -> Exec B) :
  keeps m -> (forall a, keeps (k a)) -> keeps (bind m k).
Proof.
  intros Hm Hk s. unfold bind. specialize (Hm s).
  destruct (m s) as [a s'|p s']; simpl in *; [|exact Hm].
  eapply same_scope_trans; [exact Hm | apply Hk].
Qed.

Lemma keeps_setVar x v : keeps (setVar x v).
Proof.
  intros s. unfold setVar.
  destruct (findVar (vars s) x (mark s)) as [j|] eqn:E;
    [|apply same_scope_refl].
  apply findVar_Some in E as [_ (w & Hw & Hn)].
  apply same_scope_intro; try reflexivity.
  unfold names; simpl. by erewrite names_insert_same.
Qed.

Lemma keeps_setTopVar n v : keeps (setTopVar n v).
Proof.
  intros s. unfold setTopVar.
  destruct n as [|n]; [apply same_scope_refl|].
  destruct (Nat.ltb _ _); [apply same_scope_refl|].
  destruct (vars s !! _) as [w|] eqn:E; [|apply same_scope_refl].
  apply same_scope_intro; try reflexivity.
  unfold names; simpl. by erewrite names_insert_same.
Qed.

Lemma keeps_declIdent decl i : keeps (declIdent decl i).
Proof.
  unfold declIdent. destruct (decl !! i) as [v|]; [|apply keeps_runtime_panic].
  destruct (parse.Ident v); [apply keeps_runtime_panic | apply keeps_ret].
Qed.

Lemma keeps_rangePipe pipe : keeps (rangePipe pipe).
Proof. destruct pipe; [apply keeps_ret | apply keeps_runtime_panic]. Qed.

Lemma keeps_bindLoopVars pipe index elem : keeps (bindLoopVars pipe index elem).
Proof.
  unfold bindLoopVars.
  apply keeps_bind; [apply keeps_rangePipe|]. intros p.
  apply keeps_bind; [|intros _];
    repeat first
      [ apply keeps_ret | apply keeps_setVar | apply keeps_setTopVar
      | apply keeps_declIdent
      | apply keeps_bind; [|intros ?]
      | match goal with |- keeps (if ?b then _ else _) => destruct b end ].
Qed.

(** One iteration started with the stack at the loop's mark ends, whatever
    way it ends, with the stack at the mark again. *)
Lemma oneIteration_same_scope pipe l m index elem s r :
  (forall d, wframes (walkList d l)) ->
  m = mark s ->
  oneIteration walkList pipe l m index elem s = Some r ->
  same_scope s (state_of r).
Proof.
  intros Hl -> . unfold oneIteration, wbind at 1, lift at 1.
  pose proof (keeps_bindLoopVars pipe index elem s) as Hpre.
  destruct (bindLoopVars pipe index elem s) as [[] s1|p s1].
  - simpl in Hpre. intros Hr.
    eapply same_scope_trans; [exact Hpre|].
    assert (Hm : mark s = mark s1).
    { unfold mark. symmetry. by apply same_scope_length. }
    rewrite Hm in Hr.
    eapply defer_pop_same_scope; [|exact Hr].
    apply wframes_recover_only, Hl.
  - intros [= <-]. exact Hpre.
Qed.

Section LoopFrames.

Variable one : gjson.Result -> gjson.Result -> Walk unit.
Variable m : nat.
Hypothesis one_same_scope : forall index elem s r,
  m = mark s -> one index elem s = Some r -> same_scope s (state_of r).

Lemma same_scope_mark s s' : same_scope s s' -> m = mark s -> m = mark s'.
Proof. intros H ->. unfold mark. symmetry. by apply same_scope_length. Qed.

Lemma loop_step (k : Walk unit) i e s r :
  (forall s r, m = mark s -> k s = Some r -> same_scope s (state_of r)) ->
  m = mark s ->
  wbind (one i e) (fun _ => k) s = Some r ->
  same_scope s (state_of r).
Proof.
  intros Hk Hm. unfold wbind.
  destruct (one i e s) as [[a s'|p s']|] eqn:E; [| |discriminate].
  - intros Hr. pose proof (one_same_scope _ _ _ _ Hm E) as H1.
    eapply same_scope_trans; [exact H1|].
    eapply Hk; [|exact Hr]. eapply same_scope_mark; eassumption.
  - intros [= <-]. apply (one_same_scope _ _ _ _ Hm E).
Qed.

Lemma rangeArray_same_scope elems i s r :
  m = mark s -> rangeArray one elems i s = Some r -> same_scope s (state_of r).
Proof.
  revert i s r. induction elems as [|e rest IH]; intros i s r Hm; simpl.
  - intros [= <-]. apply same_scope_refl.
  - apply loop_step; [|exact Hm]. intros; eapply IH; eassumption.
Qed.

Lemma rangeObject_same_scope pairs s r :
  m = mark s -> rangeObject one pairs s = Some r -> same_scope s (state_of r).
Proof.
  revert s r. induction pairs as [|[k v] rest IH]; intros s r Hm; simpl.
  - intros [= <-]. apply same_scope_refl.
  - apply loop_step; [|exact Hm]. intros; eapply IH; eassumption.
Qed.

Lemma rangeCount_same_scope todo i s r :
  m = mark s -> rangeCount one todo i s = Some r -> same_scope s (state_of r).
Proof.
  revert i s r. induction todo as [|todo IH]; intros i s r Hm; simpl.
  - intros [= <-]. apply same_scope_refl.
  - apply loop_step; [|exact Hm]. intros; eapply IH; eassumption.
Qed.

Lemma rangeRunes_same_scope runes s r :
  m = mark s -> rangeRunes one runes s = Some r -> same_scope s (state_of r).
Proof.
  revert s r. induction runes as [|[i c] rest IH]; intros s r Hm; simpl.
  - intros [= <-]. apply same_scope_refl.
  - apply loop_step; [|exact Hm]. intros; eapply IH; eassumption.
Qed.

End LoopFrames.

(** The body of walkRange, between its defers, only extends the state. *)
Lemma wframes_walkRangeBody dot pipe l e :
  (forall d, wframes (walkList d l)) ->
  (forall l', e = Some l' -> wframes (walkList dot l')) ->
  wframes (walkRangeBody walkList dot pipe l e).
Proof.
  intros Hl He. unfold walkRangeBody.
  apply wframes_wbind; [apply wframes_lift, evalPipeline_frames|].
  intros val s r.
  pose proof (wframes_walkElse dot e He) as Helse.
  assert (Hone : forall index elem s' r',
    mark s = mark s' ->
    oneIteration walkList pipe l (mark s) index elem s' = Some r' ->
    same_scope s' (state_of r')).
  { intros. eapply oneIteration_same_scope; eassumption. }
  destruct (gjson.IsArray val).
  { destruct (Array val) as [|e0 rest]; [apply Helse|].
    intros H. eapply same_scope_ext, rangeArray_same_scope; [exact Hone| |exact H].
    reflexivity. }
  destruct (gjson.IsObject val).
  { destruct (_ || _); [apply Helse|].
    intros H. eapply same_scope_ext, rangeObject_same_scope; [exact Hone| |exact H].
    reflexivity. }
  destruct (is_Number val).
  { destruct pipe as [p|]; unfold wbind at 1, lift at 1, rangePipe;
      [|intros [= <-]; apply ext_refl].
    unfold ret at 1.
    destruct (_ <? _)%Z; [apply wframes_lift, frames_errorf|].
    destruct (_ <=? _)%Z; [apply Helse|].
    intros H. eapply same_scope_ext, rangeCount_same_scope; [exact Hone| |exact H].
    reflexivity. }
  destruct (is_String val).
  { destruct (String.eqb _ _); [apply Helse|].
    intros H. eapply same_scope_ext, rangeRunes_same_scope; [exact Hone| |exact H].
    reflexivity. }
  apply wframes_lift, frames_errorf.
Qed.

(** range: whatever way the loop is left, the scope is the one it was
    entered with. *)
Lemma walkRange_same_scope dot pipe l e s r :
  (forall d, wframes (walkList d l)) ->
  (forall l', e = Some l' -> wframes (walkList dot l')) ->
  walkRange walkList dot pipe l e s = Some r ->
  same_scope s (state_of r).
Proof.
  intros Hl He. unfold walkRange, recover_only.
  destruct (defer_pop _ _ s) as [[a s'|p s']|] eqn:E; [| |discriminate].
  - intros [= <-].
    eapply (defer_pop_same_scope _ s (Ret a s')); [|exact E].
    by apply wframes_walkRangeBody.
  - pose proof (defer_pop_same_scope _ s (Panic p s')
                  (wframes_walkRangeBody dot pipe l e Hl He) E) as H.
    destruct (is_walkBreak p); intros [= <-]; exact H.
Qed.

End BlockFrames.

Section WalkNodeFrames.

Context {T : SinkTypes} {Ext : Externals}.

Variable walkRoot : gjson.Result -> option (list parse.Node) -> Walk unit.

Lemma set_wr_ext s s' w : ext s s' -> ext s (set_wr s' w).
Proof. intros []; by split. Qed.

(** A template call only extends the caller's state, whatever the called
    template does: of the state the call ran in, only the sink is kept. *)
Lemma wframes_walkTemplate dot nm pipe :
  wframes (walkTemplate walkRoot dot nm pipe).
Proof.
  intros s r. unfold walkTemplate.
  destruct (Lookup (tmpl s) nm) as [t'|]; [|apply wframes_lift, frames_errorf].
  destruct (depth s =? maxExecDepth)%Z; [apply wframes_lift, frames_errorf|].
  pose proof (evalPipeline_frames dot pipe s) as [[Hext _] _].
  destruct (evalPipeline dot pipe s) as [dot' s1|p s1]; simpl in Hext.
  - destruct (walkRoot _ _ _) as [[a s2|p s2]|]; [| |discriminate];
      intros [= <-]; simpl; by apply set_wr_ext.
  - by intros [= <-].
Qed.


Lemma wframes_walkNodes dot l :
  Forall (walkNode_frames_at walkRoot) l -> wframes (walkNodes walkRoot dot l).
Proof.
  induction 1 as [|n rest Hn _ IH].
  - rewrite walkNodes_nil. apply wframes_wret.
  - rewrite walkNodes_cons. apply wframes_wbind; [apply Hn | intros _; exact IH].
Qed.

Lemma wframes_walkNodes_opt dot e :
  parse_ind.OptForall (walkNode_frames_at walkRoot) e ->
  forall l', e = Some l' -> wframes (walkNodes walkRoot dot l').
Proof. intros H l' ->. by apply wframes_walkNodes. Qed.

(** Every walk only extends the state: the variables that were on the stack
    are still there afterwards, and template, depth and data are the same. *)
Lemma walkNode_wframes dot n : wframes (walkNode walkRoot dot n).
Proof.
  revert dot.
  apply (parse_ind.Node_mut (walkNode_frames_at walkRoot) (fun _ => True) (fun _ => True));
    try exact (fun _ => I); try (intros; exact I).
  - (* leaves *)
    intros n' Hl dot. destruct n'; try discriminate Hl; simpl;
      first [ apply wframes_wret | apply wframes_wpanic
            | apply wframes_write | apply wframes_lift, frames_errorf ].
  - (* action *)
    intros p _ dot. simpl.
    apply wframes_wbind; [apply wframes_lift, evalPipeline_frames|].
    intros val. destruct p as [p|]; [|apply wframes_lift, frames_runtime_panic].
    destruct (_ =? _)%Z; [apply wframes_printValue | apply wframes_wret].
  - intros n' f _ dot. apply wframes_lift, frames_errorf.
  - intros c _ dot. apply wframes_lift, frames_errorf.
  - (* if *)
    intros p l e _ Hl He dot s r. rewrite walkNode_If. intros H.
    eapply same_scope_ext, walkIfOrWith_same_scope; [| |exact H].
    + intros d. by apply wframes_walkNodes.
    + by apply wframes_walkNodes_opt.
  - (* list *)
    intros l Hl dot. by apply wframes_walkNodes.
  - intros p _ dot. apply wframes_lift, frames_errorf.
  - (* range *)
    intros p l e _ Hl He dot s r. rewrite walkNode_Range. intros H.
    eapply same_scope_ext, walkRange_same_scope; [| |exact H].
    + intros d. by apply wframes_walkNodes.
    + by apply wframes_walkNodes_opt.
  - (* template *)
    intros nm p _ dot. apply wframes_walkTemplate.
  - (* with *)
    intros p l e _ Hl He dot s r. rewrite walkNode_With. intros H.
    eapply same_scope_ext, walkIfOrWith_same_scope; [| |exact H].
    + intros d. by apply wframes_walkNodes.
    + by apply wframes_walkNodes_opt.
Qed.

Lemma walkNodes_wframes dot l : wframes (walkNodes walkRoot dot l).
Proof. apply walkNode_wframes. Qed.

End WalkNodeFrames.

Section StaysLemmas.

Context {T : SinkTypes} {Ext : Externals}.

Lemma ext_stays s s' : ext s s' -> stays s s'.
Proof. intros []. by split. Qed.

Lemma stays_refl s : stays s s.
Proof. by split. Qed.

Lemma stays_trans s1 s2 s3 : stays s1 s2 -> stays s2 s3 -> stays s1 s3.
Proof. intros [] []. split; congruence. Qed.

Lemma wframes_wstays {A} (m : Walk A) : wframes m -> wstays m.
Proof. intros H s r Hr. apply ext_stays, (H _ _ Hr). Qed.

Lemma wstays_wret {A} (a : A) : wstays (wret a).
Proof. apply wframes_wstays, wframes_wret. Qed.

Lemma wstays_lift {A} (m : Exec A) : frames m -> wstays (lift m).
Proof. intros H. by apply wframes_wstays, wframes_lift. Qed.

Lemma wstays_wbind {A B} (m : Walk A) (k : A -> Walk B) :
  wstays m -> (forall a, wstays (k a)) -> wstays (wbind m k).
Proof.
  intros Hm Hk s r. unfold wbind.
  destruct (m s) as [[a s'|p s']|] eqn:E; [| |discriminate].
  - intros Hr. eapply stays_trans; [apply (Hm _ _ E) | apply (Hk _ _ _ Hr)].
  - intros [= <-]. apply (Hm _ _ E).
Qed.

Lemma wstays_defer_pop {A} k (m : Walk A) : wstays m -> wstays (defer_pop k m).
Proof.
  intros H s r. unfold defer_pop.
  destruct (m s) as [[a s'|p s']|] eqn:E; [| |discriminate];
    intros [= <-]; apply (H _ _ E).
Qed.

Lemma wstays_recover_only f m : wstays m -> wstays (recover_only f m).
Proof.
  intros H s r. unfold recover_only.
  destruct (m s) as [[a s'|p s']|] eqn:E; [| |discriminate].
  - intros [= <-]. apply (H _ _ E).
  - destruct (f p); intros [= <-]; apply (H _ _ E).
Qed.

Section Loops.

Variable one : gjson.Result -> gjson.Result -> Walk unit.
Hypothesis one_stays : forall i e, wstays (one i e).

Lemma wstays_rangeArray elems i : wstays (rangeArray one elems i).
Proof.
  revert i. induction elems; intros i; simpl;
    [apply wstays_wret | apply wstays_wbind; auto].
Qed.

Lemma wstays_rangeObject pairs : wstays (rangeObject one pairs).
Proof.
  induction pairs as [|[k v] rest IH]; simpl;
    [apply wstays_wret | apply wstays_wbind; auto].
Qed.

Lemma wstays_rangeCount todo i : wstays (rangeCount one todo i).
Proof.
  revert i. induction todo; intros i; simpl;
    [apply wstays_wret | apply wstays_wbind; auto].
Qed.

Lemma wstays_rangeRunes runes : wstays (rangeRunes one runes).
Proof.
  induction runes as [|[i c] rest IH]; simpl;
    [apply wstays_wret | apply wstays_wbind; auto].
Qed.

End Loops.

Lemma frames_declIdent decl i : frames (declIdent decl i).
Proof.
  unfold declIdent. destruct (decl !! i) as [v|]; [|apply frames_runtime_panic].
  destruct (parse.Ident v); [apply frames_runtime_panic | apply frames_ret].
Qed.

Lemma frames_rangePipe pipe : frames (rangePipe pipe).
Proof. destruct pipe; [apply frames_ret | apply frames_runtime_panic]. Qed.

Lemma frames_bindLoopVars pipe index elem : frames (bindLoopVars pipe index elem).
Proof.
  unfold bindLoopVars.
  apply frames_bind; [apply frames_rangePipe|]. intros p.
  apply frames_bind; [|intros _];
    repeat first
      [ apply frames_ret | apply frames_setVar | apply frames_setTopVar
      | apply frames_declIdent
      | apply frames_bind; [|intros ?]
      | match goal with |- frames (if ?b then _ else _) => destruct b end ].
Qed.

Lemma wstays_oneIteration walkList pipe l m index elem :
  wstays (walkList elem l) ->
  wstays (oneIteration walkList pipe l m index elem).
Proof.
  intros H. unfold oneIteration.
  apply wstays_wbind; [apply wstays_lift, frames_bindLoopVars|].
  intros _. by apply wstays_defer_pop, wstays_recover_only.
Qed.

End StaysLemmas.

Section GoodLemmas.

Context {T : SinkTypes} {Ext : Externals}.

Variable top : Template.

Lemma within_stays D s s' : stays s s' -> within top D s -> within top D s'.
Proof.
  intros [Ht Hd] [[Hc Hn] Hb]. unfold within, known. rewrite Ht, Hd. done.
Qed.

Lemma wgood_wret D {A} (a : A) : wgood top D (wret a).
Proof. intros s _. by exists (Ret a s). Qed.

Lemma wgood_wpanic_signal D {A} p :
  is_fault p = false -> (forall e, p <> PanicWriteError e) ->
  wgood top D (@wpanic _ A p).
Proof.
  intros Hf Hw s _. exists (Panic p s). split; [done|].
  destruct p; simpl; try done. by destruct (Hw e).
Qed.

Lemma wgood_lift D {A} (m : Exec A) : frames m -> wgood top D (lift m).
Proof.
  intros H s [[Hc Hn] _]. exists (m s). split; [done|].
  destruct (H s) as [[[Ht _ _ _ _] _] Hf].
  destruct (m s) as [a s'|p s']; simpl in *; [done|].
  destruct Hf as [Hf Hname]. destruct p; try done.
  unfold genuine_result, genuine. rewrite (Hname e eq_refl), Ht. exact Hn.
Qed.

Lemma wgood_wbind D {A B} (m : Walk A) (k : A -> Walk B) :
  wstays m -> wgood top D m -> (forall a, wgood top D (k a)) ->
  wgood top D (wbind m k).
Proof.
  intros Hs Hm Hk s Hin. unfold wbind.
  destruct (Hm s Hin) as (r & Hr & Hg). rewrite Hr.
  destruct r as [a s'|p s']; [|by exists (Panic p s')].
  apply Hk. eapply within_stays; [apply (Hs _ _ Hr) | exact Hin].
Qed.

Lemma wgood_write D text : wgood top D (lift (write text)).
Proof.
  intros s _. exists (write text s). split; [done|].
  unfold write, writeError.
  destruct (Write (wr s) text) as [w [err|]] eqn:E; simpl; [|done].
  by exists (wr s), text, w.
Qed.

Lemma wgood_defer_pop D {A} (m : Walk A) :
  wgood top D m -> wgood top D (fun s => defer_pop (mark s) m s).
Proof.
  intros H s Hin. unfold defer_pop.
  destruct (H s Hin) as (r & -> & Hg).
  destruct r as [a s'|p s']; eexists; (split; [reflexivity | exact Hg]).
Qed.

Lemma wgood_defer_pop_at D {A} k (m : Walk A) :
  wgood top D m -> wgood top D (defer_pop k m).
Proof.
  intros H s Hin. unfold defer_pop.
  destruct (H s Hin) as (r & -> & Hg).
  destruct r as [a s'|p s']; eexists; (split; [reflexivity | exact Hg]).
Qed.

Lemma wgood_recover_only D f m :
  wgood top D m -> wgood top D (recover_only f m).
Proof.
  intros H s Hin. unfold recover_only.
  destruct (H s Hin) as (r & -> & Hg).
  destruct r as [a s'|p s']; [by eexists|].
  destruct (f p); eexists; (split; [reflexivity|]); [done | exact Hg].
Qed.

Section Loops.

Variable D : Z.
Variable one : gjson.Result -> gjson.Result -> Walk unit.
Hypothesis one_stays : forall i e, wstays (one i e).
Hypothesis one_good : forall i e, wgood top D (one i e).

Lemma wgood_rangeArray elems i : wgood top D (rangeArray one elems i).
Proof.
  revert i. induction elems; intros i; simpl;
    [apply wgood_wret | apply wgood_wbind; auto].
Qed.

Lemma wgood_rangeObject pairs : wgood top D (rangeObject one pairs).
Proof.
  induction pairs as [|[k v] rest IH]; simpl;
    [apply wgood_wret | apply wgood_wbind; auto].
Qed.

Lemma wgood_rangeCount todo i : wgood top D (rangeCount one todo i).
Proof.
  revert i. induction todo; intros i; simpl;
    [apply wgood_wret | apply wgood_wbind; auto].
Qed.

Lemma wgood_rangeRunes runes : wgood top D (rangeRunes one runes).
Proof.
  induction runes as [|[i c] rest IH]; simpl;
    [apply wgood_wret | apply wgood_wbind; auto].
Qed.

End Loops.

Section Blocks.

Variable D : Z.
Variable walkList : gjson.Result -> list parse.Node -> Walk unit.

Lemma wgood_walkElse dot e :
  (forall l, e = Some l -> wgood top D (walkList dot l)) ->
  wgood top D (walkElse walkList dot e).
Proof. intros H. destruct e; simpl; [by apply H | apply wgood_wret]. Qed.

Lemma wgood_walkIfOrWith typ dot pipe l e :
  (forall d, wgood top D (walkList d l)) ->
  (forall l', e = Some l' -> wgood top D (walkList dot l')) ->
  wgood top D (walkIfOrWith walkList typ dot pipe l e).
Proof.
  intros Hl He. unfold walkIfOrWith. apply wgood_defer_pop.
  apply wgood_wbind;
    [apply wstays_lift, evalPipeline_frames
    |apply wgood_lift, evalPipeline_frames|].
  intros val. destruct (isGjsonTrue val) as [truth ok].
  destruct ok; simpl; [|apply wgood_lift, frames_errorf].
  destruct truth.
  - destruct typ; apply Hl.
  - destruct e as [l'|]; [by apply He | apply wgood_wret].
Qed.

Lemma wgood_oneIteration pipe l m index elem :
  wgood top D (walkList elem l) ->
  wgood top D (oneIteration walkList pipe l m index elem).
Proof.
  intros H. unfold oneIteration.
  apply wgood_wbind;
    [apply wstays_lift, frames_bindLoopVars
    |apply wgood_lift, frames_bindLoopVars|].
  intros _. by apply wgood_defer_pop_at, wgood_recover_only.
Qed.

Lemma wgood_walkRange dot pipe l e :
  (forall d, wstays (walkList d l)) ->
  (forall d, wgood top D (walkList d l)) ->
  (forall l', e = Some l' -> wgood top D (walkList dot l')) ->
  wgood top D (walkRange walkList dot pipe l e).
Proof.
  intros Hs Hl He. unfold walkRange.
  apply wgood_recover_only, wgood_defer_pop. unfold walkRangeBody.
  apply wgood_wbind;
    [apply wstays_lift, evalPipeline_frames
    |apply wgood_lift, evalPipeline_frames|].
  intros val s.
  pose proof (wgood_walkElse dot e He) as Helse.
  assert (Hone : forall i e', wgood top D (oneIteration walkList pipe l (mark s) i e')).
  { intros. by apply wgood_oneIteration. }
  assert (Hone' : forall i e', wstays (oneIteration walkList pipe l (mark s) i e')).
  { intros. by apply wstays_oneIteration. }
  destruct (gjson.IsArray val).
  { destruct (Array val); [apply Helse | by apply wgood_rangeArray]. }
  destruct (gjson.IsObject val).
  { destruct (_ || _); [apply Helse | by apply wgood_rangeObject]. }
  destruct (is_Number val).
  { revert s Hone Hone'. intros s Hone Hone'.
    apply wgood_wbind;
      [apply wstays_lift, frames_rangePipe
      |apply wgood_lift, frames_rangePipe|].
    intros p. destruct (_ <? _)%Z; [apply wgood_lift, frames_errorf|].
    destruct (_ <=? _)%Z; [apply Helse | by apply wgood_rangeCount]. }
  destruct (is_String val).
  { destruct (String.eqb _ _); [apply Helse | by apply wgood_rangeRunes]. }
  apply wgood_lift, frames_errorf.
Qed.

End Blocks.

End GoodLemmas.

Section GoodWalk.

Context {T : SinkTypes} {Ext : Externals}.

Variable top : Template.

Lemma Lookup_known t nm t' :
  Lookup t nm = Some t' ->
  Name t' = nm /\ common t' = common t /\ is_Some (common t !! nm).
Proof.
  unfold Lookup. destruct (common t !! nm) as [e|] eqn:E; [|discriminate].
  intros [= <-]. simpl. eauto.
Qed.

Lemma maxExecDepth_pos : (0 < maxExecDepth)%Z.
Proof.
  unfold maxExecDepth, initMaxExecDepth. destruct (String.eqb _ _); lia.
Qed.

Section Node.

Variable D : Z.
Variable walkRoot : gjson.Result -> option (list parse.Node) -> Walk unit.

(** The walker for called templates comes to a result one level deeper. *)
Hypothesis walkRoot_good : forall dot root, wgood top (D + 1) (walkRoot dot root).

Lemma wgood_walkTemplate dot nm pipe :
  wgood top D (walkTemplate walkRoot dot nm pipe).
Proof.
  intros s Hin. unfold walkTemplate.
  destruct (Lookup (tmpl s) nm) as [t'|] eqn:El;
    [|apply (wgood_lift top D _ (frames_errorf _ _) s Hin)].
  destruct (depth s =? maxExecDepth)%Z eqn:Ed;
    [apply (wgood_lift top D _ (frames_errorf _ _) s Hin)|].
  apply Z.eqb_neq in Ed.
  destruct (wgood_lift top D _ (evalPipeline_frames dot pipe) s Hin)
    as (r & [= <-] & Hg).
  pose proof (evalPipeline_frames dot pipe s) as [[[Ht Hd _ _ _] _] _].
  destruct (evalPipeline dot pipe s) as [dot' s1|p s1]; simpl in *;
    [|by eexists].
  apply Lookup_known in El as (Hn & Hc & Hsome).
  destruct Hin as [[Hc0 Hn0] Hb].
  destruct (walkRoot_good dot' (Root t') (newState s1 t' dot')) as (r & -> & Hr).
  { split; [split|]; simpl.
    - congruence.
    - right. rewrite Hn. by rewrite <- Hc0.
    - lia. }
  destruct r; eexists; (split; [reflexivity | exact Hr]).
Qed.


Lemma wgood_walkNodes dot l :
  Forall (walkNode_good_at top D walkRoot) l -> wgood top D (walkNodes walkRoot dot l).
Proof.
  induction 1 as [|n rest Hn _ IH].
  - rewrite walkNodes_nil. apply wgood_wret.
  - rewrite walkNodes_cons.
    apply wgood_wbind;
      [apply wframes_wstays, walkNode_wframes | apply Hn | intros _; exact IH].
Qed.

Lemma wgood_walkNodes_opt dot e :
  parse_ind.OptForall (walkNode_good_at top D walkRoot) e ->
  forall l', e = Some l' -> wgood top D (walkNodes walkRoot dot l').
Proof. intros H l' ->. by apply wgood_walkNodes. Qed.

(** From a state within the depth bounds every walk comes to a result, and
    the panics it may end in are genuine. *)
Lemma walkNode_wgood dot n : wgood top D (walkNode walkRoot dot n).
Proof.
  revert dot.
  apply (parse_ind.Node_mut (walkNode_good_at top D walkRoot) (fun _ => True) (fun _ => True));
    try exact (fun _ => I); try (intros; exact I).
  - intros n' Hl dot. destruct n'; try discriminate Hl; simpl;
      first [ apply wgood_wret | apply wgood_write
            | apply wgood_wpanic_signal; [reflexivity | discriminate]
            | apply wgood_lift, frames_errorf ].
  - intros p _ dot. simpl.
    apply wgood_wbind;
      [apply wstays_lift, evalPipeline_frames
      |apply wgood_lift, evalPipeline_frames|].
    intros val. destruct p as [p|]; [|apply wgood_lift, frames_runtime_panic].
    destruct (_ =? _)%Z; [apply wgood_write | apply wgood_wret].
  - intros n' f _ dot. apply wgood_lift, frames_errorf.
  - intros c _ dot. apply wgood_lift, frames_errorf.
  - intros p l e _ Hl He dot. rewrite walkNode_If.
    apply wgood_walkIfOrWith;
      [intros d; by apply wgood_walkNodes | by apply wgood_walkNodes_opt].
  - intros l Hl dot. by apply wgood_walkNodes.
  - intros p _ dot. apply wgood_lift, frames_errorf.
  - intros p l e _ Hl He dot. rewrite walkNode_Range.
    apply wgood_walkRange;
      [intros d; apply wframes_wstays, walkNodes_wframes
      |intros d; by apply wgood_walkNodes | by apply wgood_walkNodes_opt].
  - intros nm p _ dot. rewrite walkNode_Template. apply wgood_walkTemplate.
  - intros p l e _ Hl He dot. rewrite walkNode_With.
    apply wgood_walkIfOrWith;
      [intros d; by apply wgood_walkNodes | by apply wgood_walkNodes_opt].
Qed.

End Node.

Lemma walkRootWith_S b dot root :
  walkRootWith (S b) dot root = walkListNode (walkRootWith b) dot root.
Proof. reflexivity. Qed.

(** With a budget of [b] nested calls, a template entered at depth
    [maxExecDepth + 1 - b] or deeper is walked to a result. *)
Lemma walkRootWith_wgood b dot root :
  wgood top (maxExecDepth + 1 - Z.of_nat b) (walkRootWith b dot root).
Proof.
  revert dot root. induction b as [|b IH]; intros dot root.
  - intros s [_ Hb]. simpl in Hb. lia.
  - rewrite walkRootWith_S. unfold walkListNode.
    destruct root as [nodes|]; [|apply wgood_lift, frames_runtime_panic].
    apply walkNode_wgood. intros d r.
    replace (maxExecDepth + 1 - Z.of_nat (S b) + 1)%Z
      with (maxExecDepth + 1 - Z.of_nat b)%Z by lia.
    apply IH.
Qed.

(** The walk execute starts comes to a result, with genuine panics only. *)
Lemma walk_total dot n : wgood top 0 (walk (Z.to_nat maxExecDepth) dot n).
Proof.
  unfold walk. apply walkNode_wgood. intros d r.
  pose proof maxExecDepth_pos.
  replace (0 + 1)%Z with (maxExecDepth + 1 - Z.of_nat (Z.to_nat maxExecDepth))%Z
    by lia.
  apply walkRootWith_wgood.
Qed.

End GoodWalk.

(* ===================================================================== *)
(** ** Truth values (isGjsonTrue) *)
(* ===================================================================== *)

(** C2.  The truthiness classification: a Null value is false, a False
    value is false, a True value is true, a Number is true exactly when its
    numeric value is not zero, a String exactly when its text is not empty,
    and an array or object exactly when its raw text is none of the three
    texts "", "[]" and "{}"; each of them has a truth value (ok).  The test
    on arrays and objects is one on the text: an empty array written with a
    blank inside is true. *)
Theorem C2_truthiness_table (vnull vfalse vtrue vnum vstr vjson : gjson.Result) :
  gjson.Typ vnull = gjson.TNull ->
  gjson.Typ vfalse = gjson.TFalse ->
  gjson.Typ vtrue = gjson.TTrue ->
  gjson.Typ vnum = gjson.TNumber ->
  gjson.Typ vstr = gjson.TString ->
  gjson.IsArray vjson || gjson.IsObject vjson = true ->
  isGjsonTrue vnull = (false, true)
  /\ isGjsonTrue vfalse = (false, true)
  /\ isGjsonTrue vtrue = (true, true)
  /\ isGjsonTrue vnum = (negb (PrimFloat.eqb (gjson.Num vnum) 0%float), true)
  /\ isGjsonTrue vstr = (negb (String.eqb (gjson.Str vstr) ""), true)
  /\ isGjsonTrue vjson
     = (negb (String.eqb (gjson.Raw vjson) "")
        && negb (String.eqb (gjson.Raw vjson) "[]")
        && negb (String.eqb (gjson.Raw vjson) "{}"), true)
  /\ isGjsonTrue (gjson.mkResult gjson.TJSON "[ ]" "" 0%float) = (true, true).
Proof.
  intros Hnull Hfalse Htrue Hnum Hstr Hjson.
  unfold isGjsonTrue, gjson.Exists.
  rewrite Hnull, Hfalse, Htrue, Hnum, Hstr. simpl.
  repeat split.
  - by destruct (negb (String.eqb (gjson.Raw vnull) "")).
  - rewrite Hjson.
    assert (Ht : gjson.Typ vjson = gjson.TJSON).
    { unfold gjson.IsArray, gjson.IsObject in Hjson.
      destruct (gjson.Typ vjson); try done; simpl in Hjson; discriminate. }
    by rewrite Ht.
Qed.

(** The table read off the sample values null, false, true, 42, the string
    hello and the array [1,2,3]. *)
Lemma C2_truthiness_table_witness :
  isGjsonTrue Examples.v_null = (false, true)
  /\ isGjsonTrue Examples.v_false = (false, true)
  /\ isGjsonTrue Examples.v_true = (true, true)
  /\ isGjsonTrue Examples.v_42 = (true, true)
  /\ isGjsonTrue Examples.v_hello = (true, true)
  /\ isGjsonTrue Examples.v_array = (true, true).
Proof.
  destruct (C2_truthiness_table Examples.v_null Examples.v_false Examples.v_true
              Examples.v_42 Examples.v_hello Examples.v_array
              eq_refl eq_refl eq_refl eq_refl eq_refl eq_refl)
    as (H1 & H2 & H3 & H4 & H5 & H6 & _).
  split; [exact H1|]. split; [exact H2|]. split; [exact H3|].
  split; [rewrite H4; reflexivity|].
  split; [rewrite H5; reflexivity|].
  rewrite H6; reflexivity.
Defined.

(* ===================================================================== *)
(** ** Builtin operators (evalFunction) *)
(* ===================================================================== *)

Section Builtins.

Context {T : SinkTypes} {Ext : Externals}.

(** C3.  On its first two arguments eq compares two numbers numerically;
    with a number and a string it parses the string with ParseFloat and
    compares numerically, a parse failure giving not-equal; ne makes no
    such conversion and compares the raw texts.  So over a document whose
    field Number is the number 42, [eq .Number "42"] and [ne .Number "42"]
    both give the value parsed from the text true: the string "42" parses
    to 42, while its raw text, quotes included, is not the raw text 42. *)
Theorem C3_eq_coerces_ne_does_not
    (dot num : gjson.Result) (quoted : string) (final : gjson.Result) (s : state) :
  Get dot "Number" = num ->
  gjson.Typ num = gjson.TNumber ->
  gjson.Raw num = "42" ->
  gjson.Num num = 42%float ->
  gjson.Typ (Parse (fmt_q "42")) = gjson.TString ->
  gjson.Str (Parse (fmt_q "42")) = "42" ->
  gjson.Raw (Parse (fmt_q "42")) <> "42" ->
  ParseFloat "42" = Some 42%float ->
  gjson.Exists final = false ->
  (forall f a1 a2 rest,
     evalFunction dot "eq" (f :: a1 :: a2 :: rest) final
     = (arg1 <- a1 ;; arg2 <- a2 ;;
        ret (Parse (fmt_t (compare_op "eq" arg1 arg2))))%exec
     /\ evalFunction dot "ne" (f :: a1 :: a2 :: rest) final
        = (arg1 <- a1 ;; arg2 <- a2 ;;
           ret (Parse (fmt_t (compare_op "ne" arg1 arg2))))%exec)
  /\ (forall x y,
        compare_op "ne" x y = negb (String.eqb (gjson.Raw x) (gjson.Raw y)))
  /\ (forall x y,
        gjson.Typ x = gjson.TNumber -> gjson.Typ y = gjson.TString ->
        compare_op "eq" x y
        = match ParseFloat (gjson.Str y) with
          | Some n => PrimFloat.eqb (gjson.Num x) n
          | None => false
          end)
  /\ (forall x y,
        gjson.Typ x = gjson.TString -> gjson.Typ y = gjson.TNumber ->
        compare_op "eq" x y
        = match ParseFloat (gjson.Str x) with
          | Some n => PrimFloat.eqb n (gjson.Num y)
          | None => false
          end)
  /\ evalCommand dot
       (parse.mkCommandNode
          [parse.IdentifierNode "eq"; parse.FieldNode ["Number"];
           parse.StringNode quoted "42"]) final s
     = Ret (Parse "true") s
  /\ evalCommand dot
       (parse.mkCommandNode
          [parse.IdentifierNode "ne"; parse.FieldNode ["Number"];
           parse.StringNode quoted "42"]) final s
     = Ret (Parse "true") s.
Proof.
  intros Hget Htyp Hraw Hnum Hstyp Hsstr Hsraw Hpf Hfinal.
  assert (Hne : forall x y,
    compare_op "ne" x y = negb (String.eqb (gjson.Raw x) (gjson.Raw y))).
  { reflexivity. }
  assert (Heq1 : forall x y,
    gjson.Typ x = gjson.TNumber -> gjson.Typ y = gjson.TString ->
    compare_op "eq" x y
    = match ParseFloat (gjson.Str y) with
      | Some n => PrimFloat.eqb (gjson.Num x) n
      | None => false
      end).
  { intros x y Hx Hy. unfold compare_op, is_Number, is_String, String_, gjson.String_.
    rewrite Hx, Hy. reflexivity. }
  assert (Heq2 : forall x y,
    gjson.Typ x = gjson.TString -> gjson.Typ y = gjson.TNumber ->
    compare_op "eq" x y
    = match ParseFloat (gjson.Str x) with
      | Some n => PrimFloat.eqb n (gjson.Num y)
      | None => false
      end).
  { intros x y Hx Hy. unfold compare_op, is_Number, is_String, String_, gjson.String_.
    rewrite Hx, Hy. reflexivity. }
  assert (Hfield : forall s', evalArg dot (parse.FieldNode ["Number"]) s' = Ret num s').
  { intros s'. simpl. unfold evalFieldNode, evalFieldChain, bind, strict. simpl.
    rewrite Hget. unfold gjson.Exists. rewrite Htyp. reflexivity. }
  split; [intros; split; reflexivity|].
  split; [exact Hne|]. split; [exact Heq1|]. split; [exact Heq2|].
  split.
  - change (evalFunction dot "eq"
              [evalArg dot (parse.IdentifierNode "eq");
               evalArg dot (parse.FieldNode ["Number"]);
               evalArg dot (parse.StringNode quoted "42")] final s
            = Ret (Parse "true") s).
    change (bind (evalArg dot (parse.FieldNode ["Number"]))
              (fun arg1 => bind (evalArg dot (parse.StringNode quoted "42"))
                 (fun arg2 => ret (Parse (fmt_t (compare_op "eq" arg1 arg2))))) s
            = Ret (Parse "true") s).
    unfold bind. rewrite Hfield. simpl. unfold ret.
    rewrite (Heq1 _ _ Htyp Hstyp), Hsstr, Hpf, Hnum. reflexivity.
  - change (bind (evalArg dot (parse.FieldNode ["Number"]))
              (fun arg1 => bind (evalArg dot (parse.StringNode quoted "42"))
                 (fun arg2 => ret (Parse (fmt_t (compare_op "ne" arg1 arg2))))) s
            = Ret (Parse "true") s).
    unfold bind. rewrite Hfield. simpl. unfold ret.
    rewrite Hne, Hraw.
    destruct (String.eqb_spec "42" (gjson.Raw (Parse (fmt_q "42")))) as [E|E];
      [by destruct Hsraw | reflexivity].
Qed.

End Builtins.

(** Over the sample document, whose Number is 42, both comparisons with the
    string "42" give true. *)
Lemma C3_eq_coerces_ne_does_not_witness :
  evalCommand Examples.dot0
    (parse.mkCommandNode
       [parse.IdentifierNode "eq"; parse.FieldNode ["Number"]; Examples.str42])
    gjson.zero Examples.state0
  = Ret Examples.v_true Examples.state0
  /\ evalCommand Examples.dot0
       (parse.mkCommandNode
          [parse.IdentifierNode "ne"; parse.FieldNode ["Number"]; Examples.str42])
       gjson.zero Examples.state0
     = Ret Examples.v_true Examples.state0.
Proof.
  assert (Hne : gjson.Raw (Parse (fmt_q "42"))
                <> "42") by (vm_compute; discriminate).
  destruct (C3_eq_coerces_ne_does_not (Ext:=Sample.externals) Examples.dot0 Examples.v_42
              (Sample.quote "42") gjson.zero Examples.state0
              ltac:(vm_compute; reflexivity) ltac:(vm_compute; reflexivity) ltac:(vm_compute; reflexivity) ltac:(vm_compute; reflexivity) ltac:(vm_compute; reflexivity) ltac:(vm_compute; reflexivity) Hne ltac:(vm_compute; reflexivity) ltac:(vm_compute; reflexivity))
    as (_ & _ & _ & _ & Heq & Hne').
  split; [exact Heq | exact Hne'].
Defined.

Section AndOr.

Context {T : SinkTypes} {Ext : Externals}.

Lemma len_two_or_more {A} (x y : A) rest : (len (x :: y :: rest) <? 2)%Z = false.
Proof. apply Z.ltb_ge. unfold len. simpl length. lia. Qed.

Lemma evalFunction_and dot f a rest final :
  evalFunction dot "and" (f :: a :: rest) final = andOr "and" (a :: rest) gjson.zero.
Proof.
  unfold evalFunction. cbn [String.eqb Ascii.eqb Bool.eqb orb].
  by rewrite len_two_or_more.
Qed.

Lemma evalFunction_or dot f a rest final :
  evalFunction dot "or" (f :: a :: rest) final = andOr "or" (a :: rest) gjson.zero.
Proof.
  unfold evalFunction. cbn [String.eqb Ascii.eqb Bool.eqb orb].
  by rewrite len_two_or_more.
Qed.

Lemma last_default_irrelevant {A} (x : A) l d d' :
  List.last (x :: l) d = List.last (x :: l) d'.
Proof.
  revert x. induction l as [|y l IH]; intros x; [reflexivity|].
  change (List.last (y :: l) d = List.last (y :: l) d'). apply IH.
Qed.

Lemma last_cons_default {A} (v : A) vs d :
  List.last vs v = List.last (v :: vs) d.
Proof.
  destruct vs as [|x l]; [reflexivity|].
  change (List.last (x :: l) v = List.last (x :: l) d).
  apply last_default_irrelevant.
Qed.

(** The arguments that do not decide the result are run and passed over. *)
Lemma andOr_skip_any fname pre vs s s1 tl last :
  runs_to pre s vs s1 ->
  (fname = "and" /\ Forall truthy vs) \/ (fname = "or" /\ Forall falsy vs) ->
  andOr fname (pre ++ tl) last s
  = andOr fname tl (List.last vs last) s1.
Proof.
  intros Hrun. revert last.
  induction Hrun as [s|a rest s v s' vs s'' Ha Hrest IH]; intros last Hall;
    [reflexivity|].
  assert (Hv : isGjsonTrue v = (String.eqb fname "and", true)).
  { destruct Hall as [[-> H]|[-> H]]; apply Forall_cons in H as [Hv _]; exact Hv. }
  assert (Hvs : (fname = "and" /\ Forall truthy vs) \/ (fname = "or" /\ Forall falsy vs)).
  { destruct Hall as [[-> H]|[-> H]]; apply Forall_cons in H as [_ H]; auto. }
  rewrite <- (last_cons_default v vs last).
  simpl app. cbn [andOr]. unfold bind at 1. rewrite Ha, Hv.
  cbn [negb].
  destruct (String.eqb fname "and"); cbn [negb]; apply IH, Hvs.
Qed.

(** C4.  and and or run their arguments from left to right and return the
    value of one of them, never a boolean made from it.  With the arguments
    before [a] run to the values [vs], and [a] then returning [v]: and
    returns [v] when [vs] are all true and [v] is false, whatever follows
    (the arguments after [a] are not run); and returns [v] when all are
    true and [a] is the last argument; or returns [v] when [vs] are all
    false and [v] is true, and when all are false and [a] is the last.  In
    particular and on a True value and an empty string is that string's
    value, and or on false values followed by the array [] is that array's
    value. *)
Theorem C4_and_or_return_an_argument
    (dot final : gjson.Result) (f : Exec gjson.Result)
    (pre : list (Exec gjson.Result)) (a : Exec gjson.Result)
    (post : list (Exec gjson.Result))
    (s s1 s2 : state) (vs : list gjson.Result) (v : gjson.Result)
    (t e arr : gjson.Result) (fs : list gjson.Result) :
  runs_to pre s vs s1 ->
  a s1 = Ret v s2 ->
  gjson.Typ t = gjson.TTrue ->
  gjson.Typ e = gjson.TString -> gjson.Str e = "" ->
  Forall falsy fs ->
  gjson.IsArray arr = true -> gjson.Raw arr = "[]" ->
  (Forall truthy vs -> falsy v ->
   evalFunction dot "and" (f :: pre ++ a :: post) final s = Ret v s2)
  /\ (Forall truthy vs -> truthy v ->
      evalFunction dot "and" (f :: pre ++ [a]) final s = Ret v s2)
  /\ (Forall falsy vs -> truthy v ->
      evalFunction dot "or" (f :: pre ++ a :: post) final s = Ret v s2)
  /\ (Forall falsy vs -> falsy v ->
      evalFunction dot "or" (f :: pre ++ [a]) final s = Ret v s2)
  /\ evalFunction dot "and" [f; ret t; ret e] final s = Ret e s
  /\ evalFunction dot "or" (f :: map ret fs ++ [ret arr]) final s = Ret arr s.
Proof.
  intros Hrun Ha Ht He Hes Hfs Harr Harr'.
  assert (Hshape : forall fname tl,
    fname = "and" \/ fname = "or" ->
    evalFunction dot fname (f :: pre ++ a :: tl) final
    = andOr fname (pre ++ a :: tl) gjson.zero).
  { intros fname tl [-> | ->]; destruct pre;
      first [apply evalFunction_and | apply evalFunction_or]. }
  assert (Hstep : forall fname tl b,
    ((fname = "and" /\ Forall truthy vs) \/ (fname = "or" /\ Forall falsy vs)) ->
    isGjsonTrue v = (b, true) ->
    (tl = [] \/ b = negb (String.eqb fname "and")) ->
    evalFunction dot fname (f :: pre ++ a :: tl) final s = Ret v s2).
  { intros fname tl b Hall Hv Hend.
    rewrite Hshape by (destruct Hall as [[-> _]|[-> _]]; auto).
    rewrite (andOr_skip_any fname pre vs s s1 (a :: tl) gjson.zero Hrun Hall).
    cbn [andOr]. unfold bind. rewrite Ha, Hv. simpl.
    destruct Hend as [-> | ->].
    - destruct (String.eqb fname "and"), b; reflexivity.
    - destruct (String.eqb fname "and"); reflexivity. }
  split; [intros Hall Hv; apply (Hstep "and" post false); auto|].
  split; [intros Hall Hv; apply (Hstep "and" [] true); auto|].
  split; [intros Hall Hv; apply (Hstep "or" post true); auto|].
  split; [intros Hall Hv; apply (Hstep "or" [] false); auto|].
  split.
  - rewrite evalFunction_and. cbn [andOr]. unfold bind, ret.
    assert (Htt : isGjsonTrue t = (true, true)).
    { unfold isGjsonTrue, gjson.Exists. rewrite Ht. reflexivity. }
    assert (Hee : isGjsonTrue e = (false, true)).
    { unfold isGjsonTrue, gjson.Exists. rewrite He, Hes. reflexivity. }
    rewrite Htt. simpl. rewrite Hee. reflexivity.
  - assert (Hrunf : forall s0, runs_to (map ret fs) s0 fs s0).
    { intros s0. induction fs as [|x xs IH]; [constructor|].
      apply Forall_cons in Hfs as [_ Hxs].
      simpl. econstructor; [reflexivity | by apply IH]. }
    assert (Hshape' : evalFunction dot "or" (f :: map ret fs ++ [ret arr]) final
                      = andOr "or" (map ret fs ++ [ret arr]) gjson.zero).
    { destruct fs; apply evalFunction_or. }
    rewrite Hshape'.
    rewrite (andOr_skip_any "or" (map ret fs) fs s s [ret arr] gjson.zero (Hrunf s));
      [|right; auto].
    cbn [andOr]. unfold bind, ret.
    assert (Haa : isGjsonTrue arr = (false, true)).
    { unfold isGjsonTrue. unfold gjson.IsArray in Harr.
      apply andb_prop in Harr as [Hty Hfb].
      unfold gjson.Exists, gjson.IsArray, gjson.IsObject.
      destruct (gjson.Typ arr); try discriminate Hty.
      rewrite Harr'. reflexivity. }
    rewrite Haa. reflexivity.
Qed.

End AndOr.

(** [and .Bool .Empty.String] over the first sample document is the empty
    string's value, and [or .Empty.String .Empty.Array] over the second,
    where Empty.String is absent, is the value of the array []. *)
Lemma C4_and_or_return_an_argument_witness :
  evalCommand Examples.dot0 Examples.and_command gjson.zero
     Examples.state0
  = Ret Examples.v_empty_string Examples.state0
  /\ evalCommand Examples.dot1 Examples.or_command gjson.zero
       Examples.state0
     = Ret Examples.v_empty_array Examples.state0.
Proof.
  split.
  - refine (proj1 (C4_and_or_return_an_argument (Ext:=Sample.externals)
              Examples.dot0 gjson.zero
              (evalArg Examples.dot0 (parse.IdentifierNode "and"))
              [evalArg Examples.dot0 (parse.FieldNode ["Bool"])]
              (evalArg Examples.dot0 (parse.FieldNode ["Empty"; "String"]))
              []
              Examples.state0 Examples.state0 Examples.state0
              [Examples.v_true] Examples.v_empty_string
              Examples.v_true Examples.v_empty_string Examples.v_empty_array
              [gjson.zero]
              _ eq_refl eq_refl eq_refl eq_refl _ eq_refl eq_refl) _ eq_refl).
    + econstructor; [reflexivity | constructor].
    + repeat constructor.
    + repeat constructor.
  - refine (proj1 (proj2 (proj2 (proj2 (C4_and_or_return_an_argument (Ext:=Sample.externals)
              Examples.dot1 gjson.zero
              (evalArg Examples.dot1 (parse.IdentifierNode "or"))
              [evalArg Examples.dot1 (parse.FieldNode ["Empty"; "String"])]
              (evalArg Examples.dot1 (parse.FieldNode ["Empty"; "Array"]))
              []
              Examples.state0 Examples.state0 Examples.state0
              [gjson.zero] Examples.v_empty_array
              Examples.v_true Examples.v_empty_string Examples.v_empty_array
              [gjson.zero]
              _ eq_refl eq_refl eq_refl eq_refl _ eq_refl eq_refl)))) _ eq_refl).
    + econstructor; [reflexivity | constructor].
    + repeat constructor.
    + repeat constructor.
Defined.

(* ===================================================================== *)
(** ** Actions and printValue *)
(* ===================================================================== *)

Section Action.

Context {T : SinkTypes} {Ext : Externals}.

(** C5.  An action evaluates its pipeline, which writes nothing; when the
    pipeline declares no identifier the action makes one write of the text
    printValue builds for the value, and when it declares identifiers the
    action writes nothing and returns with the state the pipeline left (the
    value is bound only).  The text is empty for an absent value, the
    unquoted text [Str] for a String, and the raw text for everything else,
    arrays and objects included. *)
Theorem C5_action_prints_unless_declaring
    (walkRoot : gjson.Result -> option (list parse.Node) -> Walk unit)
    (dot : gjson.Result) (p : parse.PipeNode) (s : state) (v : gjson.Result) :
  walkNode walkRoot dot (parse.ActionNode (Some p)) s
  = match evalPipe dot p s with
    | Ret val s1 =>
        match parse.Decl p with
        | [] => Some (write (printed val) s1)
        | _ :: _ => Some (Ret tt s1)
        end
    | Panic e s1 => Some (Panic e s1)
    end
  /\ wr (state_of (evalPipe dot p s)) = wr s
  /\ write (printed v) s
     = match Write (wr s) (printed v) with
       | (w, None) => Ret tt (set_wr s w)
       | (w, Some err) => Panic (PanicWriteError err) (set_wr s w)
       end
  /\ printed v
     = if negb (gjson.Exists v) then ""
       else if gjson.Type_eqb (gjson.Typ v) gjson.TString then gjson.Str v
       else gjson.Raw v.
Proof.
  split; [|split; [|split]].
  - simpl. unfold wbind, lift, printValue, wret.
    destruct (evalPipe dot p s) as [val s1|e s1]; [|reflexivity].
    destruct (parse.Decl p); reflexivity.
  - by destruct (evalPipe_frames dot p s) as [[_ Hw] _].
  - reflexivity.
  - unfold printed, String_, gjson.String_, gjson.IsObject, gjson.IsArray.
    destruct (negb (gjson.Exists v)); [reflexivity|].
    destruct (gjson.Typ v); simpl; try reflexivity.
    by destruct (_ || _).
Qed.

End Action.

(* ===================================================================== *)
(** ** Execute: the data check *)
(* ===================================================================== *)

Section DataCheck.

Context {T : SinkTypes} {Ext : Externals}.

(** C9, as the code has it.  The test is made on the value gjson.ParseBytes
    returns.  When that value is neither an object nor an array, execute
    returns the data-format error at once: the result does not depend on
    the template's tree or on the budget, and the sink is in the state it
    was given in, so nothing was written.  When it is one, the data is
    accepted and Execute does not return a fmt.Errorf value at all.  The
    test reads the type of the value and the first byte of its raw text
    and nothing else, so data is accepted exactly when the parser gives it
    the type JSON and the text starts with an opening brace or bracket:
    whether the text is a well-formed document is not looked at. *)
Theorem C9_rejects_data_that_is_no_object_or_array
    (t : Template) (w : Writer) (data : string) :
  (gjson.IsObject (ParseBytes data) = false ->
   gjson.IsArray (ParseBytes data) = false ->
   Execute t w data
   = Some (Returns
             (Some (ErrorfValue "template: %s: data must be a valid JSON object or array"
                      [ArgString (Name t)])) w)
   /\ forall budget root,
        execute_with budget
          {| Name := Name t; Root := root; missingKey := missingKey t;
             common := common t |} w data
        = Execute t w data)
  /\ (accepted data ->
      forall format args w',
        Execute t w data <> Some (Returns (Some (ErrorfValue format args)) w'))
  /\ (accepted data <->
      gjson.Typ (ParseBytes data) = gjson.TJSON
      /\ exists c rest,
           gjson.Raw (ParseBytes data) = String c rest
           /\ (c = "{"%char \/ c = "["%char)).
Proof.
  split; [|split].
  - intros Ho Ha.
    unfold Execute, execute, execute_with. rewrite Ho, Ha. simpl.
    split; [reflexivity | intros; reflexivity].
  - intros Hacc format args w'.
    unfold Execute, execute, execute_with.
    assert (Hguard : negb (gjson.IsObject (ParseBytes data))
                     && negb (gjson.IsArray (ParseBytes data)) = false).
    { destruct Hacc as [-> | ->]; [reflexivity | apply andb_false_r]. }
    rewrite Hguard.
    destruct (run _ t _ _) as [[[] s'|p s']|]; [discriminate| |discriminate].
    destruct p; simpl; discriminate.
  - unfold accepted, gjson.IsObject, gjson.IsArray, gjson.first_byte_is.
    destruct (gjson.Typ (ParseBytes data)); simpl;
      try (split; [intros [H|H]; discriminate H | intros [H _]; discriminate H]).
    destruct (gjson.Raw (ParseBytes data)) as [|c rest].
    + split; [intros [H|H]; discriminate H|].
      intros [_ (c & rest & H & _)]. discriminate H.
    + split.
      * intros [H|H]; apply Ascii.eqb_eq in H; subst c;
          (split; [reflexivity|]); eexists _, _; (split; [reflexivity|]); auto.
      * intros [_ (c' & rest' & [= -> ->] & [-> | ->])]; [left|right]; reflexivity.
Qed.

End DataCheck.

(** The bare scalar 7 is rejected by the sample instance with nothing
    written, whatever the template. *)
Lemma C9_rejects_data_that_is_no_object_or_array_witness :
  Execute (Examples.plain [parse.TextNode "hello"])
    (Examples.buffer 100) "7"
  = Some (Returns
            (Some (ErrorfValue "template: %s: data must be a valid JSON object or array"
                     [ArgString "t"])) (Examples.buffer 100)).
Proof.
  refine (proj1 (proj1 (C9_rejects_data_that_is_no_object_or_array (Ext:=Sample.externals)
                  (Examples.plain [parse.TextNode "hello"])
                  (Examples.buffer 100) "7") _ _)); vm_compute; reflexivity.
Defined.

(** C9 as stated fails on malformed data.  The text [{bad] is the text of
    no JSON value, but it starts with a brace: the sample parser, like
    gjson.Parse, gives it the type JSON without validating it, the data is
    accepted, and Execute writes the text of the template and returns
    nil. *)
Lemma C9_counterexample_malformed_data :
  (forall j : Sample.json, Sample.render j <> "{bad")
  /\ accepted "{bad"
  /\ Execute Examples.hello (Examples.buffer 100) "{bad"
     = Some (Returns None (Sample.mkbuffer "hello" 95)).
Proof.
  split; [|split].
  - intros j. destruct j as [|b|n|s|l|l].
    + discriminate.
    + destruct b; discriminate.
    + unfold Sample.render, Sample.digits, NilZero.string_of_int.
      destruct (Z.to_int n) as [d|d]; [|discriminate].
      destruct d; discriminate.
    + discriminate.
    + discriminate.
    + destruct l as [|[k v] [|kv rest]]; discriminate.
  - left. vm_compute. reflexivity.
  - vm_compute. reflexivity.
Qed.

(* ===================================================================== *)
(** ** Scopes *)
(* ===================================================================== *)

Section Scopes.

Context {T : SinkTypes} {Ext : Externals}.

(** findVar returns the last index below [i] that carries the name. *)
Lemma findVar_spec (vs : list variable) x i :
  match findVar vs x i with
  | Some j =>
      (j < i)%nat
      /\ (exists v, vs !! j = Some v /\ name v = x)
      /\ forall k v, (j < k < i)%nat -> vs !! k = Some v -> name v <> x
  | None => forall k v, (k < i)%nat -> vs !! k = Some v -> name v <> x
  end.
Proof.
  induction i as [|i IH]; simpl; [intros; lia|].
  assert (Hstep : match findVar vs x i with
    | Some j =>
        (forall v, vs !! i = Some v -> name v <> x) ->
        (j < S i)%nat
        /\ (exists v, vs !! j = Some v /\ name v = x)
        /\ forall k v, (j < k < S i)%nat -> vs !! k = Some v -> name v <> x
    | None =>
        (forall v, vs !! i = Some v -> name v <> x) ->
        forall k v, (k < S i)%nat -> vs !! k = Some v -> name v <> x
    end).
  { destruct (findVar vs x i) as [j|].
    - destruct IH as (Hj & Hv & Hlast). intros Hi. split; [lia|]. split; [exact Hv|].
      intros k v Hk Hkv. destruct (decide (k = i)) as [->|Hne]; [by apply Hi|].
      apply (Hlast k v); [lia | done].
    - intros Hi k v Hk Hkv. destruct (decide (k = i)) as [->|Hne]; [by apply Hi|].
      apply (IH k v); [lia | done]. }
  destruct (vs !! i) as [v|] eqn:E.
  - destruct (String.eqb_spec (name v) x) as [Heq|Hne].
    + split; [lia|]. split; [by exists v|]. intros; lia.
    + destruct (findVar vs x i); apply Hstep; by intros v' [= <-].
  - destruct (findVar vs x i); apply Hstep; discriminate.
Qed.

(** A name is resolvable exactly when it is on the stack. *)
Lemma resolvable_names x s : resolvable x s <-> x ∈ names s.
Proof.
  unfold resolvable, varValue, names, mark.
  pose proof (findVar_spec (vars s) x (length (vars s))) as H.
  destruct (findVar (vars s) x (length (vars s))) as [j|].
  - destruct H as (_ & (v & Hv & Hn) & _). rewrite Hv. split.
    + intros _. apply list_elem_of_fmap. exists v. split; [done|].
      by apply list_elem_of_lookup_2 in Hv.
    + intros _. by exists (value v).
  - split.
    + intros [v Hv]. discriminate Hv.
    + intros Hin. apply list_elem_of_fmap in Hin as (v & -> & Hv).
      apply list_elem_of_lookup in Hv as [k Hk].
      destruct (H k v); [by apply lookup_lt_Some in Hk | done | done].
Qed.

Lemma same_names_resolvable s s' x :
  names s' = names s -> (resolvable x s' <-> resolvable x s).
Proof. intros H. by rewrite !resolvable_names, H. Qed.

(** A pipeline is its commands followed by its declarations. *)
Lemma evalPipe_unfold dot a d c s :
  evalPipe dot (parse.mkPipeNode a d c) s
  = match evalPipe dot (parse.mkPipeNode false [] c) s with
    | Ret val s0 =>
        match declare a d val s0 with
        | Ret _ s1 => Ret val s1
        | Panic p s1 => Panic p s1
        end
    | Panic p s0 => Panic p s0
    end.
Proof.
  simpl. unfold bind.
  match goal with |- context [match ?m s with _ => _ end] => destruct (m s) end;
    reflexivity.
Qed.


Lemma declare_pushes decl val s s' :
  declare false decl val s = Ret tt s' ->
  vars s' = vars s ++ map (pushed val) decl /\ wr s' = wr s.
Proof.
  revert s. induction decl as [|d rest IH]; intros s; simpl.
  - intros [= <-]. by rewrite app_nil_r.
  - destruct (parse.Ident d) as [|x xs] eqn:E; [discriminate|].
    unfold bind, push. intros H. apply IH in H as [H Hw]. simpl in *.
    rewrite H, <- app_assoc. unfold pushed at 2. by rewrite E.
Qed.

(** A name pushed last with a value resolves to that value. *)
Lemma varValue_pushed s base top x val :
  vars s = base ++ top ->
  Forall (fun v => value v = val) top ->
  x ∈ (name <$> top) ->
  varValue x s = Ret val s.
Proof.
  intros Hvars Hval Hin. unfold varValue, mark.
  pose proof (findVar_spec (vars s) x (length (vars s))) as H.
  apply list_elem_of_fmap in Hin as (v & -> & Hv).
  apply list_elem_of_lookup in Hv as [k Hk].
  assert (Hk' : vars s !! (length base + k)%nat = Some v).
  { rewrite Hvars. by rewrite lookup_app_r, Nat.add_comm, Nat.add_sub by lia. }
  destruct (findVar (vars s) (name v) (length (vars s))) as [j|].
  - destruct H as (Hj & (w & Hw & Hn) & Hlast). rewrite Hw.
    assert (Hge : (length base <= j)%nat).
    { destruct (decide (length base + k <= j)%nat); [lia|].
      destruct (Hlast (length base + k)%nat v); [|done|done].
      split; [lia|]. by apply lookup_lt_Some in Hk'. }
    rewrite Hvars, lookup_app_r in Hw by lia.
    apply list_elem_of_lookup_2 in Hw.
    rewrite Forall_forall in Hval. by rewrite (Hval w Hw).
  - destruct (H (length base + k)%nat v); [|done|done].
    by apply lookup_lt_Some in Hk'.
Qed.

(** What a declaring pipeline leaves: the stack is longer by at least the
    declarations, and on every stack equal to it each declared name
    resolves to the pipeline's value. *)
Lemma evalPipe_declared_resolve dot p s v s0 :
  parse.IsAssign p = false ->
  evalPipe dot p s = Ret v s0 ->
  (length (vars s) + length (parse.Decl p) <= length (vars s0))%nat
  /\ forall s' d x rest,
       vars s' = vars s0 ->
       d ∈ parse.Decl p -> parse.Ident d = x :: rest ->
       varValue x s' = Ret v s'.
Proof.
  intros Hassign Ev.
  destruct p as [a d c]. simpl in Hassign. subst a.
  rewrite evalPipe_unfold in Ev.
  pose proof (evalPipe_frames dot (parse.mkPipeNode false [] c) s) as [[Hext _] _].
  destruct (evalPipe dot (parse.mkPipeNode false [] c) s) as [val s1|q s1];
    [|discriminate].
  destruct (declare false d val s1) as [[] s1'|q s1'] eqn:Ed; [|discriminate].
  injection Ev as <- <-.
  apply declare_pushes in Ed as [Hvars _].
  apply ext_length in Hext. simpl in Hext.
  split.
  - rewrite Hvars, length_app, length_map. simpl. lia.
  - intros s' d0 x rest Hs' Hd Hid.
    assert (Hv : varValue x s1' = Ret val s1').
    { eapply varValue_pushed; [exact Hvars | |].
      - apply Forall_forall. intros w Hw.
        apply list_elem_of_In, in_map_iff in Hw as (d1 & <- & _). reflexivity.
      - apply list_elem_of_fmap. exists (pushed val d0). split.
        + unfold pushed. by rewrite Hid.
        + apply list_elem_of_In, in_map, list_elem_of_In, Hd. }
    unfold varValue, mark in *. rewrite Hs'.
    destruct (findVar (vars s1') x (length (vars s1'))); [|discriminate].
    destruct (vars s1' !! n); [|discriminate].
    by injection Hv as ->.
Qed.

End Scopes.

Section ScopeClaims.

Context {T : SinkTypes} {Ext : Externals}.

(** C1, as the code has it.  An if, with or range node leaves the variable
    stack with the names, and so the length, it was entered with, whatever
    way the walk of the node ends: a normal return or a panic, be it a loop
    signal or a fault.  A name is therefore resolvable after the block
    exactly when it was before it, and nothing declared inside is.  A
    template call takes no mark.  When the name is not found, or the depth
    is at the ceiling, the call fails in the state it was entered in.
    Otherwise the stack it leaves is the one the evaluation of the call's
    pipeline left, whether the pipeline or the called template returned or
    panicked: the called template is walked on a stack of its own that
    holds only $, bound to the pipeline's value, and of the state it ends
    in only the sink reaches the caller, so nothing it declares does.  What
    the call's own pipeline declares stays: after the call the stack is
    longer by at least the declarations and every declared name resolves
    to the pipeline's value. *)
Theorem C1_if_with_range_restore_the_scope
    (walkRoot : gjson.Result -> option (list parse.Node) -> Walk unit)
    (dot : gjson.Result) (node : parse.Node) (pipe : option parse.PipeNode)
    (l : list parse.Node) (e : option (list parse.Node)) (nm : string)
    (s : state) (r : result unit) :
  walkNode walkRoot dot node s = Some r ->
  (node = parse.IfNode pipe l e \/ node = parse.WithNode pipe l e
   \/ node = parse.RangeNode pipe l e ->
   length (vars (state_of r)) = length (vars s)
   /\ names (state_of r) = names s
   /\ forall x, resolvable x (state_of r) <-> resolvable x s)
  /\ (node = parse.TemplateNode nm pipe ->
      (Lookup (tmpl s) nm = None \/ depth s = maxExecDepth -> state_of r = s)
      /\ forall t', Lookup (tmpl s) nm = Some t' -> depth s <> maxExecDepth ->
           vars (state_of r) = vars (state_of (evalPipeline dot pipe s))
           /\ (forall val s0, evalPipeline dot pipe s = Ret val s0 ->
                 vars (newState s0 t' val) = [mkvariable "$" val]
                 /\ exists r',
                      walkRoot val (Root t') (newState s0 t' val) = Some r'
                      /\ outcome_of r = outcome_of r'
                      /\ state_of r = set_wr s0 (wr (state_of r')))
           /\ (forall p val s0,
                 pipe = Some p -> parse.IsAssign p = false ->
                 evalPipeline dot pipe s = Ret val s0 ->
                 (length (vars s) + length (parse.Decl p)
                  <= length (vars (state_of r)))%nat
                 /\ forall d x rest,
                      d ∈ parse.Decl p -> parse.Ident d = x :: rest ->
                      resolvable x (state_of r)
                      /\ varValue x (state_of r) = Ret val (state_of r))).
Proof.
  intros Hr. split.
  - intros Hnode.
    assert (Hsame : same_scope s (state_of r)).
    { destruct Hnode as [-> | [-> | ->]].
      - rewrite walkNode_If in Hr.
        eapply walkIfOrWith_same_scope; [| |exact Hr];
          intros; apply walkNodes_wframes.
      - rewrite walkNode_With in Hr.
        eapply walkIfOrWith_same_scope; [| |exact Hr];
          intros; apply walkNodes_wframes.
      - rewrite walkNode_Range in Hr.
        eapply walkRange_same_scope; [| |exact Hr];
          intros; apply walkNodes_wframes. }
    split; [by apply same_scope_length|].
    destruct Hsame as [_ Hn]. split; [exact Hn|].
    intros x. by apply same_names_resolvable.
  - intros ->. rewrite walkNode_Template in Hr. unfold walkTemplate in Hr.
    split.
    + intros [Hl | Hd].
      * rewrite Hl in Hr. by injection Hr as <-.
      * destruct (Lookup (tmpl s) nm); [|by injection Hr as <-].
        apply Z.eqb_eq in Hd. rewrite Hd in Hr. by injection Hr as <-.
    + intros t' Hl Hd. rewrite Hl in Hr. apply Z.eqb_neq in Hd. rewrite Hd in Hr.
      assert (Hvars : vars (state_of r) = vars (state_of (evalPipeline dot pipe s))).
      { destruct (evalPipeline dot pipe s) as [dot' s1|p s1];
          [|by injection Hr as <-].
        destruct (walkRoot _ _ _) as [[a s2|p s2]|]; [| |discriminate];
          by injection Hr as <-. }
      split; [exact Hvars|]. split.
      * intros val s0 Ev. split; [reflexivity|]. rewrite Ev in Hr.
        destruct (walkRoot val (Root t') (newState s0 t' val)) as [[[] s2|p s2]|];
          [| |discriminate]; injection Hr as <-; eexists; (split; [reflexivity|]);
          split; reflexivity.
      * intros p val s0 -> Ha Ev. rewrite Ev in Hvars. simpl in Hvars.
        destruct (evalPipe_declared_resolve dot p s val s0 Ha Ev) as [Hlen Hres].
        split; [by rewrite Hvars|].
        intros d x rest Hin Hid.
        pose proof (Hres (state_of r) d x rest Hvars Hin Hid) as Hv.
        split; [by exists val | exact Hv].
Qed.

(** C10.  A variable declared in the pipeline of a template call is still
    bound when the call has returned: the caller's stack is then the one the
    pipeline's evaluation left, on which every declared name resolves to
    the pipeline's value, and which is longer than the stack the call was
    entered with by at least the number of declarations. *)
Theorem C10_template_call_keeps_pipeline_declarations
    (walkRoot : gjson.Result -> option (list parse.Node) -> Walk unit)
    (dot : gjson.Result) (nm : string) (p : parse.PipeNode) (s s' : state) :
  parse.IsAssign p = false ->
  walkTemplate walkRoot dot nm (Some p) s = Some (Ret tt s') ->
  exists v s1,
    evalPipe dot p s = Ret v s1
    /\ vars s' = vars s1
    /\ (length (vars s) + length (parse.Decl p) <= length (vars s'))%nat
    /\ forall d x rest,
         d ∈ parse.Decl p -> parse.Ident d = x :: rest ->
         varValue x s' = Ret v s'.
Proof.
  intros Hassign Hr. unfold walkTemplate in Hr.
  destruct (Lookup (tmpl s) nm); [|discriminate].
  destruct (depth s =? maxExecDepth)%Z; [discriminate|].
  simpl evalPipeline in Hr.
  destruct (evalPipe dot p s) as [v s1|q s1] eqn:Ev; [|discriminate].
  assert (Hs' : vars s' = vars s1).
  { destruct (walkRoot _ _ _) as [[a s2|q s2]|]; [|discriminate..].
    by injection Hr as <-. }
  exists v, s1. split; [reflexivity|]. split; [exact Hs'|].
  destruct p as [a d c]. simpl in Hassign. subst a.
  rewrite evalPipe_unfold in Ev.
  pose proof (evalPipe_frames dot (parse.mkPipeNode false [] c) s) as [[Hext _] _].
  destruct (evalPipe dot (parse.mkPipeNode false [] c) s) as [val s0|q s0];
    [|discriminate].
  destruct (declare false d val s0) as [[] s1'|q s1'] eqn:Ed; [|discriminate].
  injection Ev as <- <-.
  apply declare_pushes in Ed as [Hvars _].
  apply ext_length in Hext. simpl in Hext.
  split.
  - rewrite Hs', Hvars, length_app, length_map. simpl. lia.
  - intros d0 x rest Hd Hid.
    assert (Hv : varValue x s1' = Ret val s1').
    { eapply varValue_pushed; [exact Hvars | |].
      - apply Forall_forall. intros w Hw.
        apply list_elem_of_In, in_map_iff in Hw as (d1 & <- & _). reflexivity.
      - apply list_elem_of_fmap. exists (pushed val d0). split.
        + unfold pushed. by rewrite Hid.
        + apply list_elem_of_In, in_map, list_elem_of_In, Hd. }
    unfold varValue, mark in *. rewrite Hs'.
    destruct (findVar (vars s1') x (length (vars s1'))); [|discriminate].
    destruct (vars s1' !! n); [|discriminate].
    by injection Hv as ->.
Qed.

End ScopeClaims.

(** C1 as stated fails on a template call.  In the sample template set
    [{{template "sub" $x := .Number}}] returns normally with a stack of two
    variables where it was entered with one, and $x, declared in the call,
    is resolvable after it. *)
Lemma C1_counterexample_template_call :
  exists s' : state,
    walk 1 Examples.dot0 Examples.call_declaring
      Examples.main_state = Some (Ret tt s')
    /\ length (vars Examples.main_state) = 1%nat
    /\ length (vars s') = 2%nat
    /\ ~ resolvable "$x" Examples.main_state
    /\ varValue "$x" s' = Ret Examples.v_42 s'.
Proof.
  let r := eval vm_compute in
    (walk 1 Examples.dot0 Examples.call_declaring
       Examples.main_state) in
  lazymatch r with Some (Ret tt ?s) => exists s end.
  split; [vm_compute; reflexivity|].
  split; [reflexivity|]. split; [reflexivity|].
  split; [|vm_compute; reflexivity].
  intros Hx. apply resolvable_names in Hx.
  apply list_elem_of_In in Hx. vm_compute in Hx.
  destruct Hx as [Hx | []]. discriminate Hx.
Qed.

(** The if, the with and the range of the examples, each declaring $x,
    are walked to a result over the sample state and leave its stack as it
    was: one variable, $.  The template call that declares $x leaves $ and
    $x, and $x resolves to 42. *)
Lemma C1_if_with_range_restore_the_scope_witness :
  exists r1 r2 r3 r4 : result unit,
    (walk 1 Examples.dot0 Examples.if_declaring
       Examples.main_state = Some r1
     /\ names (state_of r1) = ["$"])
    /\ (walk 1 Examples.dot0 Examples.with_declaring
          Examples.main_state = Some r2
        /\ names (state_of r2) = ["$"])
    /\ (walk 1 Examples.dot0 Examples.range_declaring
          Examples.main_state = Some r3
        /\ names (state_of r3) = ["$"])
    /\ (walk 1 Examples.dot0 Examples.call_declaring
          Examples.main_state = Some r4
        /\ names (state_of r4) = ["$"; "$x"]
        /\ varValue "$x" (state_of r4) = Ret Examples.v_42 (state_of r4)).
Proof.
  let r1 := eval vm_compute in
    (walk 1 Examples.dot0 Examples.if_declaring
       Examples.main_state) in
  let r2 := eval vm_compute in
    (walk 1 Examples.dot0 Examples.with_declaring
       Examples.main_state) in
  let r3 := eval vm_compute in
    (walk 1 Examples.dot0 Examples.range_declaring
       Examples.main_state) in
  let r4 := eval vm_compute in
    (walk 1 Examples.dot0 Examples.call_declaring
       Examples.main_state) in
  lazymatch constr:((r1, r2, r3, r4)) with
  | (Some ?x1, Some ?x2, Some ?x3, Some ?x4) => exists x1, x2, x3, x4
  end.
  assert (H1 : walk 1 Examples.dot0 Examples.if_declaring
                 Examples.main_state = Some _) by (vm_compute; reflexivity).
  assert (H2 : walk 1 Examples.dot0 Examples.with_declaring
                 Examples.main_state = Some _) by (vm_compute; reflexivity).
  assert (H3 : walk 1 Examples.dot0 Examples.range_declaring
                 Examples.main_state = Some _) by (vm_compute; reflexivity).
  assert (H4 : walk 1 Examples.dot0 Examples.call_declaring
                 Examples.main_state = Some _) by (vm_compute; reflexivity).
  split; [|split; [|split]].
  - split; [exact H1|].
    exact (proj1 (proj2 (proj1 (@C1_if_with_range_restore_the_scope
      _ Sample.externals _ _ _ _ _ _ "" _ _ H1) (or_introl eq_refl)))).
  - split; [exact H2|].
    exact (proj1 (proj2 (proj1 (@C1_if_with_range_restore_the_scope
      _ Sample.externals _ _ _ _ _ _ "" _ _ H2) (or_intror (or_introl eq_refl))))).
  - split; [exact H3|].
    exact (proj1 (proj2 (proj1 (@C1_if_with_range_restore_the_scope
      _ Sample.externals _ _ _ _ _ _ "" _ _ H3) (or_intror (or_intror eq_refl))))).
  - split; [exact H4|].
    pose proof (proj2 (proj2 (@C1_if_with_range_restore_the_scope
      _ Sample.externals (walkRootWith 1) Examples.dot0 Examples.call_declaring
      (Some (Examples.declare_x [parse.FieldNode ["Number"]])) [] None "sub"
      Examples.main_state _ H4) eq_refl)) as Hcall.
    let t' := eval vm_compute in (Lookup (tmpl Examples.main_state) "sub") in
    lazymatch t' with
    | Some ?t =>
        assert (Hl : Lookup (tmpl Examples.main_state) "sub" = Some t)
          by (vm_compute; reflexivity);
        assert (Hd : depth Examples.main_state <> maxExecDepth)
          by (intros H; vm_compute in H; discriminate H);
        destruct (Hcall t Hl Hd) as (Hvars & _ & Hdecl)
    end.
    split.
    + etransitivity; [exact (f_equal (fmap name) Hvars)|].
      vm_compute. reflexivity.
    + let r := eval vm_compute in
        (evalPipeline Examples.dot0
           (Some (Examples.declare_x [parse.FieldNode ["Number"]]))
           Examples.main_state) in
      lazymatch r with
      | Ret ?v ?s0 =>
          assert (Ev : evalPipeline Examples.dot0
                         (Some (Examples.declare_x [parse.FieldNode ["Number"]]))
                         Examples.main_state = Ret v s0)
            by (vm_compute; reflexivity);
          destruct (Hdecl _ v s0 eq_refl eq_refl Ev) as [_ Hres]
      end.
      refine (proj2 (Hres (parse.mkVariableNode ["$x"]) "$x" [] _ eq_refl)).
      apply list_elem_of_here.
Defined.

(** In the sample template set the call [{{template "sub" $x := .Number}}]
    returns with $x bound to 42 on the caller's stack. *)
Lemma C10_template_call_keeps_pipeline_declarations_witness :
  exists s' : state,
    walkTemplate (walkRootWith 1) Examples.dot0 "sub"
      (Some (Examples.declare_x [parse.FieldNode ["Number"]]))
      Examples.main_state = Some (Ret tt s')
    /\ varValue "$x" s' = Ret Examples.v_42 s'.
Proof.
  let r := eval vm_compute in
    (walkTemplate (walkRootWith 1) Examples.dot0 "sub"
       (Some (Examples.declare_x [parse.FieldNode ["Number"]]))
       Examples.main_state) in
  lazymatch r with Some (Ret tt ?s) => exists s end.
  assert (H : walkTemplate (walkRootWith 1) Examples.dot0 "sub"
                (Some (Examples.declare_x [parse.FieldNode ["Number"]]))
                Examples.main_state = Some (Ret tt _))
    by (vm_compute; reflexivity).
  split; [exact H|].
  destruct (C10_template_call_keeps_pipeline_declarations (Ext:=Sample.externals)
              (walkRootWith 1) Examples.dot0 "sub"
              (Examples.declare_x [parse.FieldNode ["Number"]])
              Examples.main_state _ eq_refl H) as (v & s1 & Hv & _ & _ & Hres).
  assert (Hv' : fst (match evalPipe Examples.dot0
                             (Examples.declare_x [parse.FieldNode ["Number"]])
                             Examples.main_state with
                     | Ret v _ => (v, true) | Panic _ _ => (gjson.zero, false)
                     end) = Examples.v_42) by (vm_compute; reflexivity).
  rewrite Hv in Hv'. simpl in Hv'. subst v.
  refine (Hres (parse.mkVariableNode ["$x"]) "$x" [] _ eq_refl).
  apply list_elem_of_here.
Defined.

(* ===================================================================== *)
(** ** Loop signals *)
(* ===================================================================== *)

Section LoopSignals.

Context {T : SinkTypes} {Ext : Externals}.

Variable walkList : gjson.Result -> list parse.Node -> Walk unit.

(** The recovery point of one iteration: panic(walkContinue) is consumed,
    the stack is popped to the loop's mark either way. *)
Lemma oneIteration_recovery pipe l m index elem s s1 :
  bindLoopVars pipe index elem s = Ret tt s1 ->
  oneIteration walkList pipe l m index elem s
  = match walkList elem l s1 with
    | Some (Ret _ s2) => Some (Ret tt (pop m s2))
    | Some (Panic p s2) =>
        if is_walkContinue p then Some (Ret tt (pop m s2))
        else Some (Panic p (pop m s2))
    | None => None
    end.
Proof.
  intros H. unfold oneIteration, wbind, lift. rewrite H.
  unfold defer_pop, recover_only.
  destruct (walkList elem l s1) as [[[] s2|p s2]|]; try reflexivity.
  by destruct (is_walkContinue p).
Qed.

(** The recovery point of the loop: panic(walkBreak) is consumed, the stack
    is popped to the mark taken on entry either way. *)
Lemma walkRange_recovery dot pipe l e s :
  walkRange walkList dot pipe l e s
  = match walkRangeBody walkList dot pipe l e s with
    | Some (Ret _ s') => Some (Ret tt (pop (mark s) s'))
    | Some (Panic p s') =>
        if is_walkBreak p then Some (Ret tt (pop (mark s) s'))
        else Some (Panic p (pop (mark s) s'))
    | None => None
    end.
Proof.
  unfold walkRange, recover_only, defer_pop.
  destruct (walkRangeBody walkList dot pipe l e s) as [[[] s'|p s']|];
    reflexivity.
Qed.

Section Rounds.

Variable one : gjson.Result -> gjson.Result -> Walk unit.

Lemma iterate_cons index elem rest s :
  iterate one ((index, elem) :: rest) s
  = match one index elem s with
    | Some (Ret _ s') => iterate one rest s'
    | Some (Panic p s') => Some (Panic p s')
    | None => None
    end.
Proof. reflexivity. Qed.

Lemma rangeArray_iterate elems i s :
  rangeArray one elems i s = iterate one (arrayRounds elems i) s.
Proof.
  revert i s. induction elems as [|elem rest IH]; intros i s; [reflexivity|].
  cbn [rangeArray arrayRounds]. rewrite iterate_cons. unfold wbind.
  destruct (one _ elem s) as [[a s'|p s']|]; [apply IH|reflexivity..].
Qed.

Lemma rangeObject_iterate pairs s :
  rangeObject one pairs s = iterate one pairs s.
Proof.
  revert s. induction pairs as [|[key val] rest IH]; intros s; [reflexivity|].
  cbn [rangeObject]. rewrite iterate_cons. unfold wbind.
  destruct (one key val s) as [[a s'|p s']|]; [apply IH|reflexivity..].
Qed.

Lemma rangeCount_iterate todo i s :
  rangeCount one todo i s = iterate one (countRounds todo i) s.
Proof.
  revert i s. induction todo as [|todo IH]; intros i s; [reflexivity|].
  cbn [rangeCount countRounds]. rewrite iterate_cons. unfold wbind.
  destruct (one _ _ s) as [[a s'|p s']|]; [apply IH|reflexivity..].
Qed.

Lemma rangeRunes_iterate runes s :
  rangeRunes one runes s = iterate one (runeRounds runes) s.
Proof.
  revert s. induction runes as [|[i r] rest IH]; intros s; [reflexivity|].
  cbn [rangeRunes runeRounds map fst snd]. rewrite iterate_cons. unfold wbind.
  destruct (one _ _ s) as [[a s'|p s']|]; [apply IH|reflexivity..].
Qed.

(** The iterations after the ones that returned. *)
Lemma iterate_app pre rest s sk :
  iterate one pre s = Some (Ret tt sk) ->
  iterate one (pre ++ rest) s = iterate one rest sk.
Proof.
  revert s. induction pre as [|[index elem] pre IH]; intros s.
  - by intros [= ->].
  - cbn [app]. rewrite !iterate_cons.
    destruct (one index elem s) as [[a s'|p s']|]; [apply IH|discriminate..].
Qed.

End Rounds.

(** Over a value that has something to iterate over, the body of walkRange
    is the iterations over its rounds. *)
Lemma walkRangeBody_rounds dot p l e s val s0 :
  evalPipeline dot (Some p) s = Ret val s0 ->
  iterable val = true -> empty_range val = false ->
  (is_Number val = true -> (length (parse.Decl p) <= 1)%nat) ->
  walkRangeBody walkList dot (Some p) l e s
  = iterate (oneIteration walkList (Some p) l (mark s0)) (rounds val) s0.
Proof.
  intros Hp Hit Hne Hdecl. unfold walkRangeBody, wbind, lift.
  rewrite Hp. unfold iterable, empty_range, rounds in *.
  destruct (gjson.IsArray val).
  { destruct (Array val) as [|x rest] eqn:Ea; [done|]. apply rangeArray_iterate. }
  destruct (gjson.IsObject val).
  { rewrite Hne. apply rangeObject_iterate. }
  destruct (is_Number val).
  { specialize (Hdecl eq_refl). unfold rangePipe, ret.
    destruct (Z.ltb_spec 1 (len (parse.Decl p))); [unfold len in *; lia|].
    rewrite Hne. apply rangeCount_iterate. }
  destruct (is_String val); [|done].
  rewrite Hne. apply rangeRunes_iterate.
Qed.

(** C6.  Take any iteration of a range: the pipeline's value has something
    to iterate over, be it an array, an object, a number or a string (a
    number in a range that declares two variables is an error before any
    iteration is made); the iterations before this one returned; this one
    binds the loop variables and the walk of the body ends in a panic [p].
    If [p] is the Continue signal, the iteration returns there with the
    stack popped to the loop's mark, and the loop goes on with the
    iterations that remain.  If [p] is the Break signal, no further
    iteration is made, the else-list is not walked, and the range returns
    normally.  Any other panic, an execution fault or a write error, passes
    both recovery points and leaves the range as the same panic.  The two recovery points of walkRange are the only
    ones: break and continue nodes raise the signals, an if, a with and a
    template call pass a panic of their body on unchanged, and errRecover
    does not turn the signals into returned errors. *)
Theorem C6_loop_signals
    (walkRoot : gjson.Result -> option (list parse.Node) -> Walk unit)
    (dot : gjson.Result) (pipe : option parse.PipeNode) (l : list parse.Node)
    (e : option (list parse.Node)) (s s0 sk s1 s2 : state)
    (val index elem : gjson.Result)
    (pre post : list (gjson.Result * gjson.Result)) (p : panic) :
  evalPipeline dot pipe s = Ret val s0 ->
  iterable val = true -> empty_range val = false ->
  (is_Number val = true ->
   forall q, pipe = Some q -> (length (parse.Decl q) <= 1)%nat) ->
  rounds val = pre ++ (index, elem) :: post ->
  iterate (oneIteration walkList pipe l (mark s0)) pre s0 = Some (Ret tt sk) ->
  bindLoopVars pipe index elem sk = Ret tt s1 ->
  walkList elem l s1 = Some (Panic p s2) ->
  (p = walkContinue ->
   oneIteration walkList pipe l (mark s0) index elem sk
   = Some (Ret tt (pop (mark s0) s2))
   /\ walkRangeBody walkList dot pipe l e s
      = iterate (oneIteration walkList pipe l (mark s0)) post (pop (mark s0) s2))
  /\ (p = walkBreak ->
      walkRange walkList dot pipe l e s
      = Some (Ret tt (pop (mark s) (pop (mark s0) s2))))
  /\ (is_walkBreak p = false -> is_walkContinue p = false ->
      walkRange walkList dot pipe l e s
      = Some (Panic p (pop (mark s) (pop (mark s0) s2))))
  /\ walkNode walkRoot dot parse.BreakNode s = Some (Panic walkBreak s)
  /\ walkNode walkRoot dot parse.ContinueNode s = Some (Panic walkContinue s)
  /\ (forall typ truth q s3,
        isGjsonTrue val = (truth, true) ->
        match truth, typ with
        | true, NodeWith => walkList val l s0
        | true, NodeIf => walkList dot l s0
        | false, _ => walkElse walkList dot e s0
        end = Some (Panic q s3) ->
        walkIfOrWith walkList typ dot pipe l e s
        = Some (Panic q (pop (mark s) s3)))
  /\ (forall nm t' q s3,
        Lookup (tmpl s) nm = Some t' ->
        depth s <> maxExecDepth ->
        walkRoot val (Root t') (newState s0 t' val) = Some (Panic q s3) ->
        walkTemplate walkRoot dot nm pipe s
        = Some (Panic q (set_wr s0 (wr s3))))
  /\ errRecover walkBreak = inr walkBreak
  /\ errRecover walkContinue = inr walkContinue.
Proof.
  intros Hp Hit Hne Hdecl Hrounds Hpre Hb Hbody.
  set (one := oneIteration walkList pipe l (mark s0)).
  assert (Hone : one index elem sk
                 = if is_walkContinue p then Some (Ret tt (pop (mark s0) s2))
                   else Some (Panic p (pop (mark s0) s2))).
  { unfold one. rewrite (oneIteration_recovery _ _ _ _ _ _ _ Hb), Hbody.
    reflexivity. }
  assert (Hloop : walkRangeBody walkList dot pipe l e s
                  = match one index elem sk with
                    | Some (Ret _ s') => iterate one post s'
                    | Some (Panic q s') => Some (Panic q s')
                    | None => None
                    end).
  { destruct pipe as [q|]; [|discriminate Hb].
    rewrite (walkRangeBody_rounds dot q l e s val s0 Hp Hit Hne
               (fun H => Hdecl H q eq_refl)).
    rewrite Hrounds. fold one. rewrite (iterate_app one pre _ s0 sk Hpre).
    apply iterate_cons. }
  rewrite Hone in Hloop.
  split; [intros ->; split; [exact Hone | exact Hloop]|].
  split; [intros ->; rewrite walkRange_recovery, Hloop; reflexivity|].
  split.
  { intros HB HC. rewrite walkRange_recovery, Hloop, HC, HB. reflexivity. }
  split; [reflexivity|]. split; [reflexivity|].
  split.
  { intros typ truth q s3 Ht Hw. unfold walkIfOrWith, defer_pop, wbind, lift.
    rewrite Hp, Ht. simpl.
    destruct truth; [destruct typ|]; unfold walkElse in Hw; by rewrite Hw. }
  split; [|split; reflexivity].
  intros nm t' q s3 Hl Hd Hw. unfold walkTemplate.
  rewrite Hl. apply Z.eqb_neq in Hd. rewrite Hd, Hp, Hw. reflexivity.
Qed.

End LoopSignals.

(** Over the sample document, whose Array is [1,2,3], with the body
    [{{.}}{{break}},] the range returns normally after printing 1, and with
    a call of an undefined template in place of the break it ends in that
    fault, after printing 1 as well, both in the first iteration; with
    [{{continue}}], taken in the second iteration, all three elements are
    printed and no comma is. *)
Lemma C6_loop_signals_witness :
  exists (sB sC sF : state) (eF : ExecError),
    (walkRange Examples.walkList1 Examples.dot0
       Examples.array_pipe Examples.body_break None Examples.main_state
     = Some (Ret tt sB)
     /\ Sample.written (wr sB) = "1")
    /\ (walkRangeBody Examples.walkList1 Examples.dot0
          Examples.array_pipe Examples.body_continue None Examples.main_state
        = Some (Ret tt sC)
        /\ Sample.written (wr sC) = "123")
    /\ (walkRange Examples.walkList1 Examples.dot0
          Examples.array_pipe Examples.body_fault None Examples.main_state
        = Some (Panic (PanicExecError eF) sF)
        /\ ErrFormat eF = "template %q not defined"
        /\ Sample.written (wr sF) = "1").
Proof.
  let rB := eval vm_compute in
    (walkRange Examples.walkList1 Examples.dot0
       Examples.array_pipe Examples.body_break None Examples.main_state) in
  let rC := eval vm_compute in
    (walkRangeBody Examples.walkList1 Examples.dot0
       Examples.array_pipe Examples.body_continue None Examples.main_state) in
  let rF := eval vm_compute in
    (walkRange Examples.walkList1 Examples.dot0
       Examples.array_pipe Examples.body_fault None Examples.main_state) in
  lazymatch constr:((rB, rC, rF)) with
  | (Some (Ret tt ?sB), Some (Ret tt ?sC), Some (Panic (PanicExecError ?eF) ?sF)) =>
      exists sB, sC, sF, eF
  end.
  pose (oneC := oneIteration Examples.walkList1 Examples.array_pipe
                  Examples.body_continue (mark Examples.main_state)).
  let rs := eval vm_compute in (rounds Examples.v_array) in
  lazymatch rs with
  | [(?i0, ?e0); (?i1, ?e1); (?i2, ?e2)] =>
      let kC := eval vm_compute in (iterate oneC [(i0, e0)] Examples.main_state) in
      let bB := eval vm_compute in
        (Examples.walkList1 e0 Examples.body_break Examples.main_state) in
      let bF := eval vm_compute in
        (Examples.walkList1 e0 Examples.body_fault Examples.main_state) in
      lazymatch constr:((kC, bB, bF)) with
      | (Some (Ret tt ?sk), Some (Panic _ ?s2B), Some (Panic ?pF ?s2F)) =>
          let bC := eval vm_compute in
            (Examples.walkList1 e1 Examples.body_continue sk) in
          lazymatch bC with
          | Some (Panic _ ?s2C) =>
              (* the break and the fault in the first iteration *)
              pose proof (proj1 (proj2 (C6_loop_signals (Ext:=Sample.externals) Examples.walkList1
                (walkRootWith 1) Examples.dot0 Examples.array_pipe
                Examples.body_break None
                Examples.main_state Examples.main_state Examples.main_state
                Examples.main_state s2B Examples.v_array i0 e0
                [] [(i1, e1); (i2, e2)] walkBreak
                ltac:(vm_compute; reflexivity) ltac:(vm_compute; reflexivity)
                ltac:(vm_compute; reflexivity)
                ltac:(intros H; vm_compute in H; discriminate H)
                ltac:(vm_compute; reflexivity) ltac:(reflexivity)
                ltac:(vm_compute; reflexivity)
                ltac:(vm_compute; reflexivity))) eq_refl) as HB;
              pose proof (proj1 (proj2 (proj2 (C6_loop_signals (Ext:=Sample.externals) Examples.walkList1
                (walkRootWith 1) Examples.dot0 Examples.array_pipe
                Examples.body_fault None
                Examples.main_state Examples.main_state Examples.main_state
                Examples.main_state s2F Examples.v_array i0 e0
                [] [(i1, e1); (i2, e2)] pF
                ltac:(vm_compute; reflexivity) ltac:(vm_compute; reflexivity)
                ltac:(vm_compute; reflexivity)
                ltac:(intros H; vm_compute in H; discriminate H)
                ltac:(vm_compute; reflexivity) ltac:(reflexivity)
                ltac:(vm_compute; reflexivity)
                ltac:(vm_compute; reflexivity)))) eq_refl eq_refl) as HF;
              (* the continue in the second iteration *)
              pose proof (proj2 (proj1 (C6_loop_signals (Ext:=Sample.externals) Examples.walkList1
                (walkRootWith 1) Examples.dot0 Examples.array_pipe
                Examples.body_continue None
                Examples.main_state Examples.main_state sk sk s2C
                Examples.v_array i1 e1
                [(i0, e0)] [(i2, e2)] walkContinue
                ltac:(vm_compute; reflexivity) ltac:(vm_compute; reflexivity)
                ltac:(vm_compute; reflexivity)
                ltac:(intros H; vm_compute in H; discriminate H)
                ltac:(vm_compute; reflexivity)
                ltac:(vm_compute; reflexivity)
                ltac:(vm_compute; reflexivity)
                ltac:(vm_compute; reflexivity)) eq_refl)) as HC
          end
      end
  end.
  split; [|split]; split.
  - rewrite HB. vm_compute. reflexivity.
  - vm_compute. reflexivity.
  - rewrite HC. vm_compute. reflexivity.
  - vm_compute. reflexivity.
  - rewrite HF. vm_compute. reflexivity.
  - split; vm_compute; reflexivity.
Defined.

(* ===================================================================== *)
(** ** Template calls and the depth ceiling *)
(* ===================================================================== *)

Section TemplateCalls.

Context {T : SinkTypes} {Ext : Externals}.

Lemma set_wr_same s : set_wr s (wr s) = s.
Proof. by destruct s. Qed.


(** A template that calls itself runs into the ceiling: entered [k] levels
    below it with a budget of at least [k] calls, the call ends in the
    depth fault, raised in the template itself unless the ceiling was
    already reached. *)
Lemma self_call_exceeds mk k :
  forall b dot s,
    common (tmpl s) !! "T"
    = Some (mkTemplateEntry (Some [parse.TemplateNode "T" None]) mk) ->
    depth s = (maxExecDepth - Z.of_nat k)%Z ->
    (k <= b)%nat ->
    walkNode (walkRootWith b) dot (parse.TemplateNode "T" None) s
    = Some (Panic (PanicExecError
                     (depthExceeded (match k with O => Name (tmpl s) | S _ => "T" end)))
              s).
Proof.
  induction k as [|k IH]; intros b dot s Hc Hd Hb;
    rewrite walkNode_Template; unfold walkTemplate, Lookup; rewrite Hc.
  - replace (depth s =? maxExecDepth)%Z with true by (symmetry; apply Z.eqb_eq; lia).
    reflexivity.
  - replace (depth s =? maxExecDepth)%Z with false by (symmetry; apply Z.eqb_neq; lia).
    simpl evalPipeline. unfold ret.
    destruct b as [|b]; [lia|].
    rewrite walkRootWith_S. unfold walkListNode. cbn [Root entry_Root].
    change (walkNode (walkRootWith b) gjson.zero (parse.ListNode ?l))
      with (walkNodes (walkRootWith b) gjson.zero l).
    rewrite walkNodes_cons. unfold wbind.
    rewrite (IH b); [| exact Hc | simpl; lia | lia].
    simpl. rewrite set_wr_same. by destruct k.
Qed.

(** C7.  A template call first looks the template up and fails with the
    not-defined fault when there is none; then, when the depth equals
    maxExecDepth, it fails with the depth fault, before the pipeline is
    evaluated; otherwise it evaluates the pipeline and walks the root of
    the template found in a state one level deeper whose only variable is
    $, bound to the pipeline's value.  Execute comes to an outcome on every
    template set, recursive or not, and on a template that calls itself the
    outcome is the depth fault. *)
Theorem C7_template_call_and_depth_ceiling
    (walkRoot : gjson.Result -> option (list parse.Node) -> Walk unit)
    (dot : gjson.Result) (nm : string) (pipe : option parse.PipeNode) (s : state)
    (t : Template) (w : Writer) (data : string) (mk : missingKeyAction) :
  gjson.IsObject (ParseBytes data) || gjson.IsArray (ParseBytes data) = true ->
  Root t = Some [parse.TemplateNode "T" None] ->
  common t !! "T" = Some (mkTemplateEntry (Some [parse.TemplateNode "T" None]) mk) ->
  walkTemplate walkRoot dot nm pipe s
  = match Lookup (tmpl s) nm with
    | None =>
        Some (Panic (PanicExecError
                       {| ErrName := Name (tmpl s);
                          ErrFormat := "template %q not defined";
                          ErrArgs := [ArgString nm] |}) s)
    | Some t' =>
        if (depth s =? maxExecDepth)%Z
        then Some (Panic (PanicExecError (depthExceeded (Name (tmpl s)))) s)
        else
          match evalPipeline dot pipe s with
          | Panic p s1 => Some (Panic p s1)
          | Ret v s1 =>
              match walkRoot v (Root t')
                      {| tmpl := t'; wr := wr s1; vars := [mkvariable "$" v];
                         depth := depth s + 1; jsonData := jsonData s;
                         strictMode := strictMode s |} with
              | Some (Ret _ s2) => Some (Ret tt (set_wr s1 (wr s2)))
              | Some (Panic p s2) => Some (Panic p (set_wr s1 (wr s2)))
              | None => None
              end
          end
    end
  /\ (forall t0 w0 data0, exists o, Execute t0 w0 data0 = Some o)
  /\ Execute t w data
     = Some (Returns (Some (ExecErrorValue (depthExceeded "T"))) w).
Proof.
  intros Hdata Hroot Hreg.
  split; [|split].
  - unfold walkTemplate.
    destruct (Lookup (tmpl s) nm) as [t'|]; [|reflexivity].
    destruct (depth s =? maxExecDepth)%Z; [reflexivity|].
    pose proof (evalPipeline_frames dot pipe s) as [[[_ Hd Hj Hs _] _] _].
    destruct (evalPipeline dot pipe s) as [v s1|p s1]; [|reflexivity].
    simpl in Hd, Hj, Hs. unfold newState. by rewrite Hd, Hj, Hs.
  - intros t0 w0 data0. unfold Execute, execute, execute_with.
    destruct (_ && _); [by eexists|].
    unfold run. destruct (Root t0) as [nodes|]; [|by eexists].
    destruct (walk_total t0 (ParseBytes data0) (parse.ListNode nodes)
                (initialState t0 w0 (ParseBytes data0))) as (r & -> & _).
    { split; [split; [reflexivity | by left]|]. simpl.
      pose proof maxExecDepth_pos. lia. }
    destruct r as [a s'|p s']; [by eexists|].
    destruct (errRecover p); by eexists.
  - unfold Execute, execute, execute_with.
    apply orb_true_iff in Hdata.
    replace (negb (gjson.IsObject (ParseBytes data))
             && negb (gjson.IsArray (ParseBytes data))) with false
      by (destruct Hdata as [-> | ->]; [reflexivity | by rewrite andb_false_r]).
    unfold run. rewrite Hroot. unfold walk.
    change (walkNode ?r ?d (parse.ListNode ?l)) with (walkNodes r d l).
    rewrite walkNodes_cons. unfold wbind.
    pose proof maxExecDepth_pos as Hpos.
    rewrite (self_call_exceeds mk (Z.to_nat maxExecDepth));
      [|exact Hreg | simpl; lia | lia].
    destruct (Z.to_nat maxExecDepth) eqn:E; [lia|]. reflexivity.
Qed.

End TemplateCalls.

(** On the sample instance, whose ceiling is 1000, the template that calls
    itself ends in the depth fault with nothing written. *)
Lemma C7_template_call_and_depth_ceiling_witness :
  Execute Examples.recursive (Examples.buffer 100) Examples.doc
  = Some (Returns (Some (ExecErrorValue
                           {| ErrName := "T";
                              ErrFormat := "exceeded maximum template depth (%v)";
                              ErrArgs := [ArgInt 1000] |}))
            (Examples.buffer 100)).
Proof.
  exact (proj2 (proj2 (C7_template_call_and_depth_ceiling (Ext:=Sample.externals)
    (walkRootWith 0) gjson.zero "" None Examples.main_state
    Examples.recursive (Examples.buffer 100) Examples.doc mapInvalid
    ltac:(vm_compute; reflexivity) ltac:(vm_compute; reflexivity) ltac:(vm_compute; reflexivity)))).
Defined.

(* ===================================================================== *)
(** ** Write errors and execution errors *)
(* ===================================================================== *)

Section Errors.

Context {T : SinkTypes} {Ext : Externals}.



End Errors.


(* ===================================================================== *)
(** ** Further properties of the engine *)
(* ===================================================================== *)

Section VarStack.
Context {T : SinkTypes} {Ext : Externals}.

Lemma findVar_app (vs l : list variable) x i :
  (i <= length vs)%nat -> findVar (vs ++ l) x i = findVar vs x i.
Proof.
  induction i as [|i IH]; intros Hi; simpl; [done|].
  rewrite lookup_app_l by lia. rewrite IH by lia. done.
Qed.

Lemma set_vars_same (s : state) : set_vars s (vars s) = s.
Proof. by destruct s. Qed.

Lemma findVar_insert_name (vs : list variable) (j : nat) w x i :
  (forall v, vs !! j = Some v -> name v = name w) ->
  findVar (<[j := w]> vs) x i = findVar vs x i.
Proof.
  intros Hn. induction i as [|i IH]; simpl; [done|]. rewrite IH.
  destruct (decide (i = j)) as [->|Hne].
  - destruct (vs !! j) as [v|] eqn:E.
    + rewrite list_lookup_insert_eq by (by apply lookup_lt_Some in E).
      by rewrite (Hn v eq_refl).
    + rewrite list_insert_ge by (by apply lookup_ge_None in E). by rewrite E.
  - by rewrite list_lookup_insert_ne by done.
Qed.

(** X1.  The variable stack is a stack: after [push x v] the name [x]
    resolves to [v], whatever it resolved to before; every other name
    resolves as it did before the push (to the same value, or to the same
    "undefined variable" fault); and popping to the mark taken before the
    push gives the state before the push back. *)
Theorem X1_push_shadows_and_pop_restores x v y s :
  let s' := state_of (push x v s) in
  varValue x s' = Ret v s'
  /\ (y <> x -> outcome_of (varValue y s') = outcome_of (varValue y s))
  /\ pop (mark s) s' = s.
Proof.
  simpl. split; [|split].
  - apply (varValue_pushed _ (vars s) [mkvariable x v]); simpl; [done| |].
    + by constructor.
    + apply list_elem_of_singleton. done.
  - intros Hne. unfold varValue, mark. simpl.
    rewrite length_app, Nat.add_comm. simpl.
    rewrite lookup_app_r by lia. rewrite Nat.sub_diag. simpl.
    destruct (String.eqb_spec x y) as [->|_]; [done|].
    rewrite findVar_app by lia.
    pose proof (findVar_spec (vars s) y (length (vars s))) as H.
    destruct (findVar (vars s) y (length (vars s))) as [j|]; [|done].
    destruct H as (Hj & _). rewrite lookup_app_l by lia.
    by destruct (vars s !! j).
  - unfold pop, mark. simpl. rewrite take_app_length.
    by destruct s.
Qed.

(** What setVar does: to a declared name, and to one that is not. *)
Lemma setVar_spec x v s :
  (x ∈ names s ->
   exists j s',
     setVar x v s = Ret tt s'
     /\ s' = set_vars s (<[j := mkvariable x v]> (vars s))
     /\ (forall k w, (j < k)%nat -> vars s !! k = Some w -> name w <> x)
     /\ names s' = names s
     /\ varValue x s' = Ret v s'
     /\ forall y, y <> x -> outcome_of (varValue y s') = outcome_of (varValue y s))
  /\ (x ∉ names s ->
      setVar x v s
      = Panic (PanicExecError {| ErrName := Name (tmpl s);
                                 ErrFormat := "undefined variable: %s";
                                 ErrArgs := [ArgString x] |}) s).
Proof.
  unfold setVar, mark.
  pose proof (findVar_spec (vars s) x (length (vars s))) as H.
  destruct (findVar (vars s) x (length (vars s))) as [j|] eqn:Ej.
  - destruct H as (Hj & (w & Hw & Hn) & Hlast). split.
    + intros _. exists j, (set_vars s (<[j := mkvariable x v]> (vars s))).
      split; [done|]. split; [done|].
      assert (Hfind : forall y, findVar (<[j:=mkvariable x v]> (vars s)) y
                         (length (<[j:=mkvariable x v]> (vars s)))
                       = findVar (vars s) y (length (vars s))).
      { intros y. rewrite length_insert. apply findVar_insert_name.
        intros v0 Hv0. simpl. congruence. }
      split; [|split; [|split]].
      * intros k w' Hk Hkw. apply (Hlast k w'); [|done].
        split; [done|]. by apply lookup_lt_Some in Hkw.
      * unfold names. simpl. rewrite list_fmap_insert. simpl.
        apply list_insert_id. rewrite list_lookup_fmap, Hw. simpl. by rewrite Hn.
      * unfold varValue, mark. simpl. rewrite Hfind, Ej.
        by rewrite list_lookup_insert_eq by lia.
      * intros y Hne. unfold varValue, mark. simpl. rewrite Hfind.
        pose proof (findVar_spec (vars s) y (length (vars s))) as Hy.
        destruct (findVar (vars s) y (length (vars s))) as [i|]; [|done].
        destruct Hy as (Hi & (u & Hu & Hnu) & _).
        assert (i <> j) by (intros ->; congruence).
        rewrite list_lookup_insert_ne by done. by rewrite Hu.
    + intros Hnot. destruct Hnot. apply list_elem_of_fmap. exists w.
      split; [done|]. by apply list_elem_of_lookup_2 in Hw.
  - split; [|done].
    intros Hin. apply list_elem_of_fmap in Hin as (w & -> & Hw).
    apply list_elem_of_lookup in Hw as [k Hk].
    destruct (H k w); [by apply lookup_lt_Some in Hk|done|done].
Qed.

(** X2.  setVar assigns to the innermost declaration of a name.  When [x]
    is on the stack, [setVar x v] returns; the state it leaves differs
    from the one it found in a single entry, the last one named [x] (no
    entry above it carries the name), which now holds [v]; the names on the
    stack are unchanged, [x] resolves to [v], and every other name resolves
    as before.  When [x] is not on the stack, setVar raises the ExecError
    "undefined variable: %s" and leaves the state alone. *)
Theorem X2_setVar_assigns_the_innermost x v s :
  (x ∈ names s ->
   exists j s',
     setVar x v s = Ret tt s'
     /\ s' = set_vars s (<[j := mkvariable x v]> (vars s))
     /\ (forall k w, (j < k)%nat -> vars s !! k = Some w -> name w <> x)
     /\ names s' = names s
     /\ varValue x s' = Ret v s'
     /\ forall y, y <> x -> outcome_of (varValue y s') = outcome_of (varValue y s))
  /\ (x ∉ names s ->
      setVar x v s
      = Panic (PanicExecError {| ErrName := Name (tmpl s);
                                 ErrFormat := "undefined variable: %s";
                                 ErrArgs := [ArgString x] |}) s).
Proof. apply setVar_spec. Qed.

End VarStack.

Section LoopVars.
Context {T : SinkTypes} {Ext : Externals}.

(** What setVar does to a declared name. *)
Lemma setVar_declared x v s :
  x ∈ names s ->
  exists j s',
    setVar x v s = Ret tt s'
    /\ s' = set_vars s (<[j := mkvariable x v]> (vars s))
    /\ (forall k w, (j < k)%nat -> vars s !! k = Some w -> name w <> x)
    /\ names s' = names s
    /\ varValue x s' = Ret v s'
    /\ forall y, y <> x -> outcome_of (varValue y s') = outcome_of (varValue y s).
Proof. apply setVar_spec. Qed.

Lemma outcome_of_Ret {A} (r : result A) a s :
  outcome_of r = outcome_of (Ret a s) -> exists s', r = Ret a s'.
Proof. destruct r; simpl; intros [= <-]; eauto. Qed.

Lemma varValue_state x s r : varValue x s = r -> state_of r = s.
Proof.
  unfold varValue. intros <-.
  destruct (findVar _ _ _); [|done]. by destruct (vars s !! _).
Qed.

Lemma varValue_same_outcome x s s' v :
  outcome_of (varValue x s') = outcome_of (varValue x s) ->
  varValue x s = Ret v s -> varValue x s' = Ret v s'.
Proof.
  intros H E. rewrite E in H. apply outcome_of_Ret in H as [s'' H].
  pose proof (varValue_state _ _ _ H) as Hs. simpl in Hs. by subst.
Qed.

Lemma setVar_Ret x v s s' :
  setVar x v s = Ret tt s' -> x ∈ names s /\ names s' = names s.
Proof.
  intros H. destruct (decide (x ∈ names s)) as [Hin|Hnot].
  - split; [done|].
    destruct (setVar_declared x v s Hin) as (j & s2 & E & _ & _ & Hn & _).
    rewrite E in H. by injection H as <-.
  - apply (proj2 (setVar_spec x v s)) in Hnot.
    rewrite Hnot in H. discriminate.
Qed.

Lemma varValue_last x v base s :
  vars s = base ++ [mkvariable x v] -> varValue x s = Ret v s.
Proof.
  intros H. apply (varValue_pushed s base [mkvariable x v]); [done| |].
  - by constructor.
  - by apply list_elem_of_singleton.
Qed.

Lemma varValue_below y x v u base s :
  vars s = base ++ [mkvariable y u; mkvariable x v] -> y <> x ->
  varValue y s = Ret u s.
Proof.
  intros H Hne. unfold varValue, mark. rewrite H, length_app. simpl.
  rewrite Nat.add_comm. simpl.
  rewrite lookup_app_r by lia.
  replace (S (length base) - length base)%nat with 1%nat by lia. simpl.
  destruct (String.eqb_spec x y) as [->|_]; [done|].
  rewrite lookup_app_r by lia. rewrite Nat.sub_diag. simpl.
  rewrite String.eqb_refl.
  rewrite lookup_app_r by lia. by rewrite Nat.sub_diag.
Qed.

Lemma setTopVar_1 x v0 v base s :
  vars s = base ++ [mkvariable x v0] ->
  setTopVar 1 v s = Ret tt (set_vars s (base ++ [mkvariable x v])).
Proof.
  intros H. unfold setTopVar. rewrite H, length_app. simpl.
  destruct (Nat.ltb_spec (length base + 1) 1); [lia|].
  replace (length base + 1 - 1)%nat with (length base) by lia.
  rewrite lookup_app_r by lia. rewrite Nat.sub_diag. simpl.
  rewrite insert_app_r_alt by lia. by rewrite Nat.sub_diag.
Qed.

Lemma setTopVar_2 x v0 b v base s :
  vars s = base ++ [mkvariable x v0; b] ->
  setTopVar 2 v s = Ret tt (set_vars s (base ++ [mkvariable x v; b])).
Proof.
  intros H. unfold setTopVar. rewrite H, length_app. simpl.
  destruct (Nat.ltb_spec (length base + 2) 2); [lia|].
  replace (length base + 2 - 2)%nat with (length base) by lia.
  rewrite lookup_app_r by lia. rewrite Nat.sub_diag. simpl.
  rewrite insert_app_r_alt by lia. by rewrite Nat.sub_diag.
Qed.

Lemma declare_Ret_idents a decl val s s' :
  declare a decl val s = Ret tt s' ->
  Forall (fun d => parse.Ident d <> []) decl.
Proof.
  revert s. induction decl as [|d rest IH]; intros s; simpl; [by constructor|].
  destruct (parse.Ident d) as [|x xs] eqn:E; [discriminate|].
  unfold bind. destruct (if a then _ else _) as [[] s1|]; [|discriminate].
  intros H. constructor; [rewrite E; discriminate | by eapply IH].
Qed.

Lemma declare_assign_names decl val s s' :
  declare true decl val s = Ret tt s' ->
  names s' = names s /\ Forall (fun d => hd "" (parse.Ident d) ∈ names s) decl.
Proof.
  revert s. induction decl as [|d rest IH]; intros s; simpl.
  - intros [= <-]. split; [done | by constructor].
  - destruct (parse.Ident d) as [|x xs] eqn:E; [discriminate|].
    unfold bind. destruct (setVar x val s) as [[] s1|] eqn:E1; [|discriminate].
    intros H. apply IH in H as [Hn Hall].
    apply setVar_Ret in E1 as [Hin Hn1]. split; [congruence|].
    constructor; [by rewrite E|].
    eapply Forall_impl; [exact Hall|]. intros d' Hd'. simpl in Hd'. by rewrite <- Hn1.
Qed.

Lemma evalPipeline_declared dot a decl cmds s val s1 :
  evalPipeline dot (Some (parse.mkPipeNode a decl cmds)) s = Ret val s1 ->
  exists s0, declare a decl val s0 = Ret tt s1.
Proof.
  unfold evalPipeline. rewrite evalPipe_unfold.
  destruct (evalPipe dot (parse.mkPipeNode false [] cmds) s) as [v s0|]; [|discriminate].
  destruct (declare a decl v s0) as [[] s1'|] eqn:E; [|discriminate].
  intros [= <- <-]. by exists s0.
Qed.

Lemma names_two (vs : list variable) N xi xe :
  name <$> vs = N ++ [xi; xe] ->
  exists base vi ve, vs = base ++ [mkvariable xi vi; mkvariable xe ve].
Proof.
  intros H. apply fmap_app_inv in H as (l1 & l2 & _ & H2 & ->).
  destruct l2 as [|[n1 v1] [|[n2 v2] [|? ?]]]; try discriminate H2.
  injection H2 as <- <-. by exists l1, v1, v2.
Qed.

Lemma names_one (vs : list variable) N xe :
  name <$> vs = N ++ [xe] ->
  exists base ve, vs = base ++ [mkvariable xe ve].
Proof.
  intros H. apply fmap_app_inv in H as (l1 & l2 & _ & H2 & ->).
  destruct l2 as [|[n1 v1] [|? ?]]; try discriminate H2.
  injection H2 as <-. by exists l1, v1.
Qed.

(** The loop variables in an iteration of a range over one variable: the
    iteration starts with the names the range pipeline left. *)
Lemma bindLoopVars_one dot a cmds de index elem s val s1 s' :
  evalPipeline dot (Some (parse.mkPipeNode a [de] cmds)) s = Ret val s1 ->
  names s' = names s1 ->
  exists s2,
    bindLoopVars (Some (parse.mkPipeNode a [de] cmds)) index elem s' = Ret tt s2
    /\ names s2 = names s' /\ wr s2 = wr s'
    /\ varValue (hd "" (parse.Ident de)) s2 = Ret elem s2.
Proof.
  intros H Hs'. apply evalPipeline_declared in H as [s0 H].
  pose proof (declare_Ret_idents _ _ _ _ _ H) as Hid.
  apply Forall_cons in Hid as [Hde _].
  destruct (parse.Ident de) as [|xe re] eqn:Ee; [done|]. simpl.
  unfold bindLoopVars, rangePipe, declIdent, bind, ret. simpl. rewrite Ee. unfold ret.
  destruct a.
  - apply declare_assign_names in H as [Hn Hall].
    apply Forall_cons in Hall as [Hin _]. rewrite Ee in Hin. simpl in Hin.
    rewrite <- Hn, <- Hs' in Hin.
    destruct (setVar_declared xe elem s' Hin) as (j & s2 & E & -> & _ & Hn2 & Hv & _).
    rewrite E. eexists. split; [done|]. split; [done|]. split; [done|]. exact Hv.
  - apply declare_pushes in H as [Hv Hw]. simpl in Hv. unfold pushed in Hv.
    rewrite Ee in Hv. simpl in Hv.
    assert (Hn : names s' = names s0 ++ [xe]).
    { rewrite Hs'. unfold names. by rewrite Hv, fmap_app. }
    apply names_one in Hn as (base & ve & Hvars).
    rewrite (setTopVar_1 xe ve elem base s' Hvars).
    eexists. split; [done|]. split; [|split; [done|]].
    + unfold names. simpl. rewrite Hvars, !fmap_app. done.
    + by apply (varValue_last _ _ base).
Qed.

Lemma bindLoopVars_two dot a cmds di de index elem s val s1 s' :
  evalPipeline dot (Some (parse.mkPipeNode a [di; de] cmds)) s = Ret val s1 ->
  names s' = names s1 ->
  exists s2,
    bindLoopVars (Some (parse.mkPipeNode a [di; de] cmds)) index elem s' = Ret tt s2
    /\ names s2 = names s' /\ wr s2 = wr s'
    /\ varValue (hd "" (parse.Ident de)) s2 = Ret elem s2
    /\ (hd "" (parse.Ident di) <> hd "" (parse.Ident de) ->
        varValue (hd "" (parse.Ident di)) s2 = Ret index s2).
Proof.
  intros H Hs'. apply evalPipeline_declared in H as [s0 H].
  pose proof (declare_Ret_idents _ _ _ _ _ H) as Hid.
  apply Forall_cons in Hid as [Hdi Hid]. apply Forall_cons in Hid as [Hde _].
  destruct (parse.Ident di) as [|xi ri] eqn:Ei; [done|].
  destruct (parse.Ident de) as [|xe re] eqn:Ee; [done|]. simpl.
  unfold bindLoopVars, rangePipe, declIdent, bind, ret. simpl. rewrite Ei, Ee. unfold ret.
  destruct a.
  - apply declare_assign_names in H as [Hn Hall].
    apply Forall_cons in Hall as [Hini Hall]. apply Forall_cons in Hall as [Hine _].
    rewrite Ei in Hini. rewrite Ee in Hine. simpl in Hini, Hine.
    rewrite <- Hn, <- Hs' in Hini, Hine.
    destruct (setVar_declared xi index s' Hini) as (j & s2 & E & Es2 & _ & Hn2 & Hv & _).
    rewrite E. rewrite <- Hn2 in Hine.
    destruct (setVar_declared xe elem s2 Hine) as (j' & s3 & E' & Es3 & _ & Hn3 & Hv' & Hothers).
    rewrite E'. exists s3. split; [done|]. split; [congruence|].
    split; [by rewrite Es3, Es2|].
    split; [done|]. intros Hne.
    apply (varValue_same_outcome _ s2); [|done]. by apply Hothers.
  - apply declare_pushes in H as [Hv Hw]. simpl in Hv. unfold pushed in Hv.
    rewrite Ei, Ee in Hv. simpl in Hv.
    assert (Hn : names s' = names s0 ++ [xi; xe]).
    { rewrite Hs'. unfold names. by rewrite Hv, fmap_app. }
    apply names_two in Hn as (base & vi & ve & Hvars).
    rewrite (setTopVar_1 xe ve elem (base ++ [mkvariable xi vi]) s')
      by (by rewrite <- app_assoc).
    cbn beta iota. rewrite <- app_assoc. cbn [app].
    rewrite (setTopVar_2 xi vi (mkvariable xe elem) index base) by done.
    eexists. split; [done|]. split; [|split; [done|split]].
    + unfold names. simpl. rewrite Hvars, !fmap_app. done.
    + apply (varValue_last _ _ (base ++ [mkvariable xi index])). simpl.
      by rewrite <- app_assoc.
    + intros Hne. by apply (varValue_below _ xe elem _ base).
Qed.

End LoopVars.

Section Commands.
Context {T : SinkTypes} {Ext : Externals}.

Variable walkRoot : gjson.Result -> option (list parse.Node) -> Walk unit.

(** X4.  A missing field.  For the action [{{.a.b}}] whose path gjson
    does not find in dot: unless the template's option is mapError, the
    action writes the empty text (one Write of no bytes) and goes on; under
    mapError it raises the ExecError "path %q not found in data" with the
    dotted path, and nothing is written. *)
Theorem X4_missing_field dot ident s :
  let path := String.concat "." ident in
  let action := parse.ActionNode (Some (parse.mkPipeNode false []
                  [parse.mkCommandNode [parse.FieldNode ident]])) in
  gjson.Exists (Get dot path) = false ->
  walkNode walkRoot dot action s
  = if missingKey_is_error (missingKey (tmpl s))
    then Some (Panic (PanicExecError
                 {| ErrName := Name (tmpl s);
                    ErrFormat := "path %q not found in data";
                    ErrArgs := [ArgString path] |}) s)
    else lift (write "") s.
Proof.
  intros path action H. subst action. simpl.
  unfold wbind, lift, bind, evalFieldNode, evalFieldChain, bind, strict. simpl.
  fold path. rewrite H. simpl.
  destruct (missingKey_is_error (missingKey (tmpl s))); simpl; [done|].
  unfold ret, lift, printValue, printed. by rewrite H.
Qed.

(** X5.  A constant is no function.  A command whose first word is dot, a
    boolean, a number or a string that is not between back quotes
    evaluates to what the word evaluates to as an argument, provided the
    command has no other word and no value is piped into it; otherwise it
    raises "can't give argument to non-function %s" on the word, and the
    state is as it was. *)
Theorem X5_constant_takes_no_argument dot w rest final s :
  is_constant w = true ->
  evalCommand dot (parse.mkCommandNode (w :: rest)) final s
  = if has_arguments (w :: rest) final
    then Panic (PanicExecError
                  {| ErrName := Name (tmpl s);
                     ErrFormat := "can't give argument to non-function %s";
                     ErrArgs := [ArgNode w] |}) s
    else evalArg dot w s.
Proof.
  intros Hc. unfold has_arguments.
  destruct w; try discriminate Hc; simpl in *.
  all: try (rewrite (negb_true_iff _) in Hc; rewrite Hc).
  all: unfold bind, notAFunction;
    destruct ((1 <? len _)%Z || gjson.Exists final); reflexivity.
Qed.

End Commands.

(** Over the first sample document, which has no field Nope, [{{.Nope}}]
    under the default option is a write of the empty text. *)
Lemma X4_missing_field_witness :
  walkNode (walkRootWith 1) Examples.dot0 Examples.missing_action Examples.state0
  = lift (write "") Examples.state0.
Proof.
  exact (X4_missing_field (Ext:=Sample.externals) (walkRootWith 1)
           Examples.dot0 ["Nope"] Examples.state0 ltac:(vm_compute; reflexivity)).
Defined.

(** [{{true .}}] gives an argument to a constant. *)
Lemma X5_constant_takes_no_argument_witness :
  evalCommand Examples.dot0
    (parse.mkCommandNode [parse.BoolNode true; parse.DotNode]) gjson.zero
    Examples.state0
  = Panic (PanicExecError
             {| ErrName := "t";
                ErrFormat := "can't give argument to non-function %s";
                ErrArgs := [ArgNode (parse.BoolNode true)] |}) Examples.state0.
Proof.
  exact (X5_constant_takes_no_argument (Ext:=Sample.externals) Examples.dot0
           (parse.BoolNode true) [parse.DotNode] gjson.zero Examples.state0 eq_refl).
Defined.

Section Backquotes.
Context {T : SinkTypes} {Ext : Externals}.

Lemma string_length_append (a b : string) :
  String.length (String.append a b) = (String.length a + String.length b)%nat.
Proof. induction a as [|c a IH]; simpl; [done | by rewrite IH]. Qed.

Lemma get_append_end (a : string) c b :
  String.get (String.length a) (String.append a (String c b)) = Some c.
Proof. induction a as [|c' a IH]; simpl; [done | exact IH]. Qed.

Lemma substring_append (a b : string) :
  String.substring 0 (String.length a) (String.append a b) = a.
Proof.
  induction a as [|c a IH]; simpl; [by destruct b | by rewrite IH].
Qed.

Lemma backticked_backquote path : backticked (backquote path) = true.
Proof.
  unfold backticked, backquote, last_byte_is. simpl.
  rewrite Nat.sub_0_r, string_length_append. simpl.
  replace (String.length path + 1)%nat with (S (String.length path)) by lia.
  by rewrite get_append_end.
Qed.

Lemma backquote_path path :
  String.substring 1 (String.length (backquote path) - 2) (backquote path) = path.
Proof.
  unfold backquote. simpl. rewrite string_length_append. simpl.
  replace (String.length path + 1 - 1)%nat with (String.length path) by lia.
  apply substring_append.
Qed.

Lemma backquoted_path_eq dot quoted path rest final s :
  evalCommand dot
    (parse.mkCommandNode (parse.StringNode quoted (backquote path) :: rest)) final s
  = (if negb (gjson.Exists (Get dot path))
        && missingKey_is_error (missingKey (tmpl s))
     then errorf "gjson path %q not found in data" [ArgString path] s
     else if has_arguments (parse.StringNode quoted (backquote path) :: rest) final
     then errorf "gjson path %q is not a method but has arguments" [ArgString path] s
     else Ret (Get dot path) s)
  /\ evalCommand dot
       (parse.mkCommandNode (parse.StringNode quoted "`" :: rest)) final s
     = Panic (PanicRuntime "slice bounds out of range") s.
Proof.
  split.
  - cbn [evalCommand]. rewrite backticked_backquote.
    unfold evalBacktick. rewrite backquote_path.
    assert (Hlen : Nat.ltb (String.length (backquote path)) 2 = false).
    { unfold backquote. simpl. rewrite string_length_append. simpl.
      apply Nat.ltb_ge. lia. }
    rewrite Hlen. unfold bind, strict, has_arguments.
    destruct (negb _ && _); [done|].
    by destruct ((1 <? _)%Z || _).
  - reflexivity.
Qed.

(** X6.  A string between back quotes is a gjson path.  A command whose
    first word is a string with the text [`path`] evaluates to
    [dot.Get(path)], the back quotes stripped: under mapError a path that
    is not found raises "gjson path %q not found in data"; a command with
    further words or a piped value raises "gjson path %q is not a method
    but has arguments"; otherwise the value is returned and the state is
    as it was.  The text that is one back quote alone is both prefix and
    suffix: slicing it [1 : 0] is a Go runtime error. *)
Theorem X6_backquoted_path dot quoted path rest final s :
  evalCommand dot
    (parse.mkCommandNode (parse.StringNode quoted (backquote path) :: rest)) final s
  = (if negb (gjson.Exists (Get dot path))
        && missingKey_is_error (missingKey (tmpl s))
     then errorf "gjson path %q not found in data" [ArgString path] s
     else if has_arguments (parse.StringNode quoted (backquote path) :: rest) final
     then errorf "gjson path %q is not a method but has arguments" [ArgString path] s
     else Ret (Get dot path) s)
  /\ evalCommand dot
       (parse.mkCommandNode (parse.StringNode quoted "`" :: rest)) final s
     = Panic (PanicRuntime "slice bounds out of range") s.
Proof. apply backquoted_path_eq. Qed.

End Backquotes.

Section Functions.
Context {T : SinkTypes} {Ext : Externals}.

Lemma evalAll_cons_Ret a rest s vs s' :
  evalAll (a :: rest) s = Ret vs s' -> exists v vs', vs = v :: vs'.
Proof.
  simpl. unfold bind, ret. destruct (a s) as [v s1|]; [|discriminate].
  destruct (evalAll rest s1) as [vs' s2|]; [|discriminate].
  intros [= <- <-]. eauto.
Qed.

(** The head test of the chain of cases of evalFunction. *)
Ltac head_case :=
  match goal with
  | |- (if ?b then _ else _) _ = (if ?b then _ else _) _ => destruct b eqn:?
  end.

(** X9.  The value piped into a function is not passed to it.  Whatever
    value [final] a pipeline hands to evalFunction, the result is the
    same, for every builtin and every registered function; the one
    exception is printf (or sprintf) called with a format and nothing
    else, which formats the piped value. *)
Theorem X9_piped_value_is_not_passed dot fname argv final final' s :
  (String.eqb fname "printf" || String.eqb fname "sprintf") = false
  \/ length argv <> 2%nat ->
  evalFunction dot fname argv final s = evalFunction dot fname argv final' s.
Proof.
  intros H. unfold evalFunction.
  do 10 (head_case; [reflexivity|]).
  head_case; [|reflexivity].
  destruct H as [H|H]; [congruence|].
  destruct argv as [|f [|a1 rest]]; try reflexivity.
  destruct rest as [|a2 rest]; [done|].
  unfold bind. destruct (a1 s) as [formatArg s1|]; [|done].
  destruct (negb (is_String formatArg)); [done|].
  destruct (evalAll (a2 :: rest) s1) as [vs s2|] eqn:E; [|done].
  apply evalAll_cons_Ret in E as (v & vs' & ->). reflexivity.
Qed.

(** X10.  gjson, len, not, html, js and urlquery take exactly one argument:
    called with any other number of arguments they raise "wrong number of
    args for %s: want 1 got %d" with the number given, before any argument
    is evaluated (the state is as it was). *)
Theorem X10_unary_builtins_check_arity dot fname argv final s :
  fname ∈ ["gjson"; "len"; "not"; "html"; "js"; "urlquery"] ->
  length argv <> 2%nat ->
  evalFunction dot fname argv final s
  = Panic (PanicExecError
             {| ErrName := Name (tmpl s);
                ErrFormat := "wrong number of args for %s: want 1 got %d";
                ErrArgs := [ArgString fname; ArgInt (len argv - 1)] |}) s.
Proof.
  intros Hin Hlen.
  assert (Hargv : match argv with [_; _] => False | _ => True end).
  { by destruct argv as [|? [|? [|? ?]]]. }
  repeat (apply elem_of_cons in Hin as [->|Hin]);
    [..|by apply elem_of_nil in Hin];
    by destruct argv as [|? [|? [|? ?]]].
Qed.

(** X11.  index on an array checks its bounds.  When the container
    evaluates to an array and the key to a value: a key that is not a
    number raises "index of array must be integer"; a number that is a
    position of the array yields the element at that position; any other
    number, negative or past the end, raises "array index out of range:
    %d".  The element access itself is never out of range. *)
Theorem X11_index_checks_bounds dot f a1 a2 rest final s container key s1 s2 :
  a1 s = Ret container s1 -> a2 s1 = Ret key s2 ->
  gjson.IsArray container = true ->
  evalFunction dot "index" (f :: a1 :: a2 :: rest) final s
  = if negb (is_Number key)
    then errorf "index of array must be integer" [] s2
    else
      match (if (0 <=? Int key)%Z then Array container !! Z.to_nat (Int key)
             else None) with
      | Some v => Ret v s2
      | None => errorf "array index out of range: %d" [ArgInt (Int key)] s2
      end.
Proof.
  intros E1 E2 Harr. cbn -[Z.leb Z.ltb]. unfold bind. rewrite E1, E2, Harr.
  destruct (negb (is_Number key)); [done|].
  unfold len.
  destruct (Z.ltb_spec (Int key) 0) as [Hneg|Hpos]; simpl.
  - destruct (Z.leb_spec 0 (Int key)); [lia | done].
  - destruct (Z.leb_spec 0 (Int key)); [|lia].
    destruct (Z.leb_spec (Z.of_nat (length (Array container))) (Int key)) as [Hout|Hin].
    + rewrite lookup_ge_None_2 by lia. done.
    + destruct (lookup_lt_is_Some_2 (Array container) (Z.to_nat (Int key)))
        as [v Hv]; [lia|]. by rewrite Hv.
Qed.

Lemma not_builtin fname :
  fname ∉ builtin_names ->
  String.eqb fname "gjson" = false /\ String.eqb fname "len" = false
  /\ String.eqb fname "index" = false
  /\ (String.eqb fname "print" || String.eqb fname "println") = false
  /\ (String.eqb fname "and" || String.eqb fname "or") = false
  /\ String.eqb fname "not" = false /\ is_comparison fname = false
  /\ String.eqb fname "html" = false /\ String.eqb fname "js" = false
  /\ String.eqb fname "urlquery" = false
  /\ (String.eqb fname "printf" || String.eqb fname "sprintf") = false.
Proof.
  intros H. unfold is_comparison.
  assert (Hne : forall c, c ∈ builtin_names -> String.eqb fname c = false).
  { intros c Hc. apply String.eqb_neq. by intros ->. }
  rewrite !Hne; [done|..]; unfold builtin_names; set_solver.
Qed.

(** A name evalFunction does not handle itself is looked up. *)
Lemma evalFunction_lookup dot fname argv final s :
  fname ∉ builtin_names ->
  evalFunction dot fname argv final s
  = match callFunction fname with
    | Some fn =>
        match argv with
        | [] => runtime_panic "makeslice: cap out of range"
        | _ :: rest =>
            bind (evalAll rest) (fun vs =>
              match fn (map reflectArg vs) with
              | inl r => ret (reflectResult r)
              | inr err => errorf "%s: %s" [ArgString fname; ArgString err]
              end)
        end
    | None => errorf "function %q not implemented for gjson" [ArgString fname]
    end s.
Proof.
  intros H. apply not_builtin in H as (H1&H2&H3&H4&H5&H6&H7&H8&H9&H10&H11).
  unfold evalFunction. by rewrite H1, H2, H3, H4, H5, H6, H7, H8, H9, H10, H11.
Qed.

End Functions.

(** [len .Array] with 42 piped in, and printf with a format and an
    argument with 42 piped in: the 42 plays no part. *)
Lemma X9_piped_value_is_not_passed_witness :
  evalFunction Examples.dot0 "len"
    [ret gjson.zero; ret Examples.v_array] Examples.v_42 Examples.state0
  = evalFunction Examples.dot0 "len"
      [ret gjson.zero; ret Examples.v_array] gjson.zero Examples.state0
  /\ evalFunction Examples.dot0 "printf"
       [ret gjson.zero; ret Examples.v_hello; ret Examples.v_0]
       Examples.v_42 Examples.state0
     = evalFunction Examples.dot0 "printf"
         [ret gjson.zero; ret Examples.v_hello; ret Examples.v_0]
         gjson.zero Examples.state0.
Proof.
  split.
  - apply (X9_piped_value_is_not_passed (Ext:=Sample.externals)).
    left. reflexivity.
  - apply (X9_piped_value_is_not_passed (Ext:=Sample.externals)).
    right. discriminate.
Defined.

(** [{{len}}], len without an argument. *)
Lemma X10_unary_builtins_check_arity_witness :
  evalFunction Examples.dot0 "len" [ret gjson.zero] gjson.zero Examples.state0
  = Panic (PanicExecError
             {| ErrName := "t";
                ErrFormat := "wrong number of args for %s: want 1 got %d";
                ErrArgs := [ArgString "len"; ArgInt 0] |}) Examples.state0.
Proof.
  exact (X10_unary_builtins_check_arity (Ext:=Sample.externals) Examples.dot0
           "len" [ret gjson.zero] gjson.zero Examples.state0
           ltac:(apply list_elem_of_further, list_elem_of_here)
           ltac:(discriminate)).
Defined.

(** [index .Array 1] over the array 1, 2, 3 is 2, and [index .Array 42] is
    out of range. *)
Lemma X11_index_checks_bounds_witness :
  evalFunction Examples.dot0 "index"
    [ret gjson.zero; ret Examples.v_array; ret Examples.v_1] gjson.zero
    Examples.state0
  = Ret Examples.v_2 Examples.state0
  /\ evalFunction Examples.dot0 "index"
       [ret gjson.zero; ret Examples.v_array; ret Examples.v_42] gjson.zero
       Examples.state0
     = Panic (PanicExecError
                {| ErrName := "t";
                   ErrFormat := "array index out of range: %d";
                   ErrArgs := [ArgInt 42] |}) Examples.state0.
Proof.
  split.
  - exact (X11_index_checks_bounds (Ext:=Sample.externals) Examples.dot0
             (ret gjson.zero) (ret Examples.v_array) (ret Examples.v_1) []
             gjson.zero Examples.state0 _ _ _ _ eq_refl eq_refl
             ltac:(vm_compute; reflexivity)).
  - exact (X11_index_checks_bounds (Ext:=Sample.externals) Examples.dot0
             (ret gjson.zero) (ret Examples.v_array) (ret Examples.v_42) []
             gjson.zero Examples.state0 _ _ _ _ eq_refl eq_refl
             ltac:(vm_compute; reflexivity)).
Defined.

Section Registered.
Context {T : SinkTypes} {Ext : Externals}.

Lemma accepted_check data :
  accepted data ->
  negb (gjson.IsObject (ParseBytes data)) && negb (gjson.IsArray (ParseBytes data))
  = false.
Proof. intros [H|H]; rewrite H; simpl; [done | apply andb_false_r]. Qed.

Lemma budget_S : exists b, Z.to_nat maxExecDepth = S b.
Proof.
  pose proof maxExecDepth_pos. exists (Nat.pred (Z.to_nat maxExecDepth)). lia.
Qed.

(** X12.  A registered function without an argument list.  For a name
    that is no builtin and that findFunction finds: as a command of its
    own, [{{f}}], the function is called with no argument and its result,
    or the error it reports, is the command's; as an argument of another
    command, [{{print f}}], the slice of its arguments is made with
    capacity [len(nil) - 1], a Go runtime error, and the function is not
    called.  errRecover does not turn a runtime error into an error value:
    Execute on the template [{{print f}}] panics, with nothing written. *)
Theorem X12_function_without_argument_list dot f fn final s t w data :
  f ∉ builtin_names -> callFunction f = Some fn ->
  (* as a command, the function is called with no argument *)
  evalCommand dot (parse.mkCommandNode [parse.IdentifierNode f]) final s
  = match fn [] with
    | inl r => Ret (reflectResult r) s
    | inr err =>
        Panic (PanicExecError
                 {| ErrName := Name (tmpl s); ErrFormat := "%s: %s";
                    ErrArgs := [ArgString f; ArgString err] |}) s
    end
  (* as an argument, it is not called at all *)
  /\ evalArg dot (parse.IdentifierNode f) s
     = Panic (PanicRuntime "makeslice: cap out of range") s
  /\ (Root t = Some [print_of f] -> accepted data ->
      Execute t w data
      = Some (Panics (PanicRuntime "makeslice: cap out of range") w)).
Proof.
  intros Hf Hfn. split; [|split].
  - cbn [evalCommand map]. rewrite evalFunction_lookup, Hfn by done.
    unfold bind. simpl. by destruct (fn []).
  - change (evalArg dot (parse.IdentifierNode f)) with (evalFunction dot f [] gjson.zero).
    rewrite evalFunction_lookup by done. by rewrite Hfn.
  - intros Hroot Hdata. unfold Execute, execute, execute_with.
    rewrite accepted_check by done. unfold run. rewrite Hroot.
    unfold walk, print_of. cbn [walkNode]. unfold wbind, lift at 1.
    unfold evalPipeline. cbn [evalPipe evalCommand map].
    unfold bind at 1. unfold bind at 1.
    replace (evalFunction _ "print" _ _ _) with
      (@Panic T gjson.Result (PanicRuntime "makeslice: cap out of range")
         (initialState t w (ParseBytes data))); [done|].
    unfold evalFunction. simpl. unfold bind.
    apply not_builtin in Hf as (H1&H2&H3&H4&H5&H6&H7&H8&H9&H10&H11).
    by rewrite H1, H2, H3, H4, H5, H6, H7, H8, H9, H10, H11, Hfn.
Qed.

(** X13.  A name that is neither a builtin nor registered raises "function
    %q not implemented for gjson", as a command and as an argument, without
    evaluating any of its arguments: the state is as it was. *)
Theorem X13_unknown_function dot f rest final s :
  f ∉ builtin_names -> callFunction f = None ->
  let unknown := Panic (PanicExecError
                   {| ErrName := Name (tmpl s);
                      ErrFormat := "function %q not implemented for gjson";
                      ErrArgs := [ArgString f] |}) s in
  evalCommand dot (parse.mkCommandNode (parse.IdentifierNode f :: rest)) final s
  = unknown
  /\ evalArg dot (parse.IdentifierNode f) s = unknown.
Proof.
  intros Hf Hfn. split.
  - cbn [evalCommand]. rewrite evalFunction_lookup by done. by rewrite Hfn.
  - change (evalArg dot (parse.IdentifierNode f)) with (evalFunction dot f [] gjson.zero).
    rewrite evalFunction_lookup by done. by rewrite Hfn.
Qed.

End Registered.

(** With the function "shout" registered: [{{shout}}] calls it, and
    [{{print shout}}] makes Execute panic before anything is written. *)
Lemma X12_function_without_argument_list_witness :
  evalCommand (Ext:=Sample.with_functions Sample.functions) Examples.dot0
    (parse.mkCommandNode [parse.IdentifierNode "shout"]) gjson.zero Examples.state0
  = Ret (Sample.toResult (Sample.JStr "HEY")) Examples.state0
  /\ evalArg (Ext:=Sample.with_functions Sample.functions) Examples.dot0
       (parse.IdentifierNode "shout") Examples.state0
     = Panic (PanicRuntime "makeslice: cap out of range") Examples.state0
  /\ Execute (Ext:=Sample.with_functions Sample.functions)
       (Examples.plain [print_of "shout"]) (Examples.buffer 100) Examples.doc
     = Some (Panics (PanicRuntime "makeslice: cap out of range")
               (Examples.buffer 100)).
Proof.
  assert (Hf : "shout" ∉ builtin_names).
  { intros H. repeat (apply elem_of_cons in H as [H|H]; [discriminate H|]).
    by apply elem_of_nil in H. }
  destruct (X12_function_without_argument_list
              (Ext:=Sample.with_functions Sample.functions)
              Examples.dot0 "shout" (fun _ => inl (GoString "HEY")) gjson.zero
              Examples.state0 (Examples.plain [print_of "shout"])
              (Examples.buffer 100) Examples.doc Hf eq_refl)
    as (H1 & H2 & H3).
  split; [exact H1|]. split; [exact H2|].
  apply H3; [reflexivity|]. left. vm_compute. reflexivity.
Defined.

(** No function "nope" is registered in the sample externals. *)
Lemma X13_unknown_function_witness :
  evalCommand Examples.dot0
    (parse.mkCommandNode [parse.IdentifierNode "nope"; parse.DotNode])
    gjson.zero Examples.state0
  = Panic (PanicExecError
             {| ErrName := "t";
                ErrFormat := "function %q not implemented for gjson";
                ErrArgs := [ArgString "nope"] |}) Examples.state0
  /\ evalArg Examples.dot0 (parse.IdentifierNode "nope") Examples.state0
     = Panic (PanicExecError
                {| ErrName := "t";
                   ErrFormat := "function %q not implemented for gjson";
                   ErrArgs := [ArgString "nope"] |}) Examples.state0.
Proof.
  apply (X13_unknown_function (Ext:=Sample.externals)); [|reflexivity].
  intros H. repeat (apply elem_of_cons in H as [H|H]; [discriminate H|]).
  by apply elem_of_nil in H.
Defined.

Section IfNot.
Context {T : SinkTypes} {Ext : Externals}.

Variable walkList : gjson.Result -> list parse.Node -> Walk unit.

Lemma evalCommand_function dot f rest final :
  evalCommand dot (parse.mkCommandNode (parse.IdentifierNode f :: rest)) final
  = evalFunction dot f (map (evalArg dot) (parse.IdentifierNode f :: rest)) final.
Proof. reflexivity. Qed.

Lemma evalPipe_single dot cmd s :
  evalPipe dot (parse.mkPipeNode false [] [cmd]) s
  = match evalCommand dot cmd gjson.zero s with
    | Ret v s' => Ret v s'
    | Panic p s' => Panic p s'
    end.
Proof.
  rewrite evalPipe_unfold.
  change (evalPipe dot (parse.mkPipeNode false [] [cmd]) s)
    with (bind (bind (evalCommand dot cmd gjson.zero) (fun v => ret v))
               (fun val => bind (ret tt) (fun _ => ret val)) s).
  unfold bind, ret. destruct (evalCommand dot cmd gjson.zero s); reflexivity.
Qed.

Lemma evalArg_pipe dot p : evalArg dot (parse.PipeNode_ p) = evalPipe dot p.
Proof. reflexivity. Qed.

Lemma evalFunction_not dot f a final s :
  evalFunction dot "not" [f; a] final s
  = bind a (fun arg =>
      let '(truth, ok) := isGjsonTrue arg in
      if negb ok then errorf "not can't use %v" [ArgString (gjson.Raw arg)]
      else ret (Parse (fmt_t (negb truth)))) s.
Proof. reflexivity. Qed.

(** X14.  [{{if not (p)}}A{{else}}B{{end}}] is [{{if p}}B{{else}}A{{end}}].
    When the pipeline [p] returns a value that has a truth value, the two
    nodes are walked to the same result and the same state.  The
    precondition on gjson is that it parses "true" to a true value and
    "false" to a false one. *)
Theorem X14_if_not_swaps_branches dot p A B s v s1 b :
  evalPipe dot p s = Ret v s1 -> isGjsonTrue v = (b, true) ->
  truthy (Parse "true") -> falsy (Parse "false") ->
  walkIfOrWith walkList NodeIf dot
    (Some (parse.mkPipeNode false []
       [parse.mkCommandNode [parse.IdentifierNode "not"; parse.PipeNode_ p]]))
    A (Some B) s
  = walkIfOrWith walkList NodeIf dot (Some p) B (Some A) s.
Proof.
  intros Ev Hb Ht Hf. unfold walkIfOrWith, defer_pop, wbind, lift, evalPipeline.
  rewrite evalPipe_single, evalCommand_function. cbn [map].
  rewrite evalFunction_not, evalArg_pipe. unfold bind. rewrite Ev, Hb.
  unfold ret. destruct b; simpl; [rewrite Hf | rewrite Ht]; reflexivity.
Qed.

End IfNot.

(** [{{if not (.Bool)}}yes{{else}}no{{end}}] and
    [{{if .Bool}}no{{else}}yes{{end}}] over the first sample document. *)
Lemma X14_if_not_swaps_branches_witness :
  walkIfOrWith Examples.walkList1 NodeIf Examples.dot0
    (Some (parse.mkPipeNode false []
       [parse.mkCommandNode
          [parse.IdentifierNode "not";
           parse.PipeNode_ (Examples.pipe [parse.FieldNode ["Bool"]])]]))
    [parse.TextNode "yes"] (Some [parse.TextNode "no"]) Examples.state0
  = walkIfOrWith Examples.walkList1 NodeIf Examples.dot0
      (Some (Examples.pipe [parse.FieldNode ["Bool"]]))
      [parse.TextNode "no"] (Some [parse.TextNode "yes"]) Examples.state0.
Proof.
  apply (X14_if_not_swaps_branches (Ext:=Sample.externals) Examples.walkList1
           Examples.dot0 _ _ _ Examples.state0 Examples.v_true Examples.state0 true);
    vm_compute; reflexivity.
Defined.

Section Actions.
Context {T : SinkTypes} {Ext : Externals}.

Variable walkRoot : gjson.Result -> option (list parse.Node) -> Walk unit.

Lemma walkNode_Action dot p s :
  walkNode walkRoot dot (parse.ActionNode (Some p)) s
  = match evalPipe dot p s with
    | Ret val s' =>
        if (len (parse.Decl p) =? 0)%Z then Some (printValue val s')
        else Some (Ret tt s')
    | Panic e s' => Some (Panic e s')
    end.
Proof.
  change (walkNode walkRoot dot (parse.ActionNode (Some p)) s)
    with (wbind (lift (evalPipeline dot (Some p)))
            (fun val => if (len (parse.Decl p) =? 0)%Z
                        then lift (printValue val) else wret tt) s).
  unfold wbind, lift, evalPipeline, wret.
  destruct (evalPipe dot p s); [|done]. by destruct (_ =? _)%Z.
Qed.

Lemma evalCommand_variable dot x s v :
  varValue x s = Ret v s ->
  evalCommand dot
    (parse.mkCommandNode [parse.VariableNode_ (parse.mkVariableNode [x])])
    gjson.zero s
  = Ret v s.
Proof.
  intros H.
  change (evalCommand dot _ gjson.zero s)
    with (evalVariableNode dot (parse.mkVariableNode [x])
            [parse.VariableNode_ (parse.mkVariableNode [x])] gjson.zero s).
  unfold evalVariableNode. simpl. unfold bind. by rewrite H.
Qed.

(** X15.  Declare, then print.  When the commands of a pipeline evaluate
    to [v], the two actions [{{$x := pipeline}}{{$x}}] make the one write
    [{{pipeline}}] makes, of the text of [v]; the only difference is that $x
    is on the stack afterwards. *)
Theorem X15_declared_variable_prints_its_value dot cmds x xs s v s0 :
  evalPipe dot (parse.mkPipeNode false [] cmds) s = Ret v s0 ->
  walkNodes walkRoot dot
    [parse.ActionNode (Some (parse.mkPipeNode false [parse.mkVariableNode (x :: xs)] cmds));
     parse.ActionNode (Some (parse.mkPipeNode false []
       [parse.mkCommandNode [parse.VariableNode_ (parse.mkVariableNode [x])]]))] s
  = Some (printValue v (state_of (push x v s0)))
  /\ walkNode walkRoot dot
       (parse.ActionNode (Some (parse.mkPipeNode false [] cmds))) s
     = Some (printValue v s0).
Proof.
  intros H. split.
  - rewrite !walkNodes_cons, walkNodes_nil. unfold wbind at 1.
    rewrite walkNode_Action, evalPipe_unfold, H. simpl declare.
    unfold bind, push, ret. cbn [parse.Decl].
    change (len [parse.mkVariableNode (x :: xs)] =? 0)%Z with false. cbn beta iota.
    unfold wbind. rewrite walkNode_Action, evalPipe_single.
    rewrite (evalCommand_variable _ _ _ v)
      by (by apply (varValue_last _ _ (vars s0))).
    cbn [parse.Decl state_of].
    change (len (@nil parse.VariableNode) =? 0)%Z with true. cbn beta iota.
    unfold wret. by destruct (printValue v _) as [[] ?|].
  - rewrite walkNode_Action, H. reflexivity.
Qed.

End Actions.

(** [{{$x := .Number}}{{$x}}] and [{{.Number}}] over the first sample
    document both print 42. *)
Lemma X15_declared_variable_prints_its_value_witness :
  walkNodes (walkRootWith 1) Examples.dot0
    [parse.ActionNode (Some (parse.mkPipeNode false [parse.mkVariableNode ["$x"]]
                               [Examples.cmd [parse.FieldNode ["Number"]]]));
     parse.ActionNode (Some (parse.mkPipeNode false []
       [parse.mkCommandNode [parse.VariableNode_ (parse.mkVariableNode ["$x"])]]))]
    Examples.state0
  = Some (printValue Examples.v_42 (state_of (push "$x" Examples.v_42 Examples.state0)))
  /\ walkNode (walkRootWith 1) Examples.dot0
       (parse.ActionNode (Some (parse.mkPipeNode false []
                                  [Examples.cmd [parse.FieldNode ["Number"]]])))
       Examples.state0
     = Some (printValue Examples.v_42 Examples.state0).
Proof.
  apply (X15_declared_variable_prints_its_value (Ext:=Sample.externals)).
  vm_compute. reflexivity.
Defined.

Section Ranges.
Context {T : SinkTypes} {Ext : Externals}.

Variable walkList : gjson.Result -> list parse.Node -> Walk unit.

Lemma walkRange_unfold dot pipe l e s :
  walkRange walkList dot pipe l e s
  = recover_only is_walkBreak
      (defer_pop (mark s) (walkRangeBody walkList dot pipe l e)) s.
Proof. reflexivity. Qed.

Lemma walkRangeBody_unfold dot p l e s :
  walkRangeBody walkList dot (Some p) l e s
  = match evalPipe dot p s with
    | Ret val s1 =>
        let one := oneIteration walkList (Some p) l (mark s1) in
        (if gjson.IsArray val then
           match Array val with
           | [] => walkElse walkList dot e
           | elems => rangeArray one elems 0
           end
         else if gjson.IsObject val then
           if negb (gjson.Exists val) || String.eqb (gjson.Raw val) "{}"
           then walkElse walkList dot e
           else rangeObject one (ForEach val)
         else if is_Number val then
           if (1 <? len (parse.Decl p))%Z
           then lift (errorf "can't use %v to iterate over more than one variable"
                        [ArgString (gjson.Raw val)])
           else
             if (Int val <=? 0)%Z then walkElse walkList dot e
             else rangeCount one (Z.to_nat (Int val)) 0
         else if is_String val then
           if String.eqb (String_ val) "" then walkElse walkList dot e
           else rangeRunes one (Runes (String_ val))
         else
           lift (errorf "range can't iterate over %v" [ArgString (gjson.Raw val)])) s1
    | Panic q s1 => Some (Panic q s1)
    end.
Proof.
  unfold walkRangeBody, wbind, lift, evalPipeline.
  destruct (evalPipe dot p s) as [val s1|]; [|done].
  destruct (gjson.IsArray val); [done|].
  destruct (gjson.IsObject val); [done|].
  destruct (is_Number val); [|done].
  unfold rangePipe, ret. by destruct (1 <? _)%Z.
Qed.

(** X17.  A range over nothing walks the else list.  When the pipeline
    returns an array without elements, the object [{}], a number that is
    not positive or the empty string, the body is not walked; the else
    list, if there is one, is walked with the dot of the range; the stack
    is popped to the mark on the way out, and a break raised in the else
    list ends the range as it would in the body.  The one exception is a
    number in a range that declares two variables: that is the error
    "can't use %v to iterate over more than one variable", and the else
    list is not walked. *)
Theorem X17_range_over_nothing dot p l e s val s1 :
  evalPipe dot p s = Ret val s1 ->
  empty_range val = true ->
  walkRange walkList dot (Some p) l e s
  = if is_Number val && (1 <? len (parse.Decl p))%Z
    then Some (Panic (PanicExecError
                        {| ErrName := Name (tmpl s);
                           ErrFormat := "can't use %v to iterate over more than one variable";
                           ErrArgs := [ArgString (gjson.Raw val)] |})
                 (pop (mark s) s1))
    else
      match walkElse walkList dot e s1 with
      | Some (Ret _ s2) => Some (Ret tt (pop (mark s) s2))
      | Some (Panic q s2) =>
          if is_walkBreak q then Some (Ret tt (pop (mark s) s2))
          else Some (Panic q (pop (mark s) s2))
      | None => None
      end.
Proof.
  intros Ev Hempty. rewrite walkRange_unfold.
  unfold recover_only, defer_pop. rewrite walkRangeBody_unfold, Ev.
  pose proof (evalPipe_frames dot p s) as [[[Ht _ _ _ _] _] _].
  rewrite Ev in Ht. simpl in Ht.
  cbn zeta. unfold empty_range in Hempty.
  unfold gjson.IsArray, gjson.IsObject, is_Number, is_String in *.
  destruct (gjson.Typ val) eqn:Hty; cbn [gjson.Type_eqb andb] in *;
    try discriminate Hempty.
  - (* a number *)
    destruct (1 <? len (parse.Decl p))%Z.
    + unfold lift, errorf. cbn [is_walkBreak]. by rewrite Ht.
    + rewrite Hempty.
      destruct (walkElse walkList dot e s1) as [[[] s2|q s2]|]; done.
  - (* a string *)
    rewrite Hempty.
    destruct (walkElse walkList dot e s1) as [[[] s2|q s2]|]; done.
  - (* an array or an object *)
    destruct (gjson.first_byte_is "[" (gjson.Raw val)).
    { destruct (Array val); [|done].
      destruct (walkElse walkList dot e s1) as [[[] s2|q s2]|]; done. }
    destruct (gjson.first_byte_is "{" (gjson.Raw val)); [|done].
    rewrite Hempty.
    destruct (walkElse walkList dot e s1) as [[[] s2|q s2]|]; done.
Qed.

(** X18.  A range over null, a boolean, a missing value or any other
    value that is neither array, object, number nor string raises "range
    can't iterate over %v" with the raw text of the value.  The else list
    is not walked. *)
Theorem X18_range_cannot_iterate dot p l e s val s1 :
  evalPipe dot p s = Ret val s1 ->
  iterable val = false ->
  walkRange walkList dot (Some p) l e s
  = Some (Panic (PanicExecError
                   {| ErrName := Name (tmpl s);
                      ErrFormat := "range can't iterate over %v";
                      ErrArgs := [ArgString (gjson.Raw val)] |})
            (pop (mark s) s1)).
Proof.
  intros Ev Hit. rewrite walkRange_unfold.
  unfold recover_only, defer_pop. rewrite walkRangeBody_unfold, Ev.
  pose proof (evalPipe_frames dot p s) as [[[Ht _ _ _ _] _] _].
  rewrite Ev in Ht. simpl in Ht.
  unfold iterable in Hit.
  destruct (gjson.IsArray val); [done|].
  destruct (gjson.IsObject val); [done|].
  destruct (is_Number val); [done|].
  destruct (is_String val); [done|].
  unfold lift, errorf. cbn [is_walkBreak]. by rewrite Ht.
Qed.

End Ranges.

(** Over the first sample document [{{range .Empty.Array}}x{{else}}none{{end}}]
    walks the else list and writes none. *)
Lemma X17_range_over_nothing_witness :
  walkRange Examples.walkList1 Examples.dot0
    (Some (Examples.pipe [parse.FieldNode ["Empty"; "Array"]]))
    [parse.TextNode "x"] (Some [parse.TextNode "none"]) Examples.state0
  = Some (Ret tt (set_wr Examples.state0 (Sample.mkbuffer "none" 96))).
Proof.
  rewrite (X17_range_over_nothing (Ext:=Sample.externals) Examples.walkList1
             Examples.dot0 _ _ _ Examples.state0 Examples.v_empty_array
             Examples.state0);
    vm_compute; reflexivity.
Defined.

(** Over the first sample document [{{range .Bool}}x{{else}}none{{end}}]
    is an error. *)
Lemma X18_range_cannot_iterate_witness :
  walkRange Examples.walkList1 Examples.dot0
    (Some (Examples.pipe [parse.FieldNode ["Bool"]]))
    [parse.TextNode "x"] (Some [parse.TextNode "none"]) Examples.state0
  = Some (Panic (PanicExecError
                   {| ErrName := "t";
                      ErrFormat := "range can't iterate over %v";
                      ErrArgs := [ArgString "true"] |})
            (pop (mark Examples.state0) Examples.state0)).
Proof.
  apply (X18_range_cannot_iterate (Ext:=Sample.externals) Examples.walkList1
           Examples.dot0 _ _ _ Examples.state0 Examples.v_true Examples.state0);
    vm_compute; reflexivity.
Defined.

Section Counting.
Context {T : SinkTypes} {Ext : Externals}.

Variable walkRoot : gjson.Result -> option (list parse.Node) -> Walk unit.

Lemma pop_mark_set_wr s w : pop (mark s) (set_wr s w) = set_wr s w.
Proof. unfold pop, mark, set_vars, set_wr. simpl. by rewrite firstn_all. Qed.

Lemma wrote_nil s : wrote s [] = Some (Ret tt s).
Proof. unfold wrote. simpl. by rewrite set_wr_same. Qed.

Lemma wrote_cons s text rest :
  wrote s (text :: rest)
  = match Write (wr s) text with
    | (w, None) =>
        match wrote (set_wr s w) rest with
        | Some (Ret _ s') => Some (Ret tt s')
        | other => other
        end
    | (w, Some err) => Some (Panic (PanicWriteError err) (set_wr s w))
    end.
Proof.
  unfold wrote. simpl. destruct (Write (wr s) text) as [w [err|]]; [done|].
  simpl. by destruct (writeAll w rest) as [w' [err|]].
Qed.

(** One iteration over a body that is a text, for a pipeline that declares
    no variable: one write. *)
Lemma oneIteration_text p text index elem s :
  parse.Decl p = [] ->
  oneIteration (walkNodes walkRoot) (Some p) [parse.TextNode text] (mark s) index elem s
  = wrote s [text].
Proof.
  intros Hd. unfold oneIteration, wbind, lift, bindLoopVars, rangePipe, bind, ret.
  rewrite Hd. change (len (@nil parse.VariableNode)) with 0%Z.
  change (0 <? 0)%Z with false. change (1 <? 0)%Z with false. cbn beta iota.
  unfold defer_pop, recover_only.
  rewrite walkNodes_cons, walkNodes_nil. unfold wbind, wret.
  change (walkNode walkRoot elem (parse.TextNode text) s) with (lift (write text) s).
  unfold lift, write, wrote, writeError. cbn [writeAll].
  destruct (Write (wr s) text) as [w [err|]]; cbn [is_walkContinue];
    cbn beta iota; by rewrite pop_mark_set_wr.
Qed.

Section Loop.

Variable one : gjson.Result -> gjson.Result -> Walk unit.
Variable text : string.
Variable m : nat.
Hypothesis one_writes :
  forall index elem s, mark s = m -> one index elem s = wrote s [text].

Lemma wrote_mark s texts r :
  wrote s texts = Some r -> mark (state_of r) = mark s.
Proof.
  unfold wrote. destruct (writeAll (wr s) texts) as [w [err|]]; by intros [= <-].
Qed.

Lemma loop_writes (k : Walk unit) n s :
  mark s = m ->
  (forall s', mark s' = m -> k s' = wrote s' (repeat text n)) ->
  forall index elem,
    wbind (one index elem) (fun _ => k) s = wrote s (repeat text (S n)).
Proof.
  intros Hm Hk index elem. unfold wbind. rewrite one_writes by done.
  cbn [repeat]. rewrite !wrote_cons.
  destruct (Write (wr s) text) as [w [err|]]; [done|].
  rewrite wrote_nil. rewrite Hk by done.
  by destruct (wrote (set_wr s w) (repeat text n)) as [[[] ?|]|].
Qed.

Lemma rangeArray_writes elems i s :
  mark s = m -> rangeArray one elems i s = wrote s (repeat text (length elems)).
Proof.
  revert i s. induction elems as [|elem rest IH]; intros i s Hm.
  - by rewrite wrote_nil.
  - apply (loop_writes (rangeArray one rest (i + 1))); [done|].
    intros s' Hs'. by apply IH.
Qed.

Lemma rangeObject_writes pairs s :
  mark s = m -> rangeObject one pairs s = wrote s (repeat text (length pairs)).
Proof.
  revert s. induction pairs as [|[key val] rest IH]; intros s Hm.
  - by rewrite wrote_nil.
  - apply (loop_writes (rangeObject one rest)); [done|].
    intros s' Hs'. by apply IH.
Qed.

Lemma rangeCount_writes todo i s :
  mark s = m -> rangeCount one todo i s = wrote s (repeat text todo).
Proof.
  revert i s. induction todo as [|todo IH]; intros i s Hm.
  - by rewrite wrote_nil.
  - apply (loop_writes (rangeCount one todo (i + 1))); [done|].
    intros s' Hs'. by apply IH.
Qed.

Lemma rangeRunes_writes runes s :
  mark s = m -> rangeRunes one runes s = wrote s (repeat text (length runes)).
Proof.
  revert s. induction runes as [|[i r] rest IH]; intros s Hm.
  - by rewrite wrote_nil.
  - apply (loop_writes (rangeRunes one rest)); [done|].
    intros s' Hs'. by apply IH.
Qed.

End Loop.

(** X19.  The number of iterations.  A range without variables whose body
    is a text writes the text once per element of an array, per member of
    an object, per rune of a string, and [n] times for the number [n]; it
    stops at the first write the sink refuses, with a write error; the else
    list is not walked. *)
Theorem X19_range_repeats_a_text dot p text e s val s1 :
  evalPipe dot p s = Ret val s1 ->
  parse.Decl p = [] ->
  iterable val = true -> empty_range val = false ->
  walkNode walkRoot dot (parse.RangeNode (Some p) [parse.TextNode text] e) s
  = match writeAll (wr s1) (repeat text (iterations val)) with
    | (w, None) => Some (Ret tt (pop (mark s) (set_wr s1 w)))
    | (w, Some err) =>
        Some (Panic (PanicWriteError err) (pop (mark s) (set_wr s1 w)))
    end.
Proof.
  intros Ev Hd Hit Hne. rewrite walkNode_Range, walkRange_unfold.
  unfold recover_only, defer_pop. rewrite walkRangeBody_unfold, Ev. cbn zeta.
  assert (Hone : forall index elem s', mark s' = mark s1 ->
    oneIteration (walkNodes walkRoot) (Some p) [parse.TextNode text] (mark s1)
      index elem s' = wrote s' [text]).
  { intros index elem s' <-. by apply oneIteration_text. }
  assert (Hfin : forall r,
    r = wrote s1 (repeat text (iterations val)) ->
    match
      match r with
      | Some (Ret a s') => Some (Ret a (pop (mark s) s'))
      | Some (Panic q s') => Some (Panic q (pop (mark s) s'))
      | None => None
      end
    with
    | Some (Ret a s') => Some (Ret a s')
    | Some (Panic q s') =>
        if is_walkBreak q then Some (Ret tt s') else Some (Panic q s')
    | None => None
    end
    = match writeAll (wr s1) (repeat text (iterations val)) with
      | (w, None) => Some (Ret tt (pop (mark s) (set_wr s1 w)))
      | (w, Some err) =>
          Some (Panic (PanicWriteError err) (pop (mark s) (set_wr s1 w)))
      end).
  { intros r ->. unfold wrote. by destruct (writeAll _ _) as [w [err|]]. }
  apply Hfin. unfold iterations, iterable, empty_range in *.
  destruct (gjson.IsArray val).
  { destruct (Array val) as [|x rest] eqn:Ea; [done|].
    by apply (rangeArray_writes _ text (mark s1) Hone). }
  destruct (gjson.IsObject val).
  { rewrite Hne. by apply (rangeObject_writes _ text (mark s1) Hone). }
  destruct (is_Number val).
  { rewrite Hd, Hne. change (1 <? len [])%Z with false. cbn beta iota.
    by apply (rangeCount_writes _ text (mark s1) Hone). }
  destruct (is_String val); [|done].
  rewrite Hne. by apply (rangeRunes_writes _ text (mark s1) Hone).
Qed.

End Counting.

(** Over the first sample document, whose Array has three elements,
    [{{range .Array}},{{end}}] writes three commas. *)
Lemma X19_range_repeats_a_text_witness :
  walkNode (walkRootWith 1) Examples.dot0
    (parse.RangeNode (Some (Examples.pipe [parse.FieldNode ["Array"]]))
       [parse.TextNode ","] None) Examples.state0
  = match writeAll (wr Examples.state0) (repeat "," (iterations Examples.v_array)) with
    | (w, None) => Some (Ret tt (pop (mark Examples.state0) (set_wr Examples.state0 w)))
    | (w, Some err) =>
        Some (Panic (PanicWriteError err)
                (pop (mark Examples.state0) (set_wr Examples.state0 w)))
    end
  /\ writeAll (wr Examples.state0) (repeat "," (iterations Examples.v_array))
     = (Sample.mkbuffer ",,," 97, None).
Proof.
  split; [|vm_compute; reflexivity].
  apply (X19_range_repeats_a_text (Ext:=Sample.externals));
    vm_compute; reflexivity.
Defined.

Section Traces.
Context {T : SinkTypes} {Ext : Externals}.

Lemma writeAll_app w texts1 texts2 w1 :
  writeAll w texts1 = (w1, None) ->
  writeAll w (texts1 ++ texts2) = writeAll w1 texts2.
Proof.
  revert w. induction texts1 as [|t rest IH]; intros w; simpl.
  - by intros [= <-].
  - destruct (Write w t) as [w' [err|]]; [discriminate|]. apply IH.
Qed.

Lemma traced_quiet s {A} (r : result A) :
  wr (state_of r) = wr s -> sink_error_of r = None -> traced s r.
Proof. intros Hw He. exists []. simpl. by rewrite Hw, He. Qed.

Lemma traced_then s {A B} (a : A) s1 (r : result B) :
  traced s (Ret a s1) -> traced s1 r -> traced s r.
Proof.
  intros [t1 H1] [t2 H2]. exists (t1 ++ t2). simpl in H1.
  by rewrite (writeAll_app _ _ _ _ H1).
Qed.

Lemma traced_frames {A} (m : Exec A) s : frames m -> traced s (m s).
Proof.
  intros H. destruct (H s) as [[_ Hw] Hf]. apply traced_quiet; [done|].
  destruct (m s) as [a s'|p s']; [done|]. destruct Hf as [Hf _].
  by destruct p.
Qed.

Lemma wtraces_wret {A} (a : A) : wtraces (wret a).
Proof. intros s r [= <-]. by apply traced_quiet. Qed.

Lemma wtraces_signal {A} p :
  (forall err, p <> PanicWriteError err) -> wtraces (@wpanic _ A p).
Proof.
  intros Hp s r [= <-]. apply traced_quiet; [done|].
  destruct p; try done. by destruct (Hp e).
Qed.

Lemma wtraces_lift {A} (m : Exec A) : frames m -> wtraces (lift m).
Proof. intros H s r [= <-]. by apply traced_frames. Qed.

Lemma wtraces_wbind {A B} (m : Walk A) (k : A -> Walk B) :
  wtraces m -> (forall a, wtraces (k a)) -> wtraces (wbind m k).
Proof.
  intros Hm Hk s r. unfold wbind.
  destruct (m s) as [[a s'|p s']|] eqn:E; [| |discriminate].
  - intros Hr. eapply traced_then; [apply (Hm _ _ E) | apply (Hk _ _ _ Hr)].
  - intros [= <-]. destruct (Hm _ _ E) as [texts Ht]. by exists texts.
Qed.

Lemma wtraces_write text : wtraces (lift (write text)).
Proof.
  intros s r [= <-]. exists [text]. unfold write, writeError. simpl.
  by destruct (Write (wr s) text) as [w [err|]].
Qed.

Lemma wtraces_recover_only sentinel m :
  (forall err, sentinel (PanicWriteError err) = false) ->
  wtraces m -> wtraces (recover_only sentinel m).
Proof.
  intros Hs H s r. unfold recover_only.
  destruct (m s) as [[a s'|p s']|] eqn:E; [| |discriminate].
  - intros [= <-]. apply (H _ _ E).
  - destruct (H _ _ E) as [texts Ht].
    destruct (sentinel p) eqn:Ep; intros [= <-]; exists texts; [|done].
    destruct p; try done. by rewrite Hs in Ep.
Qed.

Lemma wtraces_defer_pop {A} k (m : Walk A) : wtraces m -> wtraces (defer_pop k m).
Proof.
  intros H s r. unfold defer_pop.
  destruct (m s) as [[a s'|p s']|] eqn:E; [| |discriminate];
    intros [= <-]; destruct (H _ _ E) as [texts Ht]; by exists texts.
Qed.

Lemma wtraces_defer_pop_mark {A} (m : Walk A) :
  wtraces m -> wtraces (fun s => defer_pop (mark s) m s).
Proof. intros H s r. by apply wtraces_defer_pop. Qed.

Section Loops.

Variable one : gjson.Result -> gjson.Result -> Walk unit.
Hypothesis one_traces : forall i e, wtraces (one i e).

Lemma wtraces_rangeArray elems i : wtraces (rangeArray one elems i).
Proof.
  revert i. induction elems; intros i; simpl;
    [apply wtraces_wret | apply wtraces_wbind; auto].
Qed.

Lemma wtraces_rangeObject pairs : wtraces (rangeObject one pairs).
Proof.
  induction pairs as [|[k v] rest IH]; simpl;
    [apply wtraces_wret | apply wtraces_wbind; auto].
Qed.

Lemma wtraces_rangeCount todo i : wtraces (rangeCount one todo i).
Proof.
  revert i. induction todo; intros i; simpl;
    [apply wtraces_wret | apply wtraces_wbind; auto].
Qed.

Lemma wtraces_rangeRunes runes : wtraces (rangeRunes one runes).
Proof.
  induction runes as [|[i c] rest IH]; simpl;
    [apply wtraces_wret | apply wtraces_wbind; auto].
Qed.

End Loops.

Section Blocks.

Variable walkList : gjson.Result -> list parse.Node -> Walk unit.

Lemma wtraces_walkElse dot e :
  (forall l, e = Some l -> wtraces (walkList dot l)) ->
  wtraces (walkElse walkList dot e).
Proof. intros H. destruct e; simpl; [by apply H | apply wtraces_wret]. Qed.

Lemma wtraces_walkIfOrWith typ dot pipe l e :
  (forall d, wtraces (walkList d l)) ->
  (forall l', e = Some l' -> wtraces (walkList dot l')) ->
  wtraces (walkIfOrWith walkList typ dot pipe l e).
Proof.
  intros Hl He. unfold walkIfOrWith. apply wtraces_defer_pop_mark.
  apply wtraces_wbind; [apply wtraces_lift, evalPipeline_frames|].
  intros val. destruct (isGjsonTrue val) as [truth ok].
  destruct ok; simpl; [|apply wtraces_lift, frames_errorf].
  destruct truth.
  - destruct typ; apply Hl.
  - destruct e as [l'|]; [by apply He | apply wtraces_wret].
Qed.

Lemma wtraces_oneIteration pipe l m index elem :
  wtraces (walkList elem l) ->
  wtraces (oneIteration walkList pipe l m index elem).
Proof.
  intros H. unfold oneIteration.
  apply wtraces_wbind; [apply wtraces_lift, frames_bindLoopVars|].
  intros _. by apply wtraces_defer_pop, wtraces_recover_only.
Qed.

Lemma wtraces_walkRange dot pipe l e :
  (forall d, wtraces (walkList d l)) ->
  (forall l', e = Some l' -> wtraces (walkList dot l')) ->
  wtraces (walkRange walkList dot pipe l e).
Proof.
  intros Hl He. unfold walkRange.
  apply wtraces_recover_only; [done|]. apply wtraces_defer_pop_mark.
  unfold walkRangeBody.
  apply wtraces_wbind; [apply wtraces_lift, evalPipeline_frames|].
  intros val s.
  pose proof (wtraces_walkElse dot e He) as Helse.
  assert (Hone : forall i e', wtraces (oneIteration walkList pipe l (mark s) i e')).
  { intros. by apply wtraces_oneIteration. }
  destruct (gjson.IsArray val).
  { destruct (Array val); [apply Helse | by apply wtraces_rangeArray]. }
  destruct (gjson.IsObject val).
  { destruct (_ || _); [apply Helse | by apply wtraces_rangeObject]. }
  destruct (is_Number val).
  { revert s Hone. intros s Hone.
    apply wtraces_wbind; [apply wtraces_lift, frames_rangePipe|].
    intros p. destruct (_ <? _)%Z; [apply wtraces_lift, frames_errorf|].
    destruct (_ <=? _)%Z; [apply Helse | by apply wtraces_rangeCount]. }
  destruct (is_String val).
  { destruct (String.eqb _ _); [apply Helse | by apply wtraces_rangeRunes]. }
  apply wtraces_lift, frames_errorf.
Qed.

End Blocks.

Section Node.

Variable walkRoot : gjson.Result -> option (list parse.Node) -> Walk unit.
Hypothesis walkRoot_traces : forall dot root, wtraces (walkRoot dot root).

Lemma wtraces_walkTemplate dot nm pipe :
  wtraces (walkTemplate walkRoot dot nm pipe).
Proof.
  intros s r. unfold walkTemplate.
  destruct (Lookup (tmpl s) nm) as [t'|]; [|apply wtraces_lift, frames_errorf].
  destruct (depth s =? maxExecDepth)%Z; [apply wtraces_lift, frames_errorf|].
  pose proof (traced_frames (evalPipeline dot pipe) s (evalPipeline_frames dot pipe)) as H1.
  destruct (evalPipeline dot pipe s) as [dot' s1|p s1].
  - destruct (walkRoot _ _ _) as [[a s2|p s2]|] eqn:E; [| |discriminate];
      intros [= <-]; apply walkRoot_traces in E;
      (eapply traced_then; [exact H1|]);
      destruct E as [texts Ht]; by exists texts.
  - by intros [= <-].
Qed.

Lemma wtraces_walkNodes dot l :
  Forall (walkNode_traces_at walkRoot) l -> wtraces (walkNodes walkRoot dot l).
Proof.
  induction 1 as [|n rest Hn _ IH].
  - rewrite walkNodes_nil. apply wtraces_wret.
  - rewrite walkNodes_cons. apply wtraces_wbind; [apply Hn | intros _; exact IH].
Qed.

Lemma wtraces_walkNodes_opt dot e :
  parse_ind.OptForall (walkNode_traces_at walkRoot) e ->
  forall l', e = Some l' -> wtraces (walkNodes walkRoot dot l').
Proof. intros H l' ->. by apply wtraces_walkNodes. Qed.

Lemma walkNode_wtraces dot n : wtraces (walkNode walkRoot dot n).
Proof.
  revert dot.
  apply (parse_ind.Node_mut (walkNode_traces_at walkRoot) (fun _ => True) (fun _ => True));
    try exact (fun _ => I); try (intros; exact I).
  - intros n' Hl dot. destruct n'; try discriminate Hl; simpl;
      first [ apply wtraces_wret | apply wtraces_write
            | apply wtraces_signal; discriminate
            | apply wtraces_lift, frames_errorf ].
  - intros p _ dot. simpl.
    apply wtraces_wbind; [apply wtraces_lift, evalPipeline_frames|].
    intros val. destruct p as [p|]; [|apply wtraces_lift, frames_runtime_panic].
    destruct (_ =? _)%Z; [apply wtraces_write | apply wtraces_wret].
  - intros n' f _ dot. apply wtraces_lift, frames_errorf.
  - intros c _ dot. apply wtraces_lift, frames_errorf.
  - intros p l e _ Hl He dot. rewrite walkNode_If.
    apply wtraces_walkIfOrWith;
      [intros d; by apply wtraces_walkNodes | by apply wtraces_walkNodes_opt].
  - intros l Hl dot. by apply wtraces_walkNodes.
  - intros p _ dot. apply wtraces_lift, frames_errorf.
  - intros p l e _ Hl He dot. rewrite walkNode_Range.
    apply wtraces_walkRange;
      [intros d; by apply wtraces_walkNodes | by apply wtraces_walkNodes_opt].
  - intros nm p _ dot. rewrite walkNode_Template. apply wtraces_walkTemplate.
  - intros p l e _ Hl He dot. rewrite walkNode_With.
    apply wtraces_walkIfOrWith;
      [intros d; by apply wtraces_walkNodes | by apply wtraces_walkNodes_opt].
Qed.

End Node.

Lemma walkRootWith_wtraces b dot root : wtraces (walkRootWith b dot root).
Proof.
  revert dot root. induction b as [|b IH]; intros dot root.
  - intros s r. discriminate.
  - rewrite walkRootWith_S. unfold walkListNode.
    destruct root as [nodes|]; [|apply wtraces_lift, frames_runtime_panic].
    by apply walkNode_wtraces.
Qed.

(** X21.  Whatever the template and the data, Execute changes the sink
    through Write only: the state it leaves the sink in is reached from the
    initial one by a sequence of writes.  When Execute returns the error of
    the sink, every write of the sequence but the last one was accepted and
    the last one reported that error; in every other case, a return of nil
    or of another error or a panic, every write was accepted. *)
Theorem X21_output_is_a_run_of_writes t w data o :
  Execute t w data = Some o ->
  exists texts,
    match o with
    | Returns (Some (SinkErrorValue err)) w' => writeAll w texts = (w', Some err)
    | Returns _ w' | Panics _ w' => writeAll w texts = (w', None)
    end.
Proof.
  unfold Execute, execute, execute_with.
  destruct (_ && _); [intros [= <-]; by exists []|].
  intros H.
  assert (Ht : exists r,
    run (Z.to_nat maxExecDepth) t (ParseBytes data)
        (initialState t w (ParseBytes data)) = Some r
    /\ traced (initialState t w (ParseBytes data)) r).
  { destruct (run _ _ _ _) as [r|] eqn:E; [|discriminate]. exists r.
    split; [done|]. unfold run in E. destruct (Root t) as [nodes|].
    - unfold walk in E. revert E. apply walkNode_wtraces.
      intros d root. apply walkRootWith_wtraces.
    - by apply (wtraces_lift _ (frames_errorf _ _)) in E. }
  destruct Ht as (r & Er & texts & Ht). rewrite Er in H.
  simpl in Ht. exists texts.
  destruct r as [[] s|p s]; [by injection H as <-|].
  destruct p; simpl in *; injection H as <-; exact Ht.
Qed.

End Traces.

(** The template that writes "hello" into a buffer with room for 100
    bytes returns nil, and the buffer is reached by accepted writes; into
    a buffer with room for 3 bytes it returns the error of the refused
    write. *)
Lemma X21_output_is_a_run_of_writes_witness :
  (exists texts,
     writeAll (Examples.buffer 100) texts = (Sample.mkbuffer "hello" 95, None))
  /\ (exists texts,
        writeAll (Examples.buffer 3) texts = (Examples.buffer 3, Some "short write")).
Proof.
  split.
  - apply (X21_output_is_a_run_of_writes (Ext:=Sample.externals) Examples.hello
             (Examples.buffer 100) Examples.doc
             (@Returns Sample.types None (Sample.mkbuffer "hello" 95))).
    vm_compute. reflexivity.
  - apply (X21_output_is_a_run_of_writes (Ext:=Sample.externals) Examples.hello
             (Examples.buffer 3) Examples.doc
             (@Returns Sample.types (Some (@SinkErrorValue Sample.types "short write")) (Examples.buffer 3))).
    vm_compute. reflexivity.
Defined.

Section Small.
Context {T : SinkTypes} {Ext : Externals}.

Lemma length_doublePercent str :
  (String.length str <= String.length (doublePercent str))%nat.
Proof.
  induction str as [|c rest IH]; cbn [doublePercent]; [done|].
  destruct (Ascii.eqb c "%"%char); cbn [String.length]; lia.
Qed.

(** X24.  doublePercent makes a string safe as a Printf format: read as a
    format, the result has no verb, and stands for the string itself.  It
    changes exactly the strings that contain a percent sign. *)
Theorem X24_doublePercent_is_literal (str : string) :
  literal_format (doublePercent str) = Some str
  /\ (doublePercent str = str <-> String.index 0 "%" str = None).
Proof.
  split.
  - induction str as [|c rest IH]; [done|]. cbn [doublePercent].
    destruct (Ascii.eqb c "%"%char) eqn:E.
    + apply Ascii.eqb_eq in E as ->.
      cbn [literal_format]. rewrite Ascii.eqb_refl, IH. done.
    + cbn [literal_format]. rewrite E, IH. done.
  - induction str as [|c rest IH]; [done|].
    cbn [doublePercent String.index]. change (String.prefix "%" (String c rest))
      with (if ascii_dec "%"%char c then String.prefix "" rest else false).
    destruct (Ascii.eqb c "%"%char) eqn:E.
    + apply Ascii.eqb_eq in E as ->.
      destruct (ascii_dec "%"%char "%"%char) as [_|Hne]; [|done].
      assert (Hp : String.prefix "" rest = true) by (by destruct rest).
      rewrite Hp. split; [|done]. intros [= H]. exfalso.
      pose proof (length_doublePercent rest) as Hl.
      apply (f_equal String.length) in H. cbn [String.length] in H. lia.
    + apply Ascii.eqb_neq in E.
      destruct (ascii_dec "%"%char c) as [Heq|_]; [by destruct E|].
      destruct (String.index 0 "%" rest) as [n|] eqn:Ei.
      * split; [|done]. intros [= H]. apply IH in H. discriminate.
      * split; [done|]. intros _. f_equal. by apply IH.
Qed.

(** X25.  evalField and the missing key.  A key is found when the receiver
    exists and gjson finds the key in it.  When evalField returns, the
    state is as it was, and the value exists exactly when the key is found,
    in which case it is the value found; a missing key gives a value that
    does not exist under either lenient option.  When evalField faults for
    a missing key in a call without arguments, the option is mapError. *)
Theorem X25_evalField_missing_key dot fieldName args final receiver s :
  let found := gjson.Exists receiver && gjson.Exists (Get receiver fieldName) in
  match evalField dot fieldName args final receiver s with
  | Ret v s' =>
      s' = s
      /\ gjson.Exists v = found
      /\ (found = true -> v = Get receiver fieldName)
  | Panic p s' =>
      s' = s
      /\ (found = false -> has_arguments args final = false ->
          missingKey (tmpl s) = mapError)
  end.
Proof.
  unfold evalField, has_arguments, errorf. simpl.
  destruct (gjson.Exists receiver) eqn:Er; simpl.
  - destruct ((1 <? len args)%Z || gjson.Exists final); simpl; [done|].
    destruct (gjson.Exists (Get receiver fieldName)) eqn:Eg; simpl; [done|].
    by destruct (missingKey (tmpl s)).
  - by destruct (missingKey (tmpl s)).
Qed.

(** X23.  The checks of ExecuteTemplate, in order.  A name without a
    template gives the error "no template %q associated with template %q",
    whatever the data.  For a name with a template, data that is neither
    object nor array gives the "data must be a valid JSON object or array"
    error under the name looked up; accepted data with a template that has
    no tree gives the ExecError "%q is an incomplete or empty template";
    in all three cases the sink is untouched.  Otherwise ExecuteTemplate is
    Execute on the template found. *)
Theorem X23_ExecuteTemplate_checks_in_order t w name data :
  (Lookup t name = None ->
   ExecuteTemplate t w name data
   = Some (Returns
             (Some (ErrorfValue
                      "template: no template %q associated with template %q"
                      [ArgString name; ArgString (Name t)])) w))
  /\ (forall t', Lookup t name = Some t' ->
      (~ accepted data ->
       ExecuteTemplate t w name data
       = Some (Returns
                 (Some (ErrorfValue
                          "template: %s: data must be a valid JSON object or array"
                          [ArgString name])) w))
      /\ (accepted data -> Root t' = None ->
          ExecuteTemplate t w name data
          = Some (Returns
                    (Some (ExecErrorValue
                             {| ErrName := name;
                                ErrFormat := "%q is an incomplete or empty template";
                                ErrArgs := [ArgString name] |})) w))
      /\ (accepted data -> ExecuteTemplate t w name data = Execute t' w data)).
Proof.
  unfold ExecuteTemplate. split; [by intros ->|].
  intros t' Ht. rewrite Ht.
  apply Lookup_known in Ht as (Hn & _ & _).
  unfold Execute, execute, execute_with, accepted.
  split; [|split].
  - intros Hno. rewrite Hn.
    destruct (gjson.IsObject (ParseBytes data)); [destruct Hno; by left|].
    destruct (gjson.IsArray (ParseBytes data)); [destruct Hno; by right|]. done.
  - intros Hok Hroot. rewrite accepted_check by done.
    unfold run. rewrite Hroot. simpl. by rewrite Hn.
  - done.
Qed.

End Small.

Section WithDot.
Context {T : SinkTypes} {Ext : Externals}.

Variable walkRoot : gjson.Result -> option (list parse.Node) -> Walk unit.

Lemma walk_dot_action dot s :
  walkNodes walkRoot dot [dot_action] s = Some (printValue dot s).
Proof.
  rewrite walkNodes_cons, walkNodes_nil. unfold wbind, dot_action.
  rewrite walkNode_Action, evalPipe_single.
  change (evalCommand dot (parse.mkCommandNode [parse.DotNode]) gjson.zero s)
    with (Ret dot s).
  cbn. unfold wret. by destruct (printValue dot s) as [[] ?|].
Qed.

(** X16.  with sets dot, if does not.  When the pipeline returns a true
    value [v], [{{with p}}{{.}}{{end}}] prints [v] and [{{if p}}{{.}}{{end}}]
    prints dot; either way the variables the pipeline declared are popped
    on the way out, also when the write fails. *)
Theorem X16_with_sets_dot dot p e s v s1 :
  evalPipe dot p s = Ret v s1 -> truthy v ->
  walkNode walkRoot dot (parse.WithNode (Some p) [dot_action] e) s
  = Some (leave (mark s) (printValue v s1))
  /\ walkNode walkRoot dot (parse.IfNode (Some p) [dot_action] e) s
     = Some (leave (mark s) (printValue dot s1)).
Proof.
  intros Ev Hv. rewrite walkNode_With, walkNode_If.
  unfold walkIfOrWith, defer_pop, wbind, lift, evalPipeline.
  rewrite Ev, Hv. cbn [negb]. rewrite !walk_dot_action.
  split; unfold leave; by destruct (printValue _ s1).
Qed.

End WithDot.

(** Over the first sample document, [{{with .Number}}{{.}}{{end}}] prints
    42 and [{{if .Number}}{{.}}{{end}}] prints the document. *)
Lemma X16_with_sets_dot_witness :
  walkNode (walkRootWith 1) Examples.dot0
    (parse.WithNode (Some (Examples.pipe [parse.FieldNode ["Number"]]))
       [dot_action] None) Examples.state0
  = Some (leave (mark Examples.state0) (printValue Examples.v_42 Examples.state0))
  /\ walkNode (walkRootWith 1) Examples.dot0
       (parse.IfNode (Some (Examples.pipe [parse.FieldNode ["Number"]]))
          [dot_action] None) Examples.state0
     = Some (leave (mark Examples.state0)
               (printValue Examples.dot0 Examples.state0)).
Proof.
  apply (X16_with_sets_dot (Ext:=Sample.externals)); vm_compute; reflexivity.
Defined.

Section Blind.
Context {T : SinkTypes} {Ext : Externals}.

Variable f : missingKeyAction -> missingKeyAction.
Hypothesis f_error : forall m, missingKey_is_error (f m) = missingKey_is_error m.

Lemma blind_ret {A} (a : A) : blind f (ret a).
Proof. by intros s. Qed.

Lemma blind_errorf {A} fmt args : blind f (@errorf _ A fmt args).
Proof. by intros s. Qed.

Lemma blind_runtime_panic {A} what : blind f (@runtime_panic _ A what).
Proof. by intros s. Qed.

Lemma blind_bind {A B} (m : Exec A) (k : A -> Exec B) :
  blind f m -> (forall a, blind f (k a)) -> blind f (bind m k).
Proof.
  intros Hm Hk s. unfold bind. rewrite Hm.
  destruct (m s) as [a s'|p s']; simpl; [apply Hk | done].
Qed.

Lemma blind_strict : blind f strict.
Proof. intros s. unfold strict. simpl. by rewrite f_error. Qed.

Lemma blind_push x v : blind f (push x v).
Proof. by intros s. Qed.

Lemma blind_setVar x v : blind f (setVar x v).
Proof.
  intros s. unfold setVar, mark. simpl. by destruct (findVar _ _ _).
Qed.

Lemma blind_setTopVar n v : blind f (setTopVar n v).
Proof.
  intros s. unfold setTopVar. simpl. destruct n; [done|].
  destruct (Nat.ltb _ _); [done|]. by destruct (vars s !! _).
Qed.

Lemma blind_varValue x : blind f (varValue x).
Proof.
  intros s. unfold varValue, mark. simpl.
  destruct (findVar _ _ _); [|done]. by destruct (vars s !! _).
Qed.

Ltac blind_step :=
  first
    [ apply blind_ret | apply blind_errorf | apply blind_runtime_panic
    | apply blind_strict | apply blind_push | apply blind_setVar
    | apply blind_setTopVar | apply blind_varValue
    | assumption
    | apply blind_bind; [|intros ?]
    | match goal with
      | |- blind f (if ?b then _ else _) => destruct b
      | |- blind f (match ?x with _ => _ end) => destruct x
      end ].

Ltac blind_auto := repeat blind_step.

Lemma blind_notAFunction args final : blind f (notAFunction args final).
Proof. unfold notAFunction. blind_auto. Qed.

Lemma blind_evalFieldChain dot receiver ident args final :
  blind f (evalFieldChain dot receiver ident args final).
Proof. unfold evalFieldChain. blind_auto. Qed.

Lemma blind_evalFieldNode dot ident args final :
  blind f (evalFieldNode dot ident args final).
Proof. apply blind_evalFieldChain. Qed.

Lemma blind_evalChainNode dot chain node field evalNode args final :
  blind f evalNode ->
  blind f (evalChainNode dot chain node field evalNode args final).
Proof. intros H. unfold evalChainNode. blind_auto. Qed.

Lemma blind_evalVariableNode dot v args final :
  blind f (evalVariableNode dot v args final).
Proof.
  unfold evalVariableNode.
  destruct (parse.Ident v) as [|x rest]; [blind_auto|].
  apply blind_bind; [blind_auto | intros value].
  destruct rest; [|apply blind_evalFieldChain].
  apply blind_bind; [apply blind_notAFunction | intros; blind_auto].
Qed.

Lemma blind_evalAll argv : Forall (blind f) argv -> blind f (evalAll argv).
Proof. induction 1; simpl; blind_auto. Qed.

Lemma blind_andOr fname argv lastArg :
  Forall (blind f) argv -> blind f (andOr fname argv lastArg).
Proof.
  intros H. revert lastArg. induction H as [|a rest Ha _ IH]; intros lastArg; simpl.
  - blind_auto.
  - apply blind_bind; [assumption | intros arg].
    destruct (isGjsonTrue arg) as [truth ok].
    destruct ok, truth; simpl; destruct (String.eqb fname "and");
      first [apply IH | blind_auto].
Qed.

Lemma blind_declare isAssign decl val : blind f (declare isAssign decl val).
Proof.
  induction decl as [|v rest IH]; simpl; [blind_auto|].
  destruct (parse.Ident v); [blind_auto|].
  apply blind_bind; [destruct isAssign; blind_auto | intros; exact IH].
Qed.

Lemma blind_evalBacktick dot text args final :
  blind f (evalBacktick dot text args final).
Proof. unfold evalBacktick. blind_auto. Qed.

Lemma blind_evalFunction dot fname argv final :
  Forall (blind f) argv -> blind f (evalFunction dot fname argv final).
Proof.
  intros H. unfold evalFunction, wrong_args_want_1.
  destruct H as [|a0 rest0 H0 H]; [|destruct H as [|a1 rest1 H1 H];
    [|destruct H as [|a2 rest2 H2 H]]]; simpl;
  repeat first
    [ blind_step
    | apply blind_andOr; assumption
    | apply blind_evalAll; assumption
    | match goal with
      | |- blind f (let '(_, _) := ?x in _) => destruct x
      end ].
Qed.

Ltac eval_blind_step :=
  first
    [ apply blind_ret | apply blind_errorf | apply blind_runtime_panic
    | apply blind_strict | apply blind_push | apply blind_setVar
    | apply blind_setTopVar | apply blind_varValue
    | apply blind_notAFunction | apply blind_evalFieldNode
    | apply blind_evalVariableNode | apply blind_evalBacktick
    | apply blind_declare
    | assumption
    | apply blind_bind; [|intros ?]
    | match goal with
      | |- blind f (if ?b then _ else _) => destruct b
      end ].

Lemma eval_blind_leaf n :
  parse_ind.is_leaf n = true -> evalArg_blind_at f n.
Proof.
  intros Hl. split; [|destruct n; try exact I; discriminate Hl].
  intros dot. destruct n; try discriminate Hl; simpl;
    try solve [repeat eval_blind_step].
  apply blind_evalFunction. constructor.
Qed.

Lemma eval_blind_other n :
  match n with
  | parse.ActionNode _ | parse.CommandNode_ _ | parse.IfNode _ _ _
  | parse.ListNode _ | parse.RangeNode _ _ _ | parse.TemplateNode _ _
  | parse.WithNode _ _ _ => evalArg_blind_at f n
  | _ => True
  end.
Proof. destruct n; try exact I; (split; [intros dot; apply blind_errorf | exact I]). Qed.

Lemma eval_blind_chain n fld :
  evalArg_blind_at f n -> evalArg_blind_at f (parse.ChainNode n fld).
Proof.
  intros [H _]. split; [|exact H].
  intros dot. simpl. apply blind_evalChainNode, H.
Qed.

Lemma eval_blind_pipe p :
  evalPipe_blind_at f p -> evalArg_blind_at f (parse.PipeNode_ p).
Proof. intros H. split; [exact H | exact I]. Qed.

Lemma eval_blind_mkPipe a d c :
  Forall (evalCommand_blind_at f) c -> evalPipe_blind_at f (parse.mkPipeNode a d c).
Proof.
  intros H dot. simpl.
  apply blind_bind; [|intros; repeat eval_blind_step].
  generalize gjson.zero.
  induction H as [|cmd rest Hc _ IH]; intros val; [apply blind_ret|].
  apply blind_bind; [apply Hc | intros v; apply IH].
Qed.

Lemma eval_blind_mkCommand args :
  Forall (evalArg_blind_at f) args ->
  evalCommand_blind_at f (parse.mkCommandNode args).
Proof.
  intros H dot final. simpl.
  destruct H as [|firstWord rest [H0 H0'] H]; [apply blind_runtime_panic|].
  assert (Hargs : Forall (blind f) (map (evalArg dot) (firstWord :: rest))).
  { apply Forall_fmap. constructor; [apply H0|].
    eapply Forall_impl; [exact H|]. intros x [Hx _]. apply Hx. }
  destruct firstWord; simpl in H0';
    try solve [repeat eval_blind_step].
  - apply blind_evalChainNode, H0'.
  - apply blind_evalFunction, Hargs.
  - apply blind_bind; [apply blind_notAFunction | intros _; apply H0].
Qed.

Lemma evalPipe_blind dot p : blind f (evalPipe dot p).
Proof.
  revert dot.
  apply (parse_ind.PipeNode_mut (evalArg_blind_at f) (evalPipe_blind_at f)
           (evalCommand_blind_at f));
    intros;
    first [ apply eval_blind_leaf; assumption
          | apply eval_blind_chain; assumption
          | apply eval_blind_pipe; assumption
          | apply eval_blind_mkPipe; assumption
          | apply eval_blind_mkCommand; assumption
          | match goal with |- evalArg_blind_at f ?n => exact (eval_blind_other n) end ].
Qed.

Lemma evalPipeline_blind dot pipe : blind f (evalPipeline dot pipe).
Proof. destruct pipe; simpl; [apply evalPipe_blind | apply blind_ret]. Qed.

Lemma blind_declIdent decl i : blind f (declIdent decl i).
Proof. unfold declIdent. blind_auto. Qed.

Lemma blind_rangePipe pipe : blind f (rangePipe pipe).
Proof. unfold rangePipe. blind_auto. Qed.

Lemma blind_bindLoopVars pipe index elem : blind f (bindLoopVars pipe index elem).
Proof.
  unfold bindLoopVars.
  apply blind_bind; [apply blind_rangePipe|]. intros p.
  apply blind_bind; [|intros _];
    repeat first
      [ apply blind_declIdent | blind_step ].
Qed.

(** Walks *)

Lemma wblind_wret {A} (a : A) : wblind f (wret a).
Proof. by intros s. Qed.

Lemma wblind_wpanic {A} p : wblind f (@wpanic _ A p).
Proof. by intros s. Qed.

Lemma wblind_lift {A} (m : Exec A) : blind f m -> wblind f (lift m).
Proof. intros H s. unfold lift. by rewrite H. Qed.

Lemma wblind_wbind {A B} (m : Walk A) (k : A -> Walk B) :
  wblind f m -> (forall a, wblind f (k a)) -> wblind f (wbind m k).
Proof.
  intros Hm Hk s. unfold wbind. rewrite Hm.
  destruct (m s) as [[a s'|p s']|]; simpl; [apply Hk | done | done].
Qed.

Lemma wblind_write text : wblind f (lift (write text)).
Proof.
  apply wblind_lift. intros s. unfold write. simpl.
  by destruct (Write (wr s) text) as [w [err|]].
Qed.

Lemma wblind_recover_only sentinel m :
  wblind f m -> wblind f (recover_only sentinel m).
Proof.
  intros H s. unfold recover_only. rewrite H.
  destruct (m s) as [[a s'|p s']|]; simpl; [done| |done].
  by destruct (sentinel p).
Qed.

Lemma wblind_defer_pop {A} k (m : Walk A) :
  wblind f m -> wblind f (defer_pop k m).
Proof.
  intros H s. unfold defer_pop. rewrite H.
  by destruct (m s) as [[a s'|p s']|].
Qed.

Lemma wblind_at_mark {A} (F : nat -> Walk A) :
  (forall k, wblind f (F k)) -> wblind f (fun s => F (mark s) s).
Proof. intros H s. apply (H (mark s)). Qed.

Section Loops.

Variable one : gjson.Result -> gjson.Result -> Walk unit.
Hypothesis one_blind : forall i e, wblind f (one i e).

Lemma wblind_rangeArray elems i : wblind f (rangeArray one elems i).
Proof.
  revert i. induction elems; intros i; simpl;
    [apply wblind_wret | apply wblind_wbind; auto].
Qed.

Lemma wblind_rangeObject pairs : wblind f (rangeObject one pairs).
Proof.
  induction pairs as [|[k v] rest IH]; simpl;
    [apply wblind_wret | apply wblind_wbind; auto].
Qed.

Lemma wblind_rangeCount todo i : wblind f (rangeCount one todo i).
Proof.
  revert i. induction todo; intros i; simpl;
    [apply wblind_wret | apply wblind_wbind; auto].
Qed.

Lemma wblind_rangeRunes runes : wblind f (rangeRunes one runes).
Proof.
  induction runes as [|[i c] rest IH]; simpl;
    [apply wblind_wret | apply wblind_wbind; auto].
Qed.

End Loops.

Section Blocks.

Variable walkList : gjson.Result -> list parse.Node -> Walk unit.

Lemma wblind_walkElse dot e :
  (forall l, e = Some l -> wblind f (walkList dot l)) ->
  wblind f (walkElse walkList dot e).
Proof. intros H. destruct e; simpl; [by apply H | apply wblind_wret]. Qed.

Lemma wblind_walkIfOrWith typ dot pipe l e :
  (forall d, wblind f (walkList d l)) ->
  (forall l', e = Some l' -> wblind f (walkList dot l')) ->
  wblind f (walkIfOrWith walkList typ dot pipe l e).
Proof.
  intros Hl He. unfold walkIfOrWith.
  apply (wblind_at_mark (fun k => defer_pop k _)). intros k.
  apply wblind_defer_pop.
  apply wblind_wbind; [apply wblind_lift, evalPipeline_blind|].
  intros val. destruct (isGjsonTrue val) as [truth ok].
  destruct ok; simpl; [|apply wblind_lift, blind_errorf].
  destruct truth.
  - destruct typ; apply Hl.
  - destruct e as [l'|]; [by apply He | apply wblind_wret].
Qed.

Lemma wblind_oneIteration pipe l m index elem :
  wblind f (walkList elem l) ->
  wblind f (oneIteration walkList pipe l m index elem).
Proof.
  intros H. unfold oneIteration.
  apply wblind_wbind; [apply wblind_lift, blind_bindLoopVars|].
  intros _. by apply wblind_defer_pop, wblind_recover_only.
Qed.

Lemma wblind_walkRange dot pipe l e :
  (forall d, wblind f (walkList d l)) ->
  (forall l', e = Some l' -> wblind f (walkList dot l')) ->
  wblind f (walkRange walkList dot pipe l e).
Proof.
  intros Hl He. unfold walkRange.
  apply wblind_recover_only.
  apply (wblind_at_mark (fun k => defer_pop k _)). intros k.
  apply wblind_defer_pop. unfold walkRangeBody.
  apply wblind_wbind; [apply wblind_lift, evalPipeline_blind|].
  intros val.
  apply (wblind_at_mark (fun k =>
    if gjson.IsArray val then
      match Array val with
      | [] => walkElse walkList dot e
      | elems => rangeArray (oneIteration walkList pipe l k) elems 0
      end
    else if gjson.IsObject val then
      if negb (gjson.Exists val) || String.eqb (gjson.Raw val) "{}"
      then walkElse walkList dot e
      else rangeObject (oneIteration walkList pipe l k) (ForEach val)
    else if is_Number val then
      wbind (lift (rangePipe pipe)) (fun p =>
        if (1 <? len (parse.Decl p))%Z
        then lift (errorf "can't use %v to iterate over more than one variable"
                     [ArgString (gjson.Raw val)])
        else
          if (Int val <=? 0)%Z then walkElse walkList dot e
          else rangeCount (oneIteration walkList pipe l k) (Z.to_nat (Int val)) 0)
    else if is_String val then
      if String.eqb (String_ val) "" then walkElse walkList dot e
      else rangeRunes (oneIteration walkList pipe l k) (Runes (String_ val))
    else
      lift (errorf "range can't iterate over %v" [ArgString (gjson.Raw val)]))).
  intros top.
  pose proof (wblind_walkElse dot e He) as Helse.
  assert (Hone : forall i e', wblind f (oneIteration walkList pipe l top i e')).
  { intros. by apply wblind_oneIteration. }
  destruct (gjson.IsArray val).
  { destruct (Array val); [apply Helse | by apply wblind_rangeArray]. }
  destruct (gjson.IsObject val).
  { destruct (_ || _); [apply Helse | by apply wblind_rangeObject]. }
  destruct (is_Number val).
  { apply wblind_wbind; [apply wblind_lift, blind_rangePipe|].
    intros p. destruct (_ <? _)%Z; [apply wblind_lift, blind_errorf|].
    destruct (_ <=? _)%Z; [apply Helse | by apply wblind_rangeCount]. }
  destruct (is_String val).
  { destruct (String.eqb _ _); [apply Helse | by apply wblind_rangeRunes]. }
  apply wblind_lift, blind_errorf.
Qed.

End Blocks.

Lemma Lookup_retarget t nm :
  Lookup (retarget f t) nm = retarget f <$> Lookup t nm.
Proof.
  unfold Lookup. simpl. rewrite lookup_fmap.
  by destruct (common t !! nm).
Qed.

Section Node.

Variable walkRoot : gjson.Result -> option (list parse.Node) -> Walk unit.
Hypothesis walkRoot_blind : forall dot root, wblind f (walkRoot dot root).

Lemma wblind_walkTemplate dot nm pipe :
  wblind f (walkTemplate walkRoot dot nm pipe).
Proof.
  intros s. unfold walkTemplate.
  change (tmpl (retarget_state f s)) with (retarget f (tmpl s)).
  rewrite Lookup_retarget.
  destruct (Lookup (tmpl s) nm) as [t'|]; [|done]. cbn [fmap option_fmap option_map].
  change (depth (retarget_state f s)) with (depth s).
  destruct (depth s =? maxExecDepth)%Z; [done|].
  rewrite evalPipeline_blind.
  destruct (evalPipeline dot pipe s) as [dot' s1|p s1]; [|done].
  cbn [retarget_result].
  change (newState (retarget_state f s1) (retarget f t') dot')
    with (retarget_state f (newState s1 t' dot')).
  change (Root (retarget f t')) with (Root t').
  rewrite walkRoot_blind.
  by destruct (walkRoot dot' (Root t') (newState s1 t' dot')) as [[a s2|p s2]|].
Qed.

Lemma wblind_walkNodes dot l :
  Forall (walkNode_blind_at f walkRoot) l -> wblind f (walkNodes walkRoot dot l).
Proof.
  induction 1 as [|n rest Hn _ IH].
  - rewrite walkNodes_nil. apply wblind_wret.
  - rewrite walkNodes_cons. apply wblind_wbind; [apply Hn | intros _; exact IH].
Qed.

Lemma wblind_walkNodes_opt dot e :
  parse_ind.OptForall (walkNode_blind_at f walkRoot) e ->
  forall l', e = Some l' -> wblind f (walkNodes walkRoot dot l').
Proof. intros H l' ->. by apply wblind_walkNodes. Qed.

Lemma walkNode_wblind dot n : wblind f (walkNode walkRoot dot n).
Proof.
  revert dot.
  apply (parse_ind.Node_mut (walkNode_blind_at f walkRoot) (fun _ => True) (fun _ => True));
    try exact (fun _ => I); try (intros; exact I).
  - intros n' Hl dot. destruct n'; try discriminate Hl; simpl;
      first [ apply wblind_wret | apply wblind_write | apply wblind_wpanic
            | apply wblind_lift, blind_errorf ].
  - intros p _ dot. simpl.
    apply wblind_wbind; [apply wblind_lift, evalPipeline_blind|].
    intros val. destruct p as [p|]; [|apply wblind_lift, blind_runtime_panic].
    destruct (_ =? _)%Z; [apply wblind_write | apply wblind_wret].
  - intros n' fld _ dot. apply wblind_lift, blind_errorf.
  - intros c _ dot. apply wblind_lift, blind_errorf.
  - intros p l e _ Hl He dot. rewrite walkNode_If.
    apply wblind_walkIfOrWith;
      [intros d; by apply wblind_walkNodes | by apply wblind_walkNodes_opt].
  - intros l Hl dot. by apply wblind_walkNodes.
  - intros p _ dot. apply wblind_lift, blind_errorf.
  - intros p l e _ Hl He dot. rewrite walkNode_Range.
    apply wblind_walkRange;
      [intros d; by apply wblind_walkNodes | by apply wblind_walkNodes_opt].
  - intros nm p _ dot. rewrite walkNode_Template. apply wblind_walkTemplate.
  - intros p l e _ Hl He dot. rewrite walkNode_With.
    apply wblind_walkIfOrWith;
      [intros d; by apply wblind_walkNodes | by apply wblind_walkNodes_opt].
Qed.

End Node.

Lemma walkRootWith_wblind b dot root : wblind f (walkRootWith b dot root).
Proof.
  revert dot root. induction b as [|b IH]; intros dot root.
  - by intros s.
  - rewrite walkRootWith_S. unfold walkListNode.
    destruct root as [nodes|]; [|apply wblind_lift, blind_runtime_panic].
    by apply walkNode_wblind.
Qed.

Lemma Execute_retarget t w data :
  Execute (retarget f t) w data = Execute t w data.
Proof.
  unfold Execute, execute, execute_with.
  change (Name (retarget f t)) with (Name t).
  destruct (_ && _); [done|].
  change (initialState (retarget f t) w (ParseBytes data))
    with (retarget_state f (initialState t w (ParseBytes data))).
  unfold run. change (Root (retarget f t)) with (Root t).
  change (Name (retarget f t)) with (Name t).
  assert (H : wblind f (match Root t with
    | Some nodes => walk (Z.to_nat maxExecDepth) (ParseBytes data) (parse.ListNode nodes)
    | None => lift (errorf "%q is an incomplete or empty template" [ArgString (Name t)])
    end)).
  { destruct (Root t); [|apply wblind_lift, blind_errorf].
    apply walkNode_wblind. intros d r. apply walkRootWith_wblind. }
  rewrite H. clear H.
  match goal with
  | |- context [option_map _ ?m] => destruct m as [[a s|p s]|]
  end; simpl; try done.
Qed.

End Blind.

Section MissingKey.
Context {T : SinkTypes} {Ext : Externals}.

(** X22.  Of the missing-key option, execution sees only whether it is
    mapError.  Changing the option of a template and of the templates of
    its set in any way that keeps mapError apart from the other options
    (mapZeroValue for mapInvalid, say) changes nothing: Execute has the
    same outcome, output and error. *)
Theorem X22_only_the_error_option_matters
    (f : missingKeyAction -> missingKeyAction) t w data :
  (forall m, missingKey_is_error (f m) = missingKey_is_error m) ->
  Execute (retarget f t) w data = Execute t w data.
Proof. intros H. by apply Execute_retarget. Qed.

End MissingKey.

(** The template [{{.Nope}}.] with the option mapZeroValue executes as it
    does with the default option. *)
Lemma X22_only_the_error_option_matters_witness :
  Execute (retarget zero_as_default Examples.lenient) (Examples.buffer 100)
    Examples.doc
  = Execute Examples.lenient (Examples.buffer 100) Examples.doc
  /\ missingKey (retarget zero_as_default Examples.lenient) = mapInvalid.
Proof.
  split; [|reflexivity].
  apply (X22_only_the_error_option_matters (Ext:=Sample.externals)).
  intros []; reflexivity.
Defined.

Section LoopVariables.
Context {T : SinkTypes} {Ext : Externals}.

(** X3.  The loop variables of a range.  Let the range pipeline, which
    declares or assigns the variables [decl], return from [s] in [s1], and
    let an iteration start in a state [s'] with the names of [s1] (every
    iteration does, by [oneIteration_same_scope]).  With one variable, the
    prelude of the iteration returns and leaves the variable bound to the
    element.  With two variables it leaves the second bound to the element
    and the first, when its name differs, bound to the index (the key, for
    an object).  The names on the stack and the sink are as they were. *)
Theorem X3_range_binds_the_loop_variables dot a cmds decl index elem s val s1 s' :
  evalPipeline dot (Some (parse.mkPipeNode a decl cmds)) s = Ret val s1 ->
  names s' = names s1 ->
  let pipe := Some (parse.mkPipeNode a decl cmds) in
  (forall de, decl = [de] ->
     exists s2,
       bindLoopVars pipe index elem s' = Ret tt s2
       /\ names s2 = names s' /\ wr s2 = wr s'
       /\ varValue (hd "" (parse.Ident de)) s2 = Ret elem s2)
  /\ (forall di de, decl = [di; de] ->
     exists s2,
       bindLoopVars pipe index elem s' = Ret tt s2
       /\ names s2 = names s' /\ wr s2 = wr s'
       /\ varValue (hd "" (parse.Ident de)) s2 = Ret elem s2
       /\ (hd "" (parse.Ident di) <> hd "" (parse.Ident de) ->
           varValue (hd "" (parse.Ident di)) s2 = Ret index s2)).
Proof.
  intros H Hs' pipe. subst pipe. split.
  - intros de ->. by eapply bindLoopVars_one.
  - intros di de ->. by eapply bindLoopVars_two.
Qed.

End LoopVariables.

(** Over the first sample document, [$i, $e := .Array] returns the array,
    and an iteration with index 0 and element 42 binds $e to 42 and $i
    to 0. *)
Lemma X3_range_binds_the_loop_variables_witness :
  exists s1 s2 : state,
    evalPipeline Examples.dot0 (Some Examples.index_and_element) Examples.state0
    = Ret Examples.v_array s1
    /\ bindLoopVars (Some Examples.index_and_element) Examples.v_0 Examples.v_42 s1
       = Ret tt s2
    /\ varValue "$e" s2 = Ret Examples.v_42 s2
    /\ varValue "$i" s2 = Ret Examples.v_0 s2.
Proof.
  let r := eval vm_compute in
    (evalPipeline Examples.dot0 (Some Examples.index_and_element) Examples.state0) in
  lazymatch r with Ret _ ?s => exists s end.
  assert (H : evalPipeline Examples.dot0 (Some Examples.index_and_element)
                Examples.state0 = Ret Examples.v_array _)
    by (vm_compute; reflexivity).
  destruct (proj2 (X3_range_binds_the_loop_variables (Ext:=Sample.externals)
                     Examples.dot0 false _ _ Examples.v_0 Examples.v_42
                     _ _ _ _ H eq_refl) _ _ eq_refl)
    as (s2 & Hb & _ & _ & He & Hi).
  exists s2. split; [exact H|]. split; [exact Hb|]. split; [exact He|].
  apply Hi. discriminate.
Defined.

Section Texts.
Context {T : SinkTypes} {Ext : Externals}.

Variable walkRoot : gjson.Result -> option (list parse.Node) -> Walk unit.

Lemma walkNodes_texts dot texts s :
  walkNodes walkRoot dot (map parse.TextNode texts) s = wrote s texts.
Proof.
  revert s. induction texts as [|text rest IH]; intros s.
  - by rewrite wrote_nil.
  - cbn [map]. rewrite walkNodes_cons, wrote_cons. unfold wbind.
    change (walkNode walkRoot dot (parse.TextNode text) s) with (lift (write text) s).
    unfold lift, write, writeError.
    destruct (Write (wr s) text) as [w [err|]]; [done|].
    rewrite IH. by destruct (wrote (set_wr s w) rest) as [[[] ?|]|].
Qed.

End Texts.

Section TextTemplates.
Context {T : SinkTypes} {Ext : Externals}.

(** X20.  A template of texts.  Execute on a template whose root is a list
    of text nodes writes the texts in order, one Write each; it returns nil
    when the sink takes them all, and the error of the sink at the first
    text it refuses, after which nothing is written. *)
Theorem X20_text_template t w data texts :
  Root t = Some (map parse.TextNode texts) -> accepted data ->
  Execute t w data
  = Some (match writeAll w texts with
          | (w', None) => Returns None w'
          | (w', Some err) => Returns (Some (SinkErrorValue err)) w'
          end).
Proof.
  intros Hroot Hdata. unfold Execute, execute, execute_with.
  rewrite accepted_check by done. unfold run. rewrite Hroot.
  unfold walk.
  change (walkNode ?r ?d (parse.ListNode ?l)) with (walkNodes r d l).
  rewrite walkNodes_texts. unfold wrote. simpl.
  by destruct (writeAll w texts) as [w' [err|]].
Qed.

End TextTemplates.

(** The template of the texts "a" and "b" writes "ab". *)
Lemma X20_text_template_witness :
  Execute (Examples.plain (map parse.TextNode ["a"; "b"])) (Examples.buffer 100)
    Examples.doc
  = Some (match writeAll (Examples.buffer 100) ["a"; "b"] with
          | (w', None) => Returns None w'
          | (w', Some err) => Returns (Some (SinkErrorValue err)) w'
          end)
  /\ writeAll (Examples.buffer 100) ["a"; "b"] = (Sample.mkbuffer "ab" 98, None).
Proof.
  split; [|vm_compute; reflexivity].
  apply (X20_text_template (Ext:=Sample.externals)); [reflexivity|].
  left. vm_compute. reflexivity.
Defined.

Section Paths.
Context {T : SinkTypes} {Ext : Externals}.

Lemma evalFunction_gjson dot f a final s :
  evalFunction dot "gjson" [f; a] final s
  = bind a (fun pathArg =>
      if negb (is_String pathArg)
      then errorf "gjson requires a string path argument" []
      else
        bind strict (fun isStrict =>
          if negb (gjson.Exists (Get dot (String_ pathArg))) && isStrict
          then errorf "gjson path %q not found in data" [ArgString (String_ pathArg)]
          else ret (Get dot (String_ pathArg)))) s.
Proof. reflexivity. Qed.

(** X7.  Three ways to read a path.  Where the path is found, or the
    option is not mapError, the field chain [{{.a.b}}], the back-quoted
    path [`a.b`] and the call [{{gjson "a.b"}}] evaluate to the same value,
    [dot.Get("a.b")], and leave the state as it was.  The call reads its
    path through a string literal: the precondition is that gjson parses
    the quoted literal to a string with that text. *)
Theorem X7_three_ways_to_read_a_path dot ident quoted quoted' s :
  let path := String.concat "." ident in
  negb (gjson.Exists (Get dot path)) && missingKey_is_error (missingKey (tmpl s))
  = false ->
  is_String (Parse (fmt_q path)) = true ->
  String_ (Parse (fmt_q path)) = path ->
  evalCommand dot (parse.mkCommandNode [parse.FieldNode ident]) gjson.zero s
  = Ret (Get dot path) s
  /\ evalCommand dot
       (parse.mkCommandNode [parse.StringNode quoted (backquote path)]) gjson.zero s
     = Ret (Get dot path) s
  /\ evalCommand dot
       (parse.mkCommandNode [parse.IdentifierNode "gjson";
                             parse.StringNode quoted' path]) gjson.zero s
     = Ret (Get dot path) s.
Proof.
  intros path Hok Hstr Htext. split; [|split].
  - change (evalCommand dot _ gjson.zero s)
      with (evalFieldChain dot dot ident [parse.FieldNode ident] gjson.zero s).
    unfold evalFieldChain, bind, strict. fold path. by rewrite Hok.
  - destruct (backquoted_path_eq dot quoted path [] gjson.zero s) as [-> _].
    by rewrite Hok.
  - rewrite evalCommand_function. cbn [map]. rewrite evalFunction_gjson.
    change (evalArg dot (parse.StringNode quoted' path))
      with (@ret T _ (Parse (fmt_q path))).
    unfold bind, ret, strict. rewrite Hstr, Htext. cbn [negb]. by rewrite Hok.
Qed.

(** The parenthesised variable evaluates to the variable's value. *)
Lemma evalArg_parenthesised dot x s :
  evalArg dot (parenthesised x) s = varValue x s.
Proof.
  unfold parenthesised. rewrite evalArg_pipe, evalPipe_single.
  change (evalCommand dot _ gjson.zero s)
    with (evalVariableNode dot (parse.mkVariableNode [x])
            [parse.VariableNode_ (parse.mkVariableNode [x])] gjson.zero s).
  unfold evalVariableNode, notAFunction, bind, ret. simpl.
  unfold varValue.
  destruct (findVar (vars s) x (mark s)) as [i|]; [|reflexivity].
  destruct (vars s !! i); reflexivity.
Qed.

(** X8.  A field chain on a parenthesised variable, [($x).a.b], is a chain
    node on the pipeline [$x]; it evaluates as the variable with fields,
    [$x.a.b]: the same value, the same faults, as the first word of a
    command, with further words or a piped value as well, and as an
    argument. *)
Theorem X8_chain_on_a_variable dot x fld rest final s :
  fld <> [] ->
  evalCommand dot
    (parse.mkCommandNode (parse.ChainNode (parenthesised x) fld :: rest)) final s
  = evalCommand dot
      (parse.mkCommandNode (parse.VariableNode_ (parse.mkVariableNode (x :: fld)) :: rest))
      final s
  /\ evalArg dot (parse.ChainNode (parenthesised x) fld) s
     = evalArg dot (parse.VariableNode_ (parse.mkVariableNode (x :: fld))) s.
Proof.
  intros Hf. destruct fld as [|f0 fld]; [done|].
  set (chain := parse.ChainNode (parenthesised x) (f0 :: fld)).
  set (var := parse.VariableNode_ (parse.mkVariableNode (x :: f0 :: fld))).
  split.
  - change (evalCommand dot (parse.mkCommandNode (chain :: rest)) final s)
      with (evalChainNode dot chain (parenthesised x) (f0 :: fld)
              (evalArg dot (parenthesised x)) (chain :: rest) final s).
    change (evalCommand dot (parse.mkCommandNode (var :: rest)) final s)
      with (evalVariableNode dot (parse.mkVariableNode (x :: f0 :: fld))
              (var :: rest) final s).
    unfold evalChainNode, evalVariableNode, bind.
    change (len (f0 :: fld) =? 0)%Z with false.
    change (parse.is_nil (parenthesised x)) with false. cbn beta iota.
    rewrite evalArg_parenthesised. reflexivity.
  - change (evalArg dot chain s)
      with (evalChainNode dot chain (parenthesised x) (f0 :: fld)
              (evalArg dot (parenthesised x)) [] gjson.zero s).
    change (evalArg dot var s)
      with (evalVariableNode dot (parse.mkVariableNode (x :: f0 :: fld))
              [] gjson.zero s).
    unfold evalChainNode, evalVariableNode, bind.
    change (len (f0 :: fld) =? 0)%Z with false.
    change (parse.is_nil (parenthesised x)) with false. cbn beta iota.
    rewrite evalArg_parenthesised. reflexivity.
Qed.

End Paths.

(** Over the first sample document the three ways to read Number give 42. *)
Lemma X7_three_ways_to_read_a_path_witness :
  evalCommand Examples.dot0
    (parse.mkCommandNode [parse.FieldNode ["Number"]]) gjson.zero Examples.state0
  = Ret Examples.v_42 Examples.state0
  /\ evalCommand Examples.dot0
       (parse.mkCommandNode [parse.StringNode "" (backquote "Number")])
       gjson.zero Examples.state0
     = Ret Examples.v_42 Examples.state0
  /\ evalCommand Examples.dot0
       (parse.mkCommandNode [parse.IdentifierNode "gjson";
                             parse.StringNode "" "Number"])
       gjson.zero Examples.state0
     = Ret Examples.v_42 Examples.state0.
Proof.
  exact (X7_three_ways_to_read_a_path (Ext:=Sample.externals) Examples.dot0
           ["Number"] EmptyString EmptyString Examples.state0
           ltac:(vm_compute; reflexivity) ltac:(vm_compute; reflexivity)
           ltac:(vm_compute; reflexivity)).
Defined.

(** [($).Number] and [$.Number] over the sample state: both are 42. *)
Lemma X8_chain_on_a_variable_witness :
  evalCommand Examples.dot0
    (parse.mkCommandNode [parse.ChainNode (parenthesised "$") ["Number"]])
    gjson.zero Examples.state0
  = evalCommand Examples.dot0
      (parse.mkCommandNode [parse.VariableNode_ (parse.mkVariableNode ["$"; "Number"])])
      gjson.zero Examples.state0
  /\ evalCommand Examples.dot0
       (parse.mkCommandNode [parse.ChainNode (parenthesised "$") ["Number"]])
       gjson.zero Examples.state0
     = Ret Examples.v_42 Examples.state0.
Proof.
  split; [|vm_compute; reflexivity].
  apply (X8_chain_on_a_variable (Ext:=Sample.externals) Examples.dot0 "$" ["Number"] []
           gjson.zero Examples.state0).
  discriminate.
Defined.
